(** * WheelSelect: the picker's interaction logic, embedded and verified

    The development follows [src/components/WheelSelect.tsx]:

    - [Config]: the configuration values, [mergeDeep] and [toCssValue];
    - [Dom]: the measurements the component reads from the page and the
      timers it sets, as the browser keeps them;
    - [Wheel]: the component's props, state and handlers, one definition
      per handler of the source, with the same names, and the calls it
      makes to its host;
    - [Binary64]: the scan of [calculateActiveFromScroll] on the numbers
      of the machine;
    - the theorems, one section per handler family.

    JavaScript numbers that are indices are integers ([Z]).  Lengths and
    positions on the page of [Dom] are rationals ([Q]), so that halving
    is exact and the equations of the layout can be stated; where the
    rounding of binary64 decides the outcome, in the comparison of
    distances, [Binary64] has the numbers as the machine has them. *)

From stdpp Require Import gmap strings list fin_maps pretty.
From Stdlib Require Import ZArith QArith Qabs Lqa Lia.
From Stdlib Require Floats.
From Equations Require Import Equations.

#[local] Set Warnings "-register-all".

(* ===================================================================== *)
(** ** Configuration values *)
(* ===================================================================== *)

Module Config.

(** The values a configuration object can hold.  A number of the
    configuration is a safe integer: an integer of magnitude at most
    [2^53 - 1], which a binary64 number holds exactly and prints with all
    its digits.  The numbers with a fraction, [NaN] and the infinities
    have no value here. *)
Inductive JsVal : Type :=
| JUndefined
| JNull
| JBool (b : bool)
| JNum (n : Z)
| JStr (s : string)
| JArr (l : list JsVal)
| JObj (m : gmap string JsVal).

(** What a run comes to: it returns a value, it throws a [TypeError], or
    it reads a property that the values above do not hold (one inherited
    from a prototype) and is beyond what is modelled. *)
Inductive Outcome (A : Type) : Type :=
| Returns (a : A)
| Throws
| Beyond.

Arguments Returns {A} a.
Arguments Throws {A}.
Arguments Beyond {A}.

Definition isBeyond {A} (o : Outcome A) : bool :=
  match o with Beyond => true | _ => false end.

Definition isThrows {A} (o : Outcome A) : bool :=
  match o with Throws => true | _ => false end.

(** [typeof v === 'object' && v !== null && !Array.isArray(v)] *)
Definition isPlainObject (v : JsVal) : bool :=
  match v with JObj _ => true | _ => false end.

(** JavaScript truthiness, used by [if (behavior.closeOnSelect)]. *)
Definition truthy (v : JsVal) : bool :=
  match v with
  | JUndefined | JNull => false
  | JBool b => b
  | JNum n => negb (n =? 0)%Z
  | JStr s => negb (String.eqb s "")
  | JArr _ | JObj _ => true
  end.

(** [{ ...v }]: the own enumerable properties of [v].  Arrays and strings
    spread their indices; [undefined], [null] and the other primitives
    spread nothing. *)
Definition spread (v : JsVal) : gmap string JsVal :=
  match v with
  | JObj m => m
  | JArr l => list_to_map (imap (fun i x => (pretty i, x)) l)
  | JStr s =>
      list_to_map
        (imap (fun i c => (pretty i, JStr (String c EmptyString)))
              (String.list_ascii_of_string s))
  | _ => ∅
  end.

(** The names every object inherits from [Object.prototype]. *)
Definition inherited (key : string) : bool :=
  existsb (String.eqb key)
    ["constructor"; "__proto__"; "hasOwnProperty"; "isPrototypeOf";
     "propertyIsEnumerable"; "toLocaleString"; "toString"; "valueOf";
     "__defineGetter__"; "__defineSetter__"; "__lookupGetter__";
     "__lookupSetter__"].

(** [target[key]]: a [TypeError] on [undefined] and [null]; on an object
    the own property, [undefined] when there is none and the name is not
    inherited.  What a primitive or an array answers comes from its
    prototype. *)
Definition readField (target : JsVal) (key : string) : Outcome JsVal :=
  match target with
  | JUndefined | JNull => Throws
  | JObj m =>
      match m !! key with
      | Some v => Returns v
      | None => if inherited key then Beyond else Returns JUndefined
      end
  | _ => Beyond
  end.

(** Does some key's iteration end as [test] says? *)
Definition anyField {A} (test : Outcome A -> bool) (m : gmap string (Outcome A))
  : bool :=
  map_fold (fun _ o found => test o || found) false m.

(** [result[key]] after the iteration on [key]: what the iteration left
    there when it returned, [None] being no property. *)
Definition assign (old : option JsVal) (o : option (Outcome (option JsVal)))
  : option JsVal :=
  match o with Some (Returns x) => x | _ => old end.

(** [const result = { ...target }; for (const key in source) { body }; return
    result], the body of each key given as a function of the key and of
    [target].  The loop throws when an iteration throws. *)
Definition forIn (target : JsVal)
    (body : gmap string (string -> JsVal -> Outcome (option JsVal)))
  : Outcome (gmap string JsVal) :=
  let outcomes := map_imap (fun key f => Some (f key target)) body in
  if anyField isBeyond outcomes then Beyond
  else if anyField isThrows outcomes then Throws
  else Returns (merge assign (spread target) outcomes).

(** The body of the loop of [mergeDeep] for a source value [sv], as what
    [result[key]] holds after it:
    - [sv === undefined]: what [{ ...target }] put there;
    - [sv] a non-null, non-array object: [mergeDeep(target[key], sv)],
      which first reads [target[key]];
    - otherwise: [sv].
    An assignment to [result.__proto__] sets no property. *)
Fixpoint mergeField (sv : JsVal) : string -> JsVal -> Outcome (option JsVal) :=
  match sv with
  | JUndefined => fun key target => Returns (spread target !! key)
  | JObj m => fun key target =>
      if String.eqb key "__proto__" then Beyond else
      match readField target key with
      | Returns tv =>
          match forIn tv (mergeField <$> m) with
          | Returns r => Returns (Some (JObj r))
          | Throws => Throws
          | Beyond => Beyond
          end
      | Throws => Throws
      | Beyond => Beyond
      end
  | v => fun key _ =>
      if String.eqb key "__proto__" then Beyond else Returns (Some v)
  end.

(** [mergeDeep(target, source)].  The nested call is made with whatever
    [target[key]] is, [undefined] and [null] included. *)
Definition mergeDeep (target : JsVal) (source : gmap string JsVal)
  : Outcome (gmap string JsVal) :=
  forIn target (mergeField <$> source).

(** [`${value}`] for a number: the digits of a safe integer. *)
Definition numberToString (n : Z) : Outcome string :=
  if (Z.abs n <=? 2 ^ 53 - 1)%Z then Returns (pretty n) else Beyond.

(** [toCssValue(value, defaultValue = '0')].  The result is a string for
    the argument types the signature admits; a value of another type is
    returned as it is, as the conditional does. *)
Definition toCssValue (value : JsVal) (defaultValue : string) : Outcome JsVal :=
  match value with
  | JUndefined => Returns (JStr defaultValue)
  | JNum n =>
      match numberToString n with
      | Returns digits => Returns (JStr (digits +:+ "px"))
      | Throws => Throws
      | Beyond => Beyond
      end
  | v => Returns v
  end.

(** *** The defaults *)

Definition defaultTheme : gmap string JsVal :=
  {[ "colorScheme" := JStr "dark";
     "colors" := JObj {[ "text" := JStr "inherit";
                         "textMuted" := JStr "inherit";
                         "activeBg" := JStr "rgba(255, 255, 255, 0.12)";
                         "hoverBg" := JStr "rgba(255, 255, 255, 0.12)";
                         "backdropBg" := JStr "rgba(0, 0, 0, 0.5)";
                         "focusRing" := JStr "rgba(255, 255, 255, 0.5)" ]};
     "borderRadius" := JNum 12;
     "font" := JObj {[ "family" := JStr "inherit";
                       "size" := JNum 28;
                       "weight" := JNum 500;
                       "triggerSize" := JStr "inherit" ]};
     "animation" := JObj {[ "duration" := JNum 200;
                            "easing" := JStr "ease";
                            "disabled" := JBool false ]};
     "spacing" := JObj {[ "triggerGap" := JNum 16;
                          "triggerPadding" := JStr "8px 16px";
                          "optionGap" := JNum 16;
                          "optionPadding" := JStr "0 20px" ]} ]}.

Definition defaultSizing : gmap string JsVal :=
  {[ "wheelHeight" := JNum 320;
     "wheelMinWidth" := JNum 220;
     "optionHeight" := JNum 56;
     "iconSize" := JNum 20 ]}.

Definition defaultBehavior : gmap string JsVal :=
  {[ "closeOnOutsideClick" := JBool true;
     "closeOnEscape" := JBool true;
     "closeOnSelect" := JBool true;
     "scrollDebounceMs" := JNum 50;
     "keyboardNavigation" := JBool true;
     "portalTarget" := JNull;
     "focusTriggerOnClose" := JBool true ]}.

(** How deep the objects of a value nest. *)
Fixpoint depth (v : JsVal) : nat :=
  match v with
  | JObj m => S (map_fold (fun _ x d => Nat.max (depth x) d) 0%nat m)
  | _ => 0%nat
  end.

End Config.

(* ===================================================================== *)
(** ** The page: measurements and timers *)
(* ===================================================================== *)

Module Dom.

(** The fields of a [DOMRect] the component reads. *)
Record DOMRect : Type := mkRect { left : Q; top : Q; height : Q }.

(** The wheel element ([wheelRef.current]): what [getBoundingClientRect()],
    [clientHeight] and [scrollTop] return for it. *)
Record WheelEl : Type := mkWheel {
  wheelRect : DOMRect;
  wheelClientHeight : Q;
  wheelScrollTop : Q }.

(** An option element ([itemRefs.current[i]]). *)
Record ItemEl : Type := mkItem {
  itemRect : DOMRect;
  itemClientHeight : Q;
  itemOffsetTop : Q }.

(** [a < b] on measurements, as a test. *)
Definition Qltb (a b : Q) : bool := negb (Qle_bool b a).

(** Halves, written as products for linear arithmetic. *)
Ltac halves :=
  unfold Qdiv in *; change (/ 2)%Q with (1 # 2)%Q in *.

(** [rect.top + rect.height / 2] *)
Definition centerOf (r : DOMRect) : Q := top r + height r / 2.

(** The layout model of the wheel: the wheel is the offset parent of its
    items and has no border, so an item's rectangle starts [offsetTop -
    scrollTop] below the wheel's.  [setScrollTop] is the assignment
    [wheel.scrollTop = s] together with the layout it causes. *)
Definition placeItem (w : WheelEl) (s : Q) (it : ItemEl) : ItemEl :=
  mkItem (mkRect (left (itemRect it))
                 (top (wheelRect w) + itemOffsetTop it - s)
                 (height (itemRect it)))
         (itemClientHeight it) (itemOffsetTop it).

Definition setScrollTop (s : Q) (w : WheelEl) : WheelEl :=
  mkWheel (wheelRect w) (wheelClientHeight w) s.

(** *** Timers

    The browser's timers, as far as the component uses them: a timer set
    at time [now] with delay [d] is due at [now + max 0 d]; it runs once,
    when the clock has reached its deadline, unless it was cleared before.
    Handles are positive numbers, hence truthy.  [fired] lists the timers
    that ran, each with the time it ran at, oldest first. *)
Record Timer : Type := mkTimer {
  timerId : positive;
  requestedDelay : Z;
  deadline : Z }.

Record Timers : Type := mkTimers {
  now : Z;
  nextId : positive;
  pending : list Timer;
  fired : list (positive * Z) }.

Definition setTimeout (delay : Z) (tm : Timers) : positive * Timers :=
  (nextId tm,
   mkTimers (now tm) (Pos.succ (nextId tm))
            (pending tm ++ [mkTimer (nextId tm) delay (now tm + Z.max 0 delay)])
            (fired tm)).

Definition clearTimeout (id : positive) (tm : Timers) : Timers :=
  mkTimers (now tm) (nextId tm)
           (List.filter (fun t => negb (Pos.eqb (timerId t) id)) (pending tm))
           (fired tm).

(** The pending timer the event loop runs next when the clock shows [t]:
    the earliest deadline not after [t], the oldest handle among equals. *)
Definition earlier (a b : Timer) : bool :=
  (deadline a <? deadline b)%Z
  || ((deadline a =? deadline b)%Z && Pos.leb (timerId a) (timerId b)).

Fixpoint nextDue (t : Z) (l : list Timer) : option Timer :=
  match l with
  | [] => None
  | x :: l' =>
      match nextDue t l' with
      | Some y => if (deadline x <=? t)%Z && earlier x y then Some x else Some y
      | None => if (deadline x <=? t)%Z then Some x else None
      end
  end.

(** Taking a due timer off the queue, the clock at its deadline at least. *)
Definition takeTimer (x : Timer) (tm : Timers) : Timers :=
  mkTimers (Z.max (now tm) (deadline x)) (nextId tm)
           (List.filter (fun t => negb (Pos.eqb (timerId t) (timerId x))) (pending tm))
           (fired tm ++ [(timerId x, Z.max (now tm) (deadline x))]).

Definition setClock (t : Z) (tm : Timers) : Timers :=
  mkTimers (Z.max (now tm) t) (nextId tm) (pending tm) (fired tm).

End Dom.

(* ===================================================================== *)
(** ** The component *)
(* ===================================================================== *)

Module Opt.

(** [WheelSelectOption]: [disabled] and [data] are optional. *)
Record WheelSelectOption : Type := mkOption {
  value : string;
  label : string;
  disabled : option bool;
  data : option (gmap string Config.JsVal) }.

(** [option.disabled] read as a condition; [undefined] is falsy. *)
Definition isDisabled (o : WheelSelectOption) : bool :=
  match disabled o with Some b => b | None => false end.

End Opt.

Module Wheel.

Import Config Dom.
Export Opt.

Open Scope Z_scope.

(** *** Arrays indexed by a number *)

(** [l[i]]: [undefined] outside the array. *)
Definition nthZ {A} (l : list A) (i : Z) : option A :=
  if i <? 0 then None else l !! Z.to_nat i.

Definition lengthZ {A} (l : list A) : Z := Z.of_nat (length l).

(** [l.findIndex(f)], [-1] when no element passes. *)
Fixpoint findIndexFrom {A} (f : A -> bool) (l : list A) (i : Z) : Z :=
  match l with
  | [] => -1
  | x :: l' => if f x then i else findIndexFrom f l' (i + 1)
  end.

Definition findIndex {A} (f : A -> bool) (l : list A) : Z :=
  findIndexFrom f l 0.

(** [l.findLastIndex(f)] *)
Fixpoint findLastIndexFrom {A} (f : A -> bool) (l : list A) (i : Z) : Z :=
  match l with
  | [] => -1
  | x :: l' =>
      let later := findLastIndexFrom f l' (i + 1) in
      if later =? -1 then (if f x then i else -1) else later
  end.

Definition findLastIndex {A} (f : A -> bool) (l : list A) : Z :=
  findLastIndexFrom f l 0.

(** [l.find(f)] *)
Definition find {A} (f : A -> bool) (l : list A) : option A := List.find f l.

(** *** Props *)

(** [WheelSelectCallbacks]: every handler is optional; a field says whether
    the host supplied it. *)
Record WheelSelectCallbacks : Type := mkCallbacks {
  onOpen : bool;
  onClose : bool;
  onChange : bool;
  onActiveChange : bool;
  onKeyDown : bool }.

(** The props the handlers read.  The [onChange] prop is required and has
    no field; [behaviorProp] is the partial override of the behaviour. *)
Record WheelSelectProps : Type := mkProps {
  options : list WheelSelectOption;
  value : string;
  disabled : bool;
  behaviorProp : option (gmap string JsVal);
  callbacks : option WheelSelectCallbacks }.

(** [mergeDeep(defaultBehavior, behaviorProp || {})].  A merge that throws
    ends the render of the component: there is then no handler to run, and
    no merged object to read. *)
Definition behavior (p : WheelSelectProps) : gmap string JsVal :=
  match mergeDeep (JObj defaultBehavior) (default ∅ (behaviorProp p)) with
  | Returns merged => merged
  | Throws | Beyond => ∅
  end.

(** A field of the merged behaviour read as a condition. *)
Definition flag (p : WheelSelectProps) (key : string) : bool :=
  match behavior p !! key with Some v => truthy v | None => false end.

(** [behavior.scrollDebounceMs], a number by its type. *)
Definition scrollDebounceMs (p : WheelSelectProps) : Z :=
  match behavior p !! "scrollDebounceMs" with Some (JNum n) => n | _ => 0 end.

(** [callbacks?.h]: is the handler [h] there? *)
Definition has (p : WheelSelectProps) (h : WheelSelectCallbacks -> bool) : bool :=
  match callbacks p with Some c => h c | None => false end.

(** *** Calls the component makes *)

Inductive Call : Type :=
| PropOnChange (v : string)                       (* onChange(v) *)
| CbOnChange (v : string) (o : WheelSelectOption) (* callbacks.onChange(v, o) *)
| CbOnOpen
| CbOnClose
| CbOnActiveChange (i : Z) (o : WheelSelectOption)
| CbOnKeyDown (key : string)
| PreventDefault
| StopPropagation
| FocusTrigger                                    (* triggerRef.current.focus() *)
| FocusWheel                                      (* wheelRef.current.focus() *)
| ScrollIntoView (i : Z).                         (* itemRefs.current[i].scrollIntoView(..) *)

(** *** State

    The three [useState] cells, the seven refs (an element ref holds what
    the component reads from or writes to the element), the timers, the
    pending animation-frame callbacks (each closed over its target index)
    and the calls made so far, oldest first. *)
Record State : Type := mkState {
  isOpen : bool;
  activeIndex : Z;
  triggerRect : option DOMRect;
  triggerRef : option DOMRect;
  selectRef : option string;
  wheelRef : option WheelEl;
  itemRefs : list (option ItemEl);
  initialScrollIndexRef : option Z;
  scrollTimeoutRef : option positive;
  isScrollingRef : bool;
  timers : Timers;
  frames : list Z;
  calls : list Call }.

Definition setIsOpen (v : bool) (s : State) : State :=
  mkState v (activeIndex s) (triggerRect s) (triggerRef s) (selectRef s)
    (wheelRef s) (itemRefs s) (initialScrollIndexRef s) (scrollTimeoutRef s)
    (isScrollingRef s) (timers s) (frames s) (calls s).
Definition setActiveIndex (v : Z) (s : State) : State :=
  mkState (isOpen s) v (triggerRect s) (triggerRef s) (selectRef s)
    (wheelRef s) (itemRefs s) (initialScrollIndexRef s) (scrollTimeoutRef s)
    (isScrollingRef s) (timers s) (frames s) (calls s).
Definition setTriggerRect (v : option DOMRect) (s : State) : State :=
  mkState (isOpen s) (activeIndex s) v (triggerRef s) (selectRef s)
    (wheelRef s) (itemRefs s) (initialScrollIndexRef s) (scrollTimeoutRef s)
    (isScrollingRef s) (timers s) (frames s) (calls s).
Definition setSelectValue (v : string) (s : State) : State :=
  mkState (isOpen s) (activeIndex s) (triggerRect s) (triggerRef s) (Some v)
    (wheelRef s) (itemRefs s) (initialScrollIndexRef s) (scrollTimeoutRef s)
    (isScrollingRef s) (timers s) (frames s) (calls s).
Definition setWheel (w : option WheelEl) (its : list (option ItemEl)) (s : State) : State :=
  mkState (isOpen s) (activeIndex s) (triggerRect s) (triggerRef s) (selectRef s)
    w its (initialScrollIndexRef s) (scrollTimeoutRef s)
    (isScrollingRef s) (timers s) (frames s) (calls s).
Definition setInitialScrollIndex (v : option Z) (s : State) : State :=
  mkState (isOpen s) (activeIndex s) (triggerRect s) (triggerRef s) (selectRef s)
    (wheelRef s) (itemRefs s) v (scrollTimeoutRef s)
    (isScrollingRef s) (timers s) (frames s) (calls s).
Definition setScrollTimeout (v : option positive) (s : State) : State :=
  mkState (isOpen s) (activeIndex s) (triggerRect s) (triggerRef s) (selectRef s)
    (wheelRef s) (itemRefs s) (initialScrollIndexRef s) v
    (isScrollingRef s) (timers s) (frames s) (calls s).
Definition setIsScrolling (v : bool) (s : State) : State :=
  mkState (isOpen s) (activeIndex s) (triggerRect s) (triggerRef s) (selectRef s)
    (wheelRef s) (itemRefs s) (initialScrollIndexRef s) (scrollTimeoutRef s)
    v (timers s) (frames s) (calls s).
Definition setTimers (v : Timers) (s : State) : State :=
  mkState (isOpen s) (activeIndex s) (triggerRect s) (triggerRef s) (selectRef s)
    (wheelRef s) (itemRefs s) (initialScrollIndexRef s) (scrollTimeoutRef s)
    (isScrollingRef s) v (frames s) (calls s).
Definition setFrames (v : list Z) (s : State) : State :=
  mkState (isOpen s) (activeIndex s) (triggerRect s) (triggerRef s) (selectRef s)
    (wheelRef s) (itemRefs s) (initialScrollIndexRef s) (scrollTimeoutRef s)
    (isScrollingRef s) (timers s) v (calls s).
Definition call (c : Call) (s : State) : State :=
  mkState (isOpen s) (activeIndex s) (triggerRect s) (triggerRef s) (selectRef s)
    (wheelRef s) (itemRefs s) (initialScrollIndexRef s) (scrollTimeoutRef s)
    (isScrollingRef s) (timers s) (frames s) (calls s ++ [c]).

(** [h?.(..)]: the call is made when the handler is there. *)
Definition callIf (present : bool) (c : Call) (s : State) : State :=
  if present then call c s else s.

(** [triggerRef.current?.focus()] *)
Definition focusTrigger (s : State) : State :=
  match triggerRef s with Some _ => call FocusTrigger s | None => s end.

(** [itemRefs.current[i]]: [null] and [undefined] alike are no element. *)
Definition itemAt (s : State) (i : Z) : option ItemEl :=
  match nthZ (itemRefs s) i with Some (Some it) => Some it | _ => None end.

(** [itemRefs.current[i]?.scrollIntoView({ block: 'center', behavior: 'smooth' })] *)
Definition scrollItemIntoView (i : Z) (s : State) : State :=
  match itemAt s i with Some _ => call (ScrollIntoView i) s | None => s end.

(** *** Opening, closing, committing *)

(** [o => o.value === value] *)
Definition hasValue (v : string) (o : WheelSelectOption) : bool :=
  String.eqb (Opt.value o) v.

(** The initial [activeIndex]: [Math.max(0, options.findIndex(..))]. *)
Definition initialActiveIndex (p : WheelSelectProps) : Z :=
  Z.max 0 (findIndex (hasValue (value p)) (options p)).

(** The effect on [value, options]: follow the value when it is an option. *)
Definition syncActiveIndex (p : WheelSelectProps) (st : State) : State :=
  let idx := findIndex (hasValue (value p)) (options p) in
  if idx =? -1 then st else setActiveIndex idx st.

(** The cleanup of the mount effect. *)
Definition unmountCleanup (st : State) : State :=
  match scrollTimeoutRef st with
  | Some id => setTimers (clearTimeout id (timers st)) st
  | None => st
  end.

Definition openPicker (p : WheelSelectProps) (st : State) : State :=
  if disabled p then st else
  let st := match triggerRef st with
            | Some r => setTriggerRect (Some r) st
            | None => st
            end in
  let idx := findIndex (hasValue (value p)) (options p) in
  let targetIndex := if idx =? -1 then 0 else idx in
  let st := setInitialScrollIndex (Some targetIndex) st in
  let st := setActiveIndex targetIndex st in
  let st := setIsOpen true st in
  callIf (has p onOpen) CbOnOpen st.

(** The index [openPicker] aims at: [idx !== -1 ? idx : 0]. *)
Definition targetIndexOf (p : WheelSelectProps) : Z :=
  let idx := findIndex (hasValue (value p)) (options p) in
  if idx =? -1 then 0 else idx.

Definition closePicker (p : WheelSelectProps) (st : State) : State :=
  let st := setIsOpen false st in
  let st := if flag p "focusTriggerOnClose" then focusTrigger st else st in
  callIf (has p onClose) CbOnClose st.

Definition commitSelection (p : WheelSelectProps) (newValue : string) (st : State)
  : State :=
  match find (hasValue newValue) (options p) with
  | None => st
  | Some option =>
      if isDisabled option then st else
      let st := call (PropOnChange newValue) st in
      let st := callIf (has p onChange) (CbOnChange newValue option) st in
      let st := match selectRef st with
                | Some _ => setSelectValue newValue st
                | None => st
                end in
      if flag p "closeOnSelect" then
        let st := setIsOpen false st in
        let st := if flag p "focusTriggerOnClose" then focusTrigger st else st in
        callIf (has p onClose) CbOnClose st
      else st
  end.

(** *** Centering on open *)

(** The page after [wheel.scrollTop = s]: the items laid out again. *)
Definition assignScrollTop (s : Q) (st : State) : State :=
  match wheelRef st with
  | Some w =>
      setWheel (Some (setScrollTop s w))
               (List.map (option_map (placeItem w s)) (itemRefs st)) st
  | None => st
  end.

(** The effect on [isOpen]: hand the target index to the next frame. *)
Definition scrollOnOpenEffect (st : State) : State :=
  if isOpen st then
    match initialScrollIndexRef st with
    | Some targetIndex =>
        setFrames (frames st ++ [targetIndex]) (setInitialScrollIndex None st)
    | None => st
    end
  else st.

(** The callback given to [requestAnimationFrame]. *)
Definition centerOnFrame (targetIndex : Z) (st : State) : State :=
  match wheelRef st, itemAt st targetIndex with
  | Some wheel, Some item =>
      let wheelHeight := wheelClientHeight wheel in
      let itemHeight := itemClientHeight item in
      let itemTop := itemOffsetTop item in
      let scrollTarget := (itemTop - wheelHeight / 2 + itemHeight / 2)%Q in
      assignScrollTop scrollTarget st
  | _, _ => st
  end.

(** The next frame: the pending callbacks run, in order. *)
Definition runFrames (st : State) : State :=
  fold_left (fun st targetIndex => centerOnFrame targetIndex st)
            (frames st) (setFrames [] st).

(** The second effect on [isOpen]. *)
Definition focusOnOpenEffect (st : State) : State :=
  if isOpen st then
    match wheelRef st with Some _ => call FocusWheel st | None => st end
  else st.

(** *** The active option from the scroll position *)

(** [distance < closestDistance], [None] being [Infinity]. *)
Definition belowDistance (distance : Q) (closestDistance : option Q) : bool :=
  match closestDistance with
  | None => true
  | Some c => Qltb distance c
  end.

(** The body of [itemRefs.current.forEach((item, index) => ..)], on the pair
    [(closestIndex, closestDistance)]. *)
Definition visitItem (wheelCenter : Q) (acc : Z * option Q)
    (item : option ItemEl) (index : Z) : Z * option Q :=
  match item with
  | None => acc
  | Some it =>
      let itemCenter := centerOf (itemRect it) in
      let distance := Qabs (itemCenter - wheelCenter) in
      if belowDistance distance (snd acc) then (index, Some distance) else acc
  end.

Fixpoint forEachItem (wheelCenter : Q) (items : list (option ItemEl))
    (index : Z) (acc : Z * option Q) : Z * option Q :=
  match items with
  | [] => acc
  | item :: rest =>
      forEachItem wheelCenter rest (index + 1)
                  (visitItem wheelCenter acc item index)
  end.

Definition closestIndexOf (wheel : WheelEl) (items : list (option ItemEl)) : Z :=
  fst (forEachItem (centerOf (wheelRect wheel)) items 0 (0, None)).

Definition calculateActiveFromScroll (p : WheelSelectProps) (st : State) : State :=
  match wheelRef st with
  | None => st
  | Some wheel =>
      let closestIndex := closestIndexOf wheel (itemRefs st) in
      let st := setActiveIndex closestIndex st in
      match nthZ (options p) closestIndex with
      | Some option =>
          callIf (has p onActiveChange) (CbOnActiveChange closestIndex option) st
      | None => st
      end
  end.

(** *** Scrolling, debounced *)

Definition handleScroll (p : WheelSelectProps) (st : State) : State :=
  let st := setIsScrolling true st in
  let st := match scrollTimeoutRef st with
            | Some id => setTimers (clearTimeout id (timers st)) st
            | None => st
            end in
  let (id, tm) := setTimeout (scrollDebounceMs p) (timers st) in
  setScrollTimeout (Some id) (setTimers tm st).

(** The callback given to [setTimeout] by [handleScroll]; it is the only
    callback the component ever gives to a timer. *)
Definition scrollSettled (p : WheelSelectProps) (st : State) : State :=
  calculateActiveFromScroll p (setIsScrolling false st).

(** *** Keyboard *)

(** [options[i]?.disabled] read as a condition. *)
Definition disabledAt (opts : list WheelSelectOption) (i : Z) : bool :=
  match nthZ opts i with Some o => isDisabled o | None => false end.

Definition inspect {A} (a : A) : {b | a = b} := exist _ a eq_refl.

(** [while (newIndex >= 0 && options[newIndex]?.disabled) newIndex--] *)
Equations? skipDisabledUp (opts : list WheelSelectOption) (newIndex : Z) : Z
  by wf (Z.to_nat (newIndex + 1)) lt :=
  skipDisabledUp opts newIndex
    with inspect ((newIndex >=? 0) && disabledAt opts newIndex) => {
    | exist _ true _ => skipDisabledUp opts (newIndex - 1);
    | exist _ false _ => newIndex }.
Proof. apply andb_prop in e as [e _]. lia. Qed.

(** [while (newIndex < options.length && options[newIndex]?.disabled) newIndex++] *)
Equations? skipDisabledDown (opts : list WheelSelectOption) (newIndex : Z) : Z
  by wf (Z.to_nat (lengthZ opts - newIndex)) lt :=
  skipDisabledDown opts newIndex
    with inspect ((newIndex <? lengthZ opts) && disabledAt opts newIndex) => {
    | exist _ true _ => skipDisabledDown opts (newIndex + 1);
    | exist _ false _ => newIndex }.
Proof. apply andb_prop in e as [e _]. lia. Qed.

(** [case 'ArrowUp']: the updater given to [setActiveIndex]. *)
Definition arrowUp (p : WheelSelectProps) (st : State) : State :=
  let prev := activeIndex st in
  let newIndex := skipDisabledUp (options p) (prev - 1) in
  if newIndex <? 0 then setActiveIndex prev st
  else setActiveIndex newIndex (scrollItemIntoView newIndex st).

(** [case 'ArrowDown'] *)
Definition arrowDown (p : WheelSelectProps) (st : State) : State :=
  let prev := activeIndex st in
  let newIndex := skipDisabledDown (options p) (prev + 1) in
  if newIndex >=? lengthZ (options p) then setActiveIndex prev st
  else setActiveIndex newIndex (scrollItemIntoView newIndex st).

(** [if (option && !option.disabled) commitSelection(option.value)] *)
Definition commitAt (p : WheelSelectProps) (index : Z) (st : State) : State :=
  match nthZ (options p) index with
  | Some option =>
      if isDisabled option then st else commitSelection p (Opt.value option) st
  | None => st
  end.

(** [setActiveIndex(i)] and the scroll to it, when [i !== -1]. *)
Definition jumpTo (i : Z) (st : State) : State :=
  if i =? -1 then st else scrollItemIntoView i (setActiveIndex i st).

Definition handlePickerKeyDown (p : WheelSelectProps) (key : string) (st : State)
  : State :=
  if negb (flag p "keyboardNavigation") then st else
  let st := callIf (has p onKeyDown) (CbOnKeyDown key) st in
  if String.eqb key "Escape" then
    if flag p "closeOnEscape" then closePicker p (call PreventDefault st) else st
  else if String.eqb key "ArrowUp" then arrowUp p (call PreventDefault st)
  else if String.eqb key "ArrowDown" then arrowDown p (call PreventDefault st)
  else if String.eqb key "Enter" || String.eqb key " " then
    commitAt p (activeIndex st) (call PreventDefault st)
  else if String.eqb key "Home" then
    jumpTo (findIndex (fun o => negb (isDisabled o)) (options p))
           (call PreventDefault st)
  else if String.eqb key "End" then
    jumpTo (findLastIndex (fun o => negb (isDisabled o)) (options p))
           (call PreventDefault st)
  else st.

(** *** Clicks *)

Definition handleItemClick (p : WheelSelectProps) (index : Z) (st : State) : State :=
  let st := call StopPropagation (call PreventDefault st) in
  let st := match scrollTimeoutRef st with
            | Some id =>
                setScrollTimeout None (setTimers (clearTimeout id (timers st)) st)
            | None => st
            end in
  commitAt p index st.

(** [onBackdrop] is [e.target === e.currentTarget]. *)
Definition handleBackdropClick (p : WheelSelectProps) (onBackdrop : bool)
    (st : State) : State :=
  if flag p "closeOnOutsideClick" && onBackdrop then closePicker p st else st.

Definition handleNativeChange (v : string) (st : State) : State :=
  call (PropOnChange v) st.

(** *** The imperative handle *)

Definition scrollToIndex (index : Z) (st : State) : State :=
  scrollItemIntoView index st.

Inductive HandleMethod : Type :=
| HOpen
| HClose
| HToggle
| HFocus
| HScrollToIndex (index : Z).

Definition handle (p : WheelSelectProps) (m : HandleMethod) (st : State) : State :=
  match m with
  | HOpen => openPicker p st
  | HClose => closePicker p st
  | HToggle => if isOpen st then closePicker p st else openPicker p st
  | HFocus => focusTrigger st
  | HScrollToIndex index => scrollToIndex index st
  end.

(** [isOpen()] and [getNativeSelect()] only read. *)
Definition handleIsOpen (st : State) : bool := isOpen st.
Definition getNativeSelect (st : State) : option string := selectRef st.

(** The trigger's [onClick]. *)
Definition triggerClick (p : WheelSelectProps) (st : State) : State :=
  openPicker p st.

(** *** The event loop *)

(** The picker leaves the page when a render finds it closed: the wheel's
    ref and the items' refs are reset to [null]. *)
Definition unmountPicker (st : State) : State :=
  setWheel None (List.map (fun _ => None) (itemRefs st)) st.

(** The timers due by time [t] run, earliest first.  A callback sets no
    timer, so there are at most as many runs as pending timers. *)
Fixpoint runTimers (fuel : nat) (p : WheelSelectProps) (t : Z) (st : State) : State :=
  match fuel with
  | O => st
  | S fuel' =>
      match nextDue t (pending (timers st)) with
      | None => st
      | Some x =>
          runTimers fuel' p t
                    (scrollSettled p (setTimers (takeTimer x (timers st)) st))
      end
  end.

(** Time passes until [t]. *)
Definition advanceTo (p : WheelSelectProps) (t : Z) (st : State) : State :=
  let st := runTimers (length (pending (timers st))) p t st in
  setTimers (setClock t (timers st)) st.

(** A scroll event [gap] milliseconds after the last event, the wheel
    scrolled to position [s]. *)
Definition scrollEvent (p : WheelSelectProps) (gap : Z) (s : Q) (st : State) : State :=
  let st := advanceTo p (now (timers st) + gap) st in
  handleScroll p (assignScrollTop s st).

Fixpoint scrollEvents (p : WheelSelectProps) (events : list (Z * Q)) (st : State)
  : State :=
  match events with
  | [] => st
  | (gap, s) :: rest => scrollEvents p rest (scrollEvent p gap s st)
  end.

(** The latest deadline among the pending timers. *)
Definition lastDeadline (st : State) : Z :=
  fold_right (fun x d => Z.max (deadline x) d) (now (timers st))
             (pending (timers st)).

(** Nothing more happens until every pending timer has run. *)
Definition settle (p : WheelSelectProps) (st : State) : State :=
  advanceTo p (lastDeadline st) st.

(** *** Words for the statements *)

(** [Math.abs(itemCenter - wheelCenter)] for a rendered item. *)
Definition distanceTo (wheel : WheelEl) (it : ItemEl) : Q :=
  Qabs (centerOf (itemRect it) - centerOf (wheelRect wheel)).

(** Item [j] is on the page and is [it]. *)
Definition renderedAt (items : list (option ItemEl)) (j : Z) (it : ItemEl) : Prop :=
  nthZ items j = Some (Some it).

(** The wheel and its items have no border: a rectangle is as high as the
    element's client box; and every item has a positive height. *)
Definition Borderless (wheel : WheelEl) (items : list ItemEl) : Prop :=
  (height (wheelRect wheel) == wheelClientHeight wheel)%Q
  /\ Forall (fun it => (height (itemRect it) == itemClientHeight it)%Q
                       /\ (0 < itemClientHeight it)%Q) items.

(** The items are stacked from top to bottom, none over the next. *)
Fixpoint Stacked (items : list ItemEl) : Prop :=
  match items with
  | a :: (b :: _) as rest =>
      (itemOffsetTop a + itemClientHeight a <= itemOffsetTop b)%Q /\ Stacked rest
  | _ => True
  end.

(** Every pending timer is the one [scrollTimeoutRef] holds. *)
Definition OwnsTimers (st : State) : Prop :=
  Forall (fun x => scrollTimeoutRef st = Some (timerId x)) (pending (timers st)).

(** What the scan of [calculateActiveFromScroll] holds after the items
    [seen]: nothing when none of them is on the page, and otherwise the
    index and the distance of the first item among the closest. *)
Definition BestSoFar (wheelCenter : Q) (seen : list (option ItemEl))
    (acc : Z * option Q) : Prop :=
  match snd acc with
  | None => Forall (fun x => x = None) seen
  | Some d =>
      exists it,
        nthZ seen (fst acc) = Some (Some it)
        /\ d = Qabs (centerOf (itemRect it) - wheelCenter)
        /\ (forall j it', nthZ seen j = Some (Some it') ->
              (d <= Qabs (centerOf (itemRect it') - wheelCenter))%Q)
        /\ (forall j it', j < fst acc -> nthZ seen j = Some (Some it') ->
              (d < Qabs (centerOf (itemRect it') - wheelCenter))%Q)
  end.

(** One timer is pending, the one [scrollTimeoutRef] holds, set by
    [handleScroll] at the time the clock shows. *)
Definition Armed (p : WheelSelectProps) (st : State) (x : Timer) : Prop :=
  pending (timers st) = [x]
  /\ scrollTimeoutRef st = Some (timerId x)
  /\ requestedDelay x = scrollDebounceMs p
  /\ deadline x = now (timers st) + Z.max 0 (scrollDebounceMs p).

(** The position of the last of a run of scroll events. *)
Definition lastPosition (first : Z * Q) (rest : list (Z * Q)) : Q :=
  snd (List.last rest first).

(** *** What can happen to a mounted widget

    One step is one run of a handler, of an effect, of the page's reaction
    to a render, or the passing of time. *)
Inductive Step (p : WheelSelectProps) : State -> State -> Prop :=
| StepTrigger st : Step p st (triggerClick p st)
| StepHandle m st : Step p st (handle p m st)
| StepKey key st : Step p st (handlePickerKeyDown p key st)
| StepItemClick index st : Step p st (handleItemClick p index st)
| StepBackdrop onBackdrop st : Step p st (handleBackdropClick p onBackdrop st)
| StepNativeChange v st : Step p st (handleNativeChange v st)
| StepSync st : Step p st (syncActiveIndex p st)
| StepOpenEffect st : Step p st (scrollOnOpenEffect st)
| StepFocusEffect st : Step p st (focusOnOpenEffect st)
| StepFrame st : Step p st (runFrames st)
| StepMount w its st : Step p st (setWheel w its st)
| StepScroll gap s st : Step p st (scrollEvent p gap s st)
| StepTime t st : Step p st (advanceTo p t st).

Inductive Reachable (p : WheelSelectProps) (st0 : State) : State -> Prop :=
| ReachedStart : Reachable p st0 st0
| ReachedStep st st' : Reachable p st0 st -> Step p st st' -> Reachable p st0 st'.

(** [st'] has the timers and the timer ref of [st]. *)
Definition KeepsTimers (st st' : State) : Prop :=
  timers st' = timers st /\ scrollTimeoutRef st' = scrollTimeoutRef st.

(** Case analysis on every test a handler makes. *)
Ltac handler_cases :=
  repeat (cbn [timers scrollTimeoutRef triggerRef selectRef wheelRef itemRefs
               isOpen initialScrollIndexRef frames
               setIsOpen setActiveIndex setTriggerRect setSelectValue setWheel
               setInitialScrollIndex setScrollTimeout setIsScrolling setTimers
               setFrames call];
          match goal with
          | |- context [match ?x with _ => _ end] => destruct x
          end).

Ltac keeps := unfold KeepsTimers; handler_cases; split; reflexivity.

(** *** What is rendered *)

(** [options.find(o => o.value === value)] *)
Definition selectedOption (p : WheelSelectProps) : option WheelSelectOption :=
  find (hasValue (value p)) (options p).

(** [selectedOption?.label ?? placeholder] *)
Definition displayLabel (p : WheelSelectProps) (placeholder : string) : string :=
  match selectedOption p with
  | Some o => label o
  | None => placeholder
  end.

(** An [<option>] of the hidden native select. *)
Record NativeOption : Type := mkNative {
  nativeValue : string;
  nativeLabel : string;
  nativeDisabled : bool }.

(** The children of the native select: the placeholder option when no
    option is selected, then one [<option>] for each option. *)
Definition nativeOptions (p : WheelSelectProps) (placeholder : string)
  : list NativeOption :=
  match selectedOption p with
  | None => [mkNative "" placeholder false]
  | Some _ => []
  end
  ++ List.map (fun o => mkNative (Opt.value o) (label o) (isDisabled o)) (options p).

(** [renderPicker] renders something: [!(!isOpen || !triggerRect)]. *)
Definition pickerRendered (st : State) : bool :=
  isOpen st && match triggerRect st with Some _ => true | None => false end.

(** [typeof v === 'number' ? v : d] *)
Definition numberOr (v : option JsVal) (d : Z) : Z :=
  match v with Some (JNum n) => n | _ => d end.

(** [spacerHeight], from the merged sizing. *)
Definition spacerHeight (sizing : gmap string JsVal) : Q :=
  let wheelH := numberOr (sizing !! "wheelHeight") 320 in
  let optionH := numberOr (sizing !! "optionHeight") 56 in
  (inject_Z wheelH / 2 - inject_Z optionH / 2)%Q.

(** *** More words for the statements *)

(** [v] is the value of an option that is not disabled. *)
Definition EnabledValue (p : WheelSelectProps) (v : string) : Prop :=
  exists o, o ∈ options p /\ Opt.value o = v /\ isDisabled o = false.

(** A call the widget may make by itself: any call but an [onChange] with
    a value that is not the value of an enabled option. *)
Definition SafeCall (p : WheelSelectProps) (c : Call) : Prop :=
  match c with
  | PropOnChange v => EnabledValue p v
  | CbOnChange v o => EnabledValue p v
  | _ => True
  end.

(** A call that is no commit: neither [onChange] nor the change
    notification. *)
Definition NoCommit (c : Call) : Prop :=
  match c with
  | PropOnChange _ | CbOnChange _ _ => False
  | _ => True
  end.

(** [st'] has the calls of [st] and after them calls that all satisfy [P]. *)
Definition Extends (P : Call -> Prop) (st st' : State) : Prop :=
  exists new, calls st' = calls st ++ new /\ Forall P new.

(** At most one timer is pending, and the ref holds it. *)
Definition OneTimer (st : State) : Prop :=
  OwnsTimers st /\ (length (pending (timers st)) <= 1)%nat.

(** Case analysis on every test a handler makes, the calls in sight. *)
Ltac call_cases :=
  repeat (cbn [timers scrollTimeoutRef triggerRef selectRef wheelRef itemRefs
               isOpen activeIndex triggerRect initialScrollIndexRef frames calls
               setIsOpen setActiveIndex setTriggerRect setSelectValue setWheel
               setInitialScrollIndex setScrollTimeout setIsScrolling setTimers
               setFrames call];
          match goal with
          | |- context [match ?x with _ => _ end] => destruct x eqn:?
          end).

End Wheel.

(* ===================================================================== *)
(** ** The scan of the items on binary64 numbers *)
(* ===================================================================== *)

(** The page of [Dom] keeps exact measurements, which is what the layout
    equations of centring are stated on.  The numbers a page hands to the
    component are binary64: here is [calculateActiveFromScroll] again, on
    the rectangles [getBoundingClientRect()] returns, every operation
    rounded as the machine rounds it. *)
Module Binary64.

Import Wheel.
Import PrimFloat.

(** The fields of a [DOMRect] the scan reads. *)
Record DOMRect : Type := mkRect { top : float; height : float }.

(** [rect.top + rect.height / 2] *)
Definition centerOf (rect : DOMRect) : float := (top rect + height rect / 2)%float.

(** The body of [itemRefs.current.forEach((item, index) => ..)], on the pair
    [(closestIndex, closestDistance)]; an item is [null] or an element,
    given by its rectangle. *)
Definition visitItem (wheelCenter : float) (acc : Z * float)
    (item : option DOMRect) (index : Z) : Z * float :=
  match item with
  | None => acc
  | Some itemRect =>
      let itemCenter := centerOf itemRect in
      let distance := PrimFloat.abs (itemCenter - wheelCenter) in
      if (distance <? snd acc)%float then (index, distance) else acc
  end.

Fixpoint forEachItem (wheelCenter : float) (items : list (option DOMRect))
    (index : Z) (acc : Z * float) : Z * float :=
  match items with
  | [] => acc
  | item :: rest =>
      forEachItem wheelCenter rest (index + 1)
                  (visitItem wheelCenter acc item index)
  end.

(** [closestIndex] after the scan, from [0] and [Infinity]. *)
Definition closestIndexOf (wheelRect : DOMRect) (items : list (option DOMRect)) : Z :=
  fst (forEachItem (centerOf wheelRect) items 0 (0, PrimFloat.infinity)).

(** [calculateActiveFromScroll], the wheel ([wheelRef.current], [None]
    when it is not on the page) and the items ([itemRefs.current]) given
    by their rectangles. *)
Definition calculateActiveFromScroll (p : WheelSelectProps)
    (wheel : option DOMRect) (items : list (option DOMRect)) (st : State) : State :=
  match wheel with
  | None => st
  | Some wheelRect =>
      let closestIndex := closestIndexOf wheelRect items in
      let st := setActiveIndex closestIndex st in
      match nthZ (options p) closestIndex with
      | Some option =>
          callIf (has p onActiveChange) (CbOnActiveChange closestIndex option) st
      | None => st
      end
  end.

(** *** Words for the statements *)

(** [Math.abs(itemCenter - wheelCenter)], as computed. *)
Definition distanceTo (wheelRect itemRect : DOMRect) : float :=
  PrimFloat.abs (centerOf itemRect - centerOf wheelRect).

(** Item [j] is on the page, with rectangle [rect]. *)
Definition renderedAt (items : list (option DOMRect)) (j : Z) (rect : DOMRect)
  : Prop :=
  nthZ items j = Some (Some rect).

(** A distance below [Infinity]: neither [Infinity] nor [NaN]. *)
Definition finite (x : float) : Prop := (x <? PrimFloat.infinity)%float = true.

(** The rational a finite binary64 number is. *)
Definition valueOf (x : float) : Q :=
  match FloatOps.Prim2SF x with
  | SpecFloat.S754_finite s m e =>
      let n := inject_Z (if s then Z.neg m else Z.pos m) in
      if (0 <=? e)%Z then (n * inject_Z (2 ^ e))%Q
      else (n / inject_Z (2 ^ (- e)))%Q
  | _ => 0%Q
  end.

(** The distance between the two centres, without rounding. *)
Definition exactCenter (rect : DOMRect) : Q :=
  (valueOf (top rect) + valueOf (height rect) / 2)%Q.

Definition exactDistance (wheelRect itemRect : DOMRect) : Q :=
  Qabs (exactCenter itemRect - exactCenter wheelRect).

(** What the scan holds after the items [seen]: [0] and [Infinity] when
    none of them is on the page, and otherwise the index and the distance
    of an item that none is below, every item before it being above. *)
Definition BestSoFar (wheelCenter : float) (seen : list (option DOMRect))
    (acc : Z * float) : Prop :=
  (snd acc = PrimFloat.infinity /\ Forall (fun x => x = None) seen)
  \/ exists rect,
       nthZ seen (fst acc) = Some (Some rect)
       /\ snd acc = PrimFloat.abs (centerOf rect - wheelCenter)
       /\ (forall j rect', nthZ seen j = Some (Some rect') ->
             (PrimFloat.abs (centerOf rect' - wheelCenter) <? snd acc)%float = false)
       /\ (forall j rect', (j < fst acc)%Z -> nthZ seen j = Some (Some rect') ->
             (snd acc <? PrimFloat.abs (centerOf rect' - wheelCenter))%float = true).

(** Two items of a page zoomed to a height of 56 and a twelfth, the
    centre of the wheel between them. *)
Definition zoomedWheel : DOMRect := mkRect 100 320.
Definition zoomedAbove : DOMRect :=
  mkRect 0x1.97d5555555555p+7 0x1.c0aaaaaaaaaabp+5.
Definition zoomedBelow : DOMRect :=
  mkRect 260 0x1.c0aaaaaaaaaabp+5.

End Binary64.

(* ===================================================================== *)
(** ** The legacy component *)
(* ===================================================================== *)

Module Legacy.

Import Config Dom.
Import Wheel.
Open Scope Z_scope.

(** [SelectOption] of [BaseSelectCompat]: a value and a label. *)
Record SelectOption : Type := mkSelectOption {
  value : string;
  label : string }.

Record BaseSelectCompatProps : Type := mkLegacyProps {
  options : list SelectOption;
  selected : string }.

(** [case 'ArrowUp']: [Math.max(0, prev - 1)], then the scroll to it. *)
Definition arrowUp (st : State) : State :=
  let newIndex := Z.max 0 (activeIndex st - 1) in
  setActiveIndex newIndex (scrollItemIntoView newIndex st).

(** [case 'ArrowDown']: [Math.min(options.length - 1, prev + 1)]. *)
Definition arrowDown (p : BaseSelectCompatProps) (st : State) : State :=
  let newIndex := Z.min (lengthZ (options p) - 1) (activeIndex st + 1) in
  setActiveIndex newIndex (scrollItemIntoView newIndex st).

(** [commitSelection]: no look at the options; the picker always closes. *)
Definition commitSelection (newValue : string) (st : State) : State :=
  let st := call (PropOnChange newValue) st in
  let st := match selectRef st with
            | Some _ => setSelectValue newValue st
            | None => st
            end in
  let st := setIsOpen false st in
  focusTrigger st.

(** [closePicker] *)
Definition closePicker (st : State) : State :=
  focusTrigger (setIsOpen false st).

(** [if (options[i]) commitSelection(options[i].value)] *)
Definition handleItemSelect (p : BaseSelectCompatProps) (index : Z) (st : State)
  : State :=
  match nthZ (options p) index with
  | Some o => commitSelection (value o) st
  | None => st
  end.

Definition handlePickerKeyDown (p : BaseSelectCompatProps) (key : string)
    (st : State) : State :=
  if String.eqb key "Escape" then closePicker (call PreventDefault st)
  else if String.eqb key "ArrowUp" then arrowUp (call PreventDefault st)
  else if String.eqb key "ArrowDown" then arrowDown p (call PreventDefault st)
  else if String.eqb key "Enter" then
    handleItemSelect p (activeIndex st) (call PreventDefault st)
  else st.

End Legacy.

(* ===================================================================== *)
(** ** Sample inputs *)
(* ===================================================================== *)

Module Samples.

Import Config Dom Wheel.
Open Scope Z_scope.

Definition opt (v l : string) : WheelSelectOption := mkOption v l None None.
Definition optDisabled (v l : string) : WheelSelectOption :=
  mkOption v l (Some true) None.

(** [planOptions] of the demo application. *)
Definition planOptions : list WheelSelectOption :=
  [ opt "free" "Free"; opt "starter" "Starter"; opt "pro" "Pro";
    optDisabled "enterprise" "Enterprise" ].

(** [[A, B(disabled), C]] *)
Definition abcOptions : list WheelSelectOption :=
  [ opt "a" "A"; optDisabled "b" "B"; opt "c" "C" ].

Definition allCallbacks : WheelSelectCallbacks := mkCallbacks true true true true true.

Definition planProps : WheelSelectProps :=
  mkProps planOptions "pro" false None (Some allCallbacks).

Definition abcProps : WheelSelectProps :=
  mkProps abcOptions "a" false None (Some allCallbacks).

Definition disabledProps : WheelSelectProps :=
  mkProps planOptions "pro" true None (Some allCallbacks).

Definition noTimers : Timers := mkTimers 0 1 [] [].

Definition triggerBox : DOMRect := mkRect 10 20 40.

(** The widget as mounted, closed, the picker not on the page. *)
Definition closedState (p : WheelSelectProps) : State :=
  mkState false (initialActiveIndex p) None (Some triggerBox) (Some (value p))
          None [] None None false noTimers [] [].

(** A wheel 320 high at the top of the page, and [n] items 56 high stacked
    below a spacer of 132. *)
Definition wheelBox : WheelEl := mkWheel (mkRect 0 0 320) 320 0.

Definition itemBox (i : nat) : ItemEl :=
  let y := (132 + 56 * inject_Z (Z.of_nat i))%Q in
  mkItem (mkRect 0 y 56) 56 y.

Definition openState (p : WheelSelectProps) : State :=
  setWheel (Some wheelBox)
           (List.map (fun i => Some (itemBox i)) (seq 0 (length (options p))))
           (openPicker p (closedState p)).

(** An element such as [document.body], as [for (const key in element)]
    sees it: properties holding strings and properties holding objects
    ([style], [dataset], ..). *)
Definition bodyElement : JsVal :=
  JObj {[ "id" := JStr ""; "style" := JObj {[ "cssText" := JStr "" ]} ]}.

(** [behavior={{ portalTarget: document.body }}] *)
Definition portalProps : WheelSelectProps :=
  mkProps planOptions "pro" false
          (Some {[ "portalTarget" := bodyElement ]}) (Some allCallbacks).

(** [behavior={{ keyboardNavigation: false }}] on the options [A, B, C]. *)
Definition keysOffProps : WheelSelectProps :=
  mkProps abcOptions "a" false
          (Some {[ "keyboardNavigation" := JBool false ]}) (Some allCallbacks).

End Samples.

(* ===================================================================== *)
(** ** Arrays: what [findIndex] and [find] return *)
(* ===================================================================== *)

Section Arrays.

Import Wheel.
Open Scope Z_scope.

Context {A : Type}.
Implicit Types (f : A -> bool) (l : list A) (i : Z).

Lemma nthZ_Some l i x :
  nthZ l i = Some x <-> 0 <= i /\ l !! Z.to_nat i = Some x.
Proof.
  unfold nthZ. destruct (Z.ltb_spec i 0); split.
  - discriminate.
  - intros [? _]. lia.
  - auto.
  - intros [_ ?]. assumption.
Qed.

Lemma nthZ_bounds l i x : nthZ l i = Some x -> 0 <= i < lengthZ l.
Proof.
  intros H. apply nthZ_Some in H as [H0 H].
  apply lookup_lt_Some in H. unfold lengthZ. lia.
Qed.

Lemma nthZ_in_bounds l i : 0 <= i < lengthZ l -> exists x, nthZ l i = Some x.
Proof.
  unfold lengthZ. intros H.
  destruct (lookup_lt_is_Some_2 l (Z.to_nat i)) as [x Hx]; [lia|].
  exists x. apply nthZ_Some. split; [lia | assumption].
Qed.

Lemma nthZ_cons_0 l x : nthZ (x :: l) 0 = Some x.
Proof. reflexivity. Qed.

Lemma nthZ_cons_succ l x i : 0 <= i -> nthZ (x :: l) (i + 1) = nthZ l i.
Proof.
  intros H. unfold nthZ.
  destruct (Z.ltb_spec (i + 1) 0); [lia|].
  destruct (Z.ltb_spec i 0); [lia|].
  replace (Z.to_nat (i + 1)) with (S (Z.to_nat i)) by lia. reflexivity.
Qed.

(** What [findIndexFrom] returns, the scan starting at index [k]. *)
Lemma findIndexFrom_spec f l k :
  0 <= k ->
  let r := findIndexFrom f l k in
  (r = -1 /\ forall x, x ∈ l -> f x = false)
  \/ (k <= r < k + lengthZ l
      /\ (exists x, nthZ l (r - k) = Some x /\ f x = true)
      /\ forall j y, 0 <= j < r - k -> nthZ l j = Some y -> f y = false).
Proof.
  revert k. induction l as [|x l IH]; intros k Hk; simpl.
  - left. split; [reflexivity|]. intros x Hx. inversion Hx.
  - destruct (f x) eqn:Hfx.
    + right. unfold lengthZ. simpl length. split; [lia|]. split.
      * exists x. rewrite Z.sub_diag. split; [reflexivity | assumption].
      * intros j y Hj. lia.
    + destruct (IH (k + 1)) as [[Hr Hall] | (Hr & (y & Hy & Hfy) & Hbefore)]; [lia| |].
      * left. split; [assumption|].
        intros z Hz. apply elem_of_cons in Hz as [-> | Hz]; auto.
      * right. unfold lengthZ in *. simpl length. split; [lia|]. split.
        -- exists y. split; [|assumption].
           replace (findIndexFrom f l (k + 1) - k)
             with ((findIndexFrom f l (k + 1) - (k + 1)) + 1) by lia.
           rewrite nthZ_cons_succ by lia. assumption.
        -- intros j z Hj Hz.
           destruct (Z.eq_dec j 0) as [-> | Hne].
           ++ rewrite nthZ_cons_0 in Hz. congruence.
           ++ replace j with ((j - 1) + 1) in Hz by lia.
              rewrite nthZ_cons_succ in Hz by lia.
              apply (Hbefore (j - 1)); [lia | assumption].
Qed.

Lemma findIndex_spec f l :
  let r := findIndex f l in
  (r = -1 /\ forall x, x ∈ l -> f x = false)
  \/ (0 <= r < lengthZ l
      /\ (exists x, nthZ l r = Some x /\ f x = true)
      /\ forall j y, 0 <= j < r -> nthZ l j = Some y -> f y = false).
Proof.
  pose proof (findIndexFrom_spec f l 0 ltac:(lia)) as H. simpl in H.
  unfold findIndex. rewrite Z.sub_0_r in H. exact H.
Qed.

Lemma find_None_iff f l : find f l = None <-> forall x, x ∈ l -> f x = false.
Proof.
  unfold find. split.
  - intros H x Hx. apply list_elem_of_In in Hx.
    exact (List.find_none f l H x Hx).
  - intros H. induction l as [|x l IH]; [reflexivity|]. simpl.
    rewrite (H x) by (left). apply IH. intros y Hy. apply H. now right.
Qed.

End Arrays.

(* ===================================================================== *)
(** ** Opening, committing, the imperative handle *)
(* ===================================================================== *)

Section OpenAndCommit.

Import Config Dom Wheel.
Open Scope Z_scope.

Implicit Types (p : WheelSelectProps) (st : State).

(** C1.  A commit whose value is the value of no option, or whose option
    (the one [find] returns) is disabled, changes nothing: the state after
    is the state before, so no call is made ([onChange], the change
    notification, the close notification), the native select keeps its
    value and the picker stays open or closed as it was. *)
Theorem commitSelection_ignored p newValue st :
  (forall o, o ∈ options p -> Opt.value o <> newValue)
  \/ (exists o, find (hasValue newValue) (options p) = Some o
                /\ isDisabled o = true) ->
  let st' := commitSelection p newValue st in
  st' = st
  /\ calls st' = calls st
  /\ selectRef st' = selectRef st
  /\ isOpen st' = isOpen st.
Proof.
  intros H st'.
  assert (Heq : st' = st).
  { subst st'. unfold commitSelection. destruct H as [Hnone | (o & Hfind & Hdis)].
    - replace (find (hasValue newValue) (options p)) with (@None WheelSelectOption);
        [reflexivity|].
      symmetry. apply find_None_iff. intros o Ho. unfold hasValue.
      apply String.eqb_neq. auto.
    - rewrite Hfind, Hdis. reflexivity. }
  rewrite Heq. auto.
Qed.

Lemma commitSelection_ignored_witness :
  (exists o, find (hasValue "enterprise") (options Samples.planProps) = Some o
             /\ isDisabled o = true)
  /\ commitSelection Samples.planProps "enterprise"
       (Samples.openState Samples.planProps)
     = Samples.openState Samples.planProps.
Proof.
  assert (H : exists o, find (hasValue "enterprise") (options Samples.planProps) = Some o
                        /\ isDisabled o = true).
  { exists (Samples.optDisabled "enterprise" "Enterprise"). split; reflexivity. }
  split; [exact H|].
  exact (proj1 (commitSelection_ignored Samples.planProps "enterprise"
                  (Samples.openState Samples.planProps) (or_intror H))).
Defined.

(** [targetIndexOf] is the index of the first option whose value is the
    external value, and 0 when there is none. *)
Lemma targetIndexOf_spec p :
  ((forall o, o ∈ options p -> Opt.value o <> value p) /\ targetIndexOf p = 0)
  \/ (exists o, nthZ (options p) (targetIndexOf p) = Some o
                /\ Opt.value o = value p
                /\ forall j o', 0 <= j < targetIndexOf p ->
                     nthZ (options p) j = Some o' -> Opt.value o' <> value p).
Proof.
  unfold targetIndexOf.
  destruct (findIndex_spec (hasValue (value p)) (options p))
    as [[Hr Hall] | (Hr & (o & Ho & Hfo) & Hbefore)].
  - left. rewrite Hr. simpl. split; [|reflexivity].
    intros o Ho. apply String.eqb_neq. apply (Hall o Ho).
  - right. destruct (Z.eqb_spec (findIndex (hasValue (value p)) (options p)) (-1));
      [lia|].
    exists o. split; [assumption|]. split.
    + apply String.eqb_eq. exact Hfo.
    + intros j o' Hj Ho'. apply String.eqb_neq. apply (Hbefore j o' Hj Ho').
Qed.

(** C4, as amended.  When the widget is not disabled, [openPicker] sets
    the active index and the initial scroll index to the index of the first
    option whose value is the external value, or to 0 when no option has
    it, sets the open flag and makes one call to the open notification when
    the host gave one; the trigger and the handle's [open] are
    [openPicker], and so is [toggle] while closed. *)
Theorem openPicker_seeds_target p st :
  disabled p = false ->
  let st' := openPicker p st in
  activeIndex st' = targetIndexOf p
  /\ initialScrollIndexRef st' = Some (targetIndexOf p)
  /\ isOpen st' = true
  /\ calls st' = calls st ++ (if has p onOpen then [CbOnOpen] else [])
  /\ (((forall o, o ∈ options p -> Opt.value o <> value p) /\ targetIndexOf p = 0)
      \/ (exists o, nthZ (options p) (targetIndexOf p) = Some o
                    /\ Opt.value o = value p
                    /\ forall j o', 0 <= j < targetIndexOf p ->
                         nthZ (options p) j = Some o' -> Opt.value o' <> value p))
  /\ triggerClick p st = st'
  /\ handle p HOpen st = st'
  /\ (isOpen st = false -> handle p HToggle st = st').
Proof.
  intros Hen st'. subst st'. unfold openPicker. rewrite Hen.
  fold (targetIndexOf p).
  assert (Hcalls : forall s b, calls (callIf b CbOnOpen s)
                               = calls s ++ (if b then [CbOnOpen] else [])).
  { intros s []; simpl; [reflexivity | now rewrite app_nil_r]. }
  repeat split.
  - unfold callIf. destruct (has p onOpen); reflexivity.
  - unfold callIf. destruct (has p onOpen); reflexivity.
  - unfold callIf. destruct (has p onOpen); reflexivity.
  - rewrite Hcalls. destruct (triggerRef st); reflexivity.
  - apply targetIndexOf_spec.
  - unfold triggerClick, openPicker. rewrite Hen. reflexivity.
  - simpl. unfold openPicker. rewrite Hen. reflexivity.
  - intros Hclosed. simpl. rewrite Hclosed. unfold openPicker. rewrite Hen.
    reflexivity.
Qed.

Lemma openPicker_seeds_target_witness :
  disabled Samples.planProps = false
  /\ activeIndex (openPicker Samples.planProps (Samples.closedState Samples.planProps)) = 2
  /\ isOpen (openPicker Samples.planProps (Samples.closedState Samples.planProps)) = true.
Proof.
  split; [reflexivity|].
  pose proof (openPicker_seeds_target Samples.planProps
                (Samples.closedState Samples.planProps) eq_refl) as H.
  split; [exact (proj1 H) | exact (proj1 (proj2 (proj2 H)))].
Defined.

(** C4, as stated, fails on a disabled widget: [open()] on the handle
    leaves the picker closed. *)
Lemma openPicker_always_opens_counterexample :
  ~ (forall p st,
       let st' := handle p HOpen st in
       activeIndex st' = targetIndexOf p
       /\ initialScrollIndexRef st' = Some (targetIndexOf p)
       /\ isOpen st' = true).
Proof.
  intros H.
  specialize (H Samples.disabledProps (Samples.closedState Samples.disabledProps)).
  destruct H as (_ & _ & H). discriminate H.
Qed.

(** C10.  On a disabled widget every way of opening is without effect:
    the trigger's click, [open()] and, while closed, [toggle()] return the
    state they were given, so the open flag, the active index and the
    trigger rectangle are unchanged and no call is made. *)
Theorem openPicker_disabled_noop p st :
  disabled p = true ->
  openPicker p st = st
  /\ triggerClick p st = st
  /\ handle p HOpen st = st
  /\ (isOpen st = false -> handle p HToggle st = st)
  /\ isOpen (openPicker p st) = isOpen st
  /\ activeIndex (openPicker p st) = activeIndex st
  /\ triggerRect (openPicker p st) = triggerRect st
  /\ calls (openPicker p st) = calls st.
Proof.
  intros Hdis.
  assert (H : openPicker p st = st) by (unfold openPicker; now rewrite Hdis).
  repeat split; try (rewrite H; reflexivity); try exact H.
  intros Hclosed. simpl. rewrite Hclosed. exact H.
Qed.

Lemma openPicker_disabled_noop_witness :
  disabled Samples.disabledProps = true
  /\ handle Samples.disabledProps HToggle (Samples.closedState Samples.disabledProps)
     = Samples.closedState Samples.disabledProps.
Proof.
  split; [reflexivity|].
  exact (proj1 (proj2 (proj2 (proj2
           (openPicker_disabled_noop Samples.disabledProps
              (Samples.closedState Samples.disabledProps) eq_refl)))) eq_refl).
Defined.

(** C9.  [scrollToIndex] on the handle keeps the active index, the open
    flag, the native select's value, the refs and the timers; the one call
    it can make is the smooth scroll of the indexed item, when there is
    such an item, so neither [onChange] nor the change notification is
    called. *)
Theorem scrollToIndex_frame p index st :
  let st' := handle p (HScrollToIndex index) st in
  activeIndex st' = activeIndex st
  /\ isOpen st' = isOpen st
  /\ selectRef st' = selectRef st
  /\ initialScrollIndexRef st' = initialScrollIndexRef st
  /\ scrollTimeoutRef st' = scrollTimeoutRef st
  /\ timers st' = timers st
  /\ calls st' = calls st
                 ++ match itemAt st index with
                    | Some _ => [ScrollIntoView index]
                    | None => []
                    end
  /\ (forall v, PropOnChange v ∈ calls st' -> PropOnChange v ∈ calls st)
  /\ (forall v o, CbOnChange v o ∈ calls st' -> CbOnChange v o ∈ calls st).
Proof.
  simpl. unfold scrollToIndex, scrollItemIntoView.
  destruct (itemAt st index) eqn:Hitem; simpl.
  - repeat split; try reflexivity.
    + intros v Hv. apply elem_of_app in Hv as [Hv | Hv]; [assumption|].
      apply list_elem_of_singleton in Hv. discriminate.
    + intros v o Hv. apply elem_of_app in Hv as [Hv | Hv]; [assumption|].
      apply list_elem_of_singleton in Hv. discriminate.
  - rewrite app_nil_r. repeat split; auto.
Qed.

End OpenAndCommit.

(* ===================================================================== *)
(** ** Configuration merge *)
(* ===================================================================== *)

Section ConfigurationMerge.

Import Config.

Implicit Types (target : JsVal) (source result : gmap string JsVal).
Implicit Types (key : string).

(** Some iteration ends as [test] says exactly when [anyField] says so. *)
Lemma anyField_true {A} (test : Outcome A -> bool) (m : gmap string (Outcome A)) :
  anyField test m = true <-> exists key o, m !! key = Some o /\ test o = true.
Proof.
  unfold anyField.
  apply (map_fold_weak_ind
           (fun found (m : gmap string (Outcome A)) =>
              found = true <-> exists key o, m !! key = Some o /\ test o = true)).
  - split; [discriminate|].
    intros (key & o & H & _). rewrite lookup_empty in H. discriminate.
  - intros i x m0 r Hi IH. split.
    + intros H. apply orb_true_iff in H as [H | H].
      * exists i, x. rewrite lookup_insert_eq. auto.
      * apply IH in H as (key & o & Hk & Ho). exists key, o. split; [|exact Ho].
        rewrite lookup_insert_ne; [exact Hk|]. intros ->. congruence.
    + intros (key & o & Hk & Ho). apply orb_true_iff.
      destruct (decide (i = key)) as [-> | Hne].
      * rewrite lookup_insert_eq in Hk. inversion Hk; subst. auto.
      * rewrite lookup_insert_ne in Hk by assumption. right. apply IH. eauto.
Qed.

Lemma anyField_false {A} (test : Outcome A -> bool) (m : gmap string (Outcome A)) :
  anyField test m = false <-> forall key o, m !! key = Some o -> test o = false.
Proof.
  split.
  - intros H key o Hk. destruct (test o) eqn:Ho; [|reflexivity].
    assert (Ht : anyField test m = true) by (apply anyField_true; eauto).
    congruence.
  - intros H. destruct (anyField test m) eqn:Ht; [|reflexivity].
    apply anyField_true in Ht as (key & o & Hk & Ho).
    rewrite (H key o Hk) in Ho. discriminate.
Qed.

(** The iteration of the loop of [mergeDeep] on one key. *)
Lemma iteration_lookup target source key :
  map_imap (fun key f => Some (f key target)) (mergeField <$> source) !! key
  = (fun sv => mergeField sv key target) <$> (source !! key).
Proof.
  rewrite map_lookup_imap, lookup_fmap. destruct (source !! key); reflexivity.
Qed.

(** The nested call of [mergeDeep], as the source writes it. *)
Lemma mergeField_object m key target :
  mergeField (JObj m) key target =
    if String.eqb key "__proto__" then Beyond else
    match readField target key with
    | Returns tv =>
        match mergeDeep tv m with
        | Returns r => Returns (Some (JObj r))
        | Throws => Throws
        | Beyond => Beyond
        end
    | Throws => Throws
    | Beyond => Beyond
    end.
Proof. reflexivity. Qed.

(** [mergeDeep] returns [result] exactly when every iteration of its loop
    returns and leaves in [result] what it assigned, the other keys being
    those of [{ ...target }]. *)
Lemma mergeDeep_returns target source result :
  mergeDeep target source = Returns result
  <-> forall key,
        match source !! key with
        | None => result !! key = spread target !! key
        | Some sv => mergeField sv key target = Returns (result !! key)
        end.
Proof.
  unfold mergeDeep, forIn. cbv zeta.
  set (outcomes := map_imap (fun key f => Some (f key target)) (mergeField <$> source)).
  assert (Hlook : forall key,
            outcomes !! key = (fun sv => mergeField sv key target) <$> (source !! key))
    by (intros key; apply iteration_lookup).
  split.
  - destruct (anyField isBeyond outcomes) eqn:Hb; [discriminate|].
    destruct (anyField isThrows outcomes) eqn:Ht; [discriminate|].
    intros H key. injection H as <-.
    rewrite lookup_merge. specialize (Hlook key).
    pose proof (proj1 (anyField_false _ _) Hb key) as Hb'.
    pose proof (proj1 (anyField_false _ _) Ht key) as Ht'.
    destruct (source !! key) as [sv|]; cbn in Hlook; rewrite Hlook.
    + specialize (Hb' _ Hlook). specialize (Ht' _ Hlook).
      destruct (mergeField sv key target) as [x| |]; try discriminate.
      destruct (spread target !! key); reflexivity.
    + destruct (spread target !! key); reflexivity.
  - intros H.
    assert (Hb : anyField isBeyond outcomes = false).
    { apply anyField_false. intros key o Ho. rewrite Hlook in Ho.
      specialize (H key). destruct (source !! key); [|discriminate].
      cbn in Ho. injection Ho as <-. rewrite H. reflexivity. }
    assert (Ht : anyField isThrows outcomes = false).
    { apply anyField_false. intros key o Ho. rewrite Hlook in Ho.
      specialize (H key). destruct (source !! key); [|discriminate].
      cbn in Ho. injection Ho as <-. rewrite H. reflexivity. }
    rewrite Hb, Ht. f_equal. apply map_eq. intros key.
    rewrite lookup_merge, Hlook. specialize (H key).
    destruct (source !! key) as [sv|]; cbn.
    + rewrite H. destruct (spread target !! key), (result !! key); reflexivity.
    + rewrite H. destruct (spread target !! key); reflexivity.
Qed.

(** An iteration that does not return keeps the whole merge from
    returning. *)
Lemma mergeDeep_stuck target source key sv :
  source !! key = Some sv ->
  (forall x, mergeField sv key target <> Returns x) ->
  forall result, mergeDeep target source <> Returns result.
Proof.
  intros Hs Hx result H. pose proof (proj1 (mergeDeep_returns _ _ _) H key) as Hk.
  rewrite Hs in Hk. exact (Hx _ Hk).
Qed.

(** The merge throws when an iteration throws and none is beyond the
    model. *)
Lemma mergeDeep_throws target source key sv :
  source !! key = Some sv ->
  mergeField sv key target = Throws ->
  (forall key' sv', source !! key' = Some sv' -> mergeField sv' key' target <> Beyond) ->
  mergeDeep target source = Throws.
Proof.
  intros Hs Ht Hb. unfold mergeDeep, forIn. cbv zeta.
  set (outcomes := map_imap (fun key f => Some (f key target)) (mergeField <$> source)).
  assert (Hlook : forall key,
            outcomes !! key = (fun sv => mergeField sv key target) <$> (source !! key))
    by (intros k; apply iteration_lookup).
  assert (H1 : anyField isBeyond outcomes = false).
  { apply anyField_false. intros k o Ho. rewrite Hlook in Ho.
    destruct (source !! k) as [sv'|] eqn:Hk; [|discriminate].
    cbn in Ho. injection Ho as <-. specialize (Hb k sv' Hk).
    destruct (mergeField sv' k target); try reflexivity. congruence. }
  assert (H2 : anyField isThrows outcomes = true).
  { apply anyField_true. exists key, Throws. split; [|reflexivity].
    rewrite Hlook, Hs. cbn. rewrite Ht. reflexivity. }
  rewrite H1, H2. reflexivity.
Qed.

(** Merging nothing onto an object gives the object. *)
Lemma mergeDeep_empty target : mergeDeep target ∅ = Returns (spread target).
Proof.
  apply mergeDeep_returns. intros key. rewrite lookup_empty. reflexivity.
Qed.

(** What a returning merge holds, key by key, read off the loop's body. *)
Lemma mergeDeep_lookup target source result :
  mergeDeep target source = Returns result
  <-> forall key,
        match source !! key with
        | None | Some JUndefined => result !! key = spread target !! key
        | Some (JObj m) =>
            key <> "__proto__"
            /\ exists tv r, readField target key = Returns tv
                            /\ mergeDeep tv m = Returns r
                            /\ result !! key = Some (JObj r)
        | Some v => key <> "__proto__" /\ result !! key = Some v
        end.
Proof.
  rewrite mergeDeep_returns.
  assert (Hplain : forall key v (r : option JsVal),
            (if String.eqb key "__proto__" then Beyond else Returns (Some v))
            = Returns r <-> key <> "__proto__" /\ r = Some v).
  { intros key v r. destruct (String.eqb key "__proto__") eqn:Hk.
    - apply String.eqb_eq in Hk. split; [discriminate|]. intros [Hne _]. contradiction.
    - apply String.eqb_neq in Hk. split.
      + intros H. injection H as <-. auto.
      + intros [_ ->]. reflexivity. }
  split; intros H key; specialize (H key);
    destruct (source !! key) as [sv|]; try exact H; destruct sv as [| | | | | |m];
    cbn [mergeField] in *; try (apply Hplain; exact H).
  - injection H as <-. reflexivity.
  - fold (mergeDeep) in *. change (forIn ?t (mergeField <$> m)) with (mergeDeep t m) in H.
    destruct (String.eqb key "__proto__") eqn:Hk; [discriminate|].
    apply String.eqb_neq in Hk. split; [exact Hk|].
    destruct (readField target key) as [tv| |]; try discriminate.
    destruct (mergeDeep tv m) as [r| |] eqn:Hm; try discriminate.
    injection H as <-. eauto.
  - rewrite H. reflexivity.
  - destruct H as (Hk & tv & r & Hr & Hm & Hres).
    apply String.eqb_neq in Hk. rewrite Hk, Hr.
    change (forIn tv (mergeField <$> m)) with (mergeDeep tv m). rewrite Hm, Hres.
    reflexivity.
Qed.

(** An override without nested objects always merges. *)
Lemma mergeDeep_flat target source :
  (forall key v, source !! key = Some v ->
     isPlainObject v = false /\ (v = JUndefined \/ key <> "__proto__")) ->
  exists result, mergeDeep target source = Returns result.
Proof.
  intros Hflat.
  exists (merge (fun old sv => match sv with
                               | None | Some JUndefined => old
                               | Some v => Some v
                               end) (spread target) source).
  apply mergeDeep_lookup. intros key. rewrite lookup_merge.
  destruct (source !! key) as [v|] eqn:Hs.
  - destruct (Hflat key v Hs) as [Hp Hk].
    destruct v; try discriminate Hp;
      try (destruct (spread target !! key); reflexivity);
      (split; [destruct Hk as [Hk | Hk]; [discriminate Hk | exact Hk]
              | destruct (spread target !! key); reflexivity]).
  - destruct (spread target !! key); reflexivity.
Qed.

(** An object-valued field of the override, itself holding an object,
    under a key where the defaults hold [null], [undefined] or nothing:
    the nested call reads a property of [null] or [undefined], and the
    merge never returns. *)
Lemma mergeDeep_missing_object (defaults : gmap string JsVal) source key m key' m' :
  (defaults !! key = None /\ inherited key = false)
  \/ defaults !! key = Some JNull \/ defaults !! key = Some JUndefined ->
  source !! key = Some (JObj m) ->
  m !! key' = Some (JObj m') ->
  forall result, mergeDeep (JObj defaults) source <> Returns result.
Proof.
  intros Hd Hs Hm. apply (mergeDeep_stuck _ _ key (JObj m) Hs).
  intros x. rewrite mergeField_object.
  destruct (String.eqb key "__proto__"); [discriminate|].
  assert (Hread : exists tv, readField (JObj defaults) key = Returns tv
                             /\ (tv = JUndefined \/ tv = JNull)).
  { cbn [readField]. destruct Hd as [[Hd Hi] | [Hd | Hd]]; rewrite Hd.
    - rewrite Hi. eauto.
    - eauto.
    - eauto. }
  destruct Hread as (tv & -> & Htv).
  destruct (mergeDeep tv m) as [r| |] eqn:Hr; try discriminate.
  exfalso. revert Hr. apply (mergeDeep_stuck _ _ key' (JObj m') Hm).
  intros y. rewrite mergeField_object.
  destruct (String.eqb key' "__proto__"); [discriminate|].
  destruct Htv as [-> | ->]; discriminate.
Qed.

(** C8.  The merge of the behaviour with [{ portalTarget: document.body }],
    which the README documents, throws: the nested call is made with
    [target[key]] as it is, here the default [null], and reads a property
    of it as soon as the element holds an object.  So does every merge
    whose override holds, under a key where the defaults hold [null],
    [undefined] or nothing, an object that holds an object in turn.
    Where the merge returns it is the claim's: key by key the result holds
    the default where the override has no value or [undefined], the merge
    of the two nested objects where the override holds a non-array object,
    and the override's value otherwise, be it falsy; and an override
    without nested objects always merges.  [toCssValue] turns a number
    into its digits followed by [px], returns a string as it is and the
    default for [undefined]. *)
Theorem mergeDeep_toCssValue_spec :
  mergeDeep (JObj defaultBehavior)
    (default ∅ (Wheel.behaviorProp Samples.portalProps)) = Throws
  /\ mergeDeep (JObj ∅)
       {[ "m" := JObj {[ "z" := JObj {[ "w" := JNum 1 ]} ]} ]} = Throws
  /\ (forall (defaults : gmap string JsVal) source key m key' m',
        (defaults !! key = None /\ inherited key = false)
        \/ defaults !! key = Some JNull \/ defaults !! key = Some JUndefined ->
        source !! key = Some (JObj m) ->
        m !! key' = Some (JObj m') ->
        forall result, mergeDeep (JObj defaults) source <> Returns result)
  /\ (forall target source result,
        mergeDeep target source = Returns result
        <-> forall key,
              match source !! key with
              | None | Some JUndefined => result !! key = spread target !! key
              | Some (JObj m) =>
                  key <> "__proto__"
                  /\ exists tv r, readField target key = Returns tv
                                  /\ mergeDeep tv m = Returns r
                                  /\ result !! key = Some (JObj r)
              | Some v => key <> "__proto__" /\ result !! key = Some v
              end)
  /\ (forall target source,
        (forall key v, source !! key = Some v ->
           isPlainObject v = false /\ (v = JUndefined \/ key <> "__proto__")) ->
        exists result, mergeDeep target source = Returns result)
  /\ (forall n d, (Z.abs n <= 2 ^ 53 - 1)%Z ->
        toCssValue (JNum n) d = Returns (JStr (pretty n +:+ "px")))
  /\ (forall s d, toCssValue (JStr s) d = Returns (JStr s))
  /\ (forall d, toCssValue JUndefined d = Returns (JStr d))
  /\ toCssValue (JNum 12) "0" = Returns (JStr "12px")
  /\ toCssValue (JStr "inherit") "0" = Returns (JStr "inherit").
Proof.
  split; [vm_compute; reflexivity|].
  split; [vm_compute; reflexivity|].
  split; [exact mergeDeep_missing_object|].
  split; [exact mergeDeep_lookup|].
  split; [exact mergeDeep_flat|].
  split.
  { intros n d Hn. unfold toCssValue, numberToString.
    destruct (Z.leb_spec (Z.abs n) (2 ^ 53 - 1)) as [_ | Hgt]; [reflexivity | lia]. }
  repeat split; reflexivity.
Qed.

(** The defaults merged with an override of one nested colour and of two
    falsy values: the other colours and the other fields are inherited. *)
Example mergeDeep_theme_override :
  exists merged,
    mergeDeep (JObj defaultTheme)
      {[ "colors" := JObj {[ "text" := JStr "red"; "hoverBg" := JUndefined ]};
         "borderRadius" := JNum 0;
         "colorScheme" := JUndefined ]} = Returns merged
    /\ merged !! "borderRadius" = Some (JNum 0)
    /\ merged !! "colorScheme" = Some (JStr "dark")
    /\ merged !! "font" = defaultTheme !! "font"
    /\ (exists colors, merged !! "colors" = Some (JObj colors)
          /\ colors !! "text" = Some (JStr "red")
          /\ colors !! "hoverBg" = Some (JStr "rgba(255, 255, 255, 0.12)")
          /\ colors !! "focusRing" = Some (JStr "rgba(255, 255, 255, 0.5)")).
Proof.
  eexists. split; [vm_compute; reflexivity|].
  repeat split; try (vm_compute; reflexivity).
  eexists. split; [vm_compute; reflexivity|].
  repeat split; vm_compute; reflexivity.
Qed.

(** The merged behaviour of a widget given no override is the default one:
    the debounce is 50 ms and every switch is on. *)
Lemma behavior_default opts v d cbs :
  let p := Wheel.mkProps opts v d None cbs in
  Wheel.behavior p = defaultBehavior
  /\ Wheel.scrollDebounceMs p = 50%Z
  /\ Wheel.flag p "closeOnSelect" = true
  /\ Wheel.flag p "focusTriggerOnClose" = true
  /\ Wheel.flag p "keyboardNavigation" = true
  /\ Wheel.flag p "closeOnEscape" = true
  /\ Wheel.flag p "closeOnOutsideClick" = true.
Proof.
  assert (H : Wheel.behavior (Wheel.mkProps opts v d None cbs) = defaultBehavior).
  { unfold Wheel.behavior. cbn [Wheel.behaviorProp default].
    rewrite mergeDeep_empty. reflexivity. }
  simpl. unfold Wheel.scrollDebounceMs, Wheel.flag. rewrite H.
  repeat split; reflexivity.
Qed.

End ConfigurationMerge.

(* ===================================================================== *)
(** ** Arrow keys *)
(* ===================================================================== *)

Section ArrowKeys.

Import Config Dom Wheel.
Open Scope Z_scope.

Implicit Types (p : WheelSelectProps) (st : State) (opts : list WheelSelectOption).

(** The two loops, one turn at a time. *)
Lemma skipDisabledDown_unfold opts i :
  skipDisabledDown opts i =
    if (i <? lengthZ opts) && disabledAt opts i
    then skipDisabledDown opts (i + 1) else i.
Proof.
  funelim (skipDisabledDown opts i);
    match goal with H : _ && _ = _ |- _ => rewrite H end; reflexivity.
Qed.

Lemma skipDisabledUp_unfold opts i :
  skipDisabledUp opts i =
    if (i >=? 0) && disabledAt opts i
    then skipDisabledUp opts (i - 1) else i.
Proof.
  funelim (skipDisabledUp opts i);
    match goal with H : _ && _ = _ |- _ => rewrite H end; reflexivity.
Qed.

(** The downward loop stops, at the first index from [i] on that is past
    the end or not disabled. *)
Lemma skipDisabledDown_spec opts i :
  let r := skipDisabledDown opts i in
  i <= r
  /\ (forall k, i <= k < r -> k < lengthZ opts /\ disabledAt opts k = true)
  /\ (r <? lengthZ opts) && disabledAt opts r = false.
Proof.
  funelim (skipDisabledDown opts i); simpl in *.
  - match goal with
    | IH : _ /\ _ /\ _ , Hc : andb _ _ = true |- _ =>
        destruct IH as (Hle & Hin & Hout);
        destruct (andb_prop _ _ Hc) as [Hlt Hdis]; apply Z.ltb_lt in Hlt
    end.
    split; [lia|]. split; [|assumption].
    intros k Hk. destruct (Z.eq_dec k newIndex) as [-> | Hne]; [auto|].
    apply Hin. lia.
  - split; [lia|]. split; [intros k Hk; lia | assumption].
Qed.

(** The upward loop stops, at the first index from [i] down that is below
    0 or not disabled. *)
Lemma skipDisabledUp_spec opts i :
  let r := skipDisabledUp opts i in
  r <= i
  /\ (forall k, r < k <= i -> 0 <= k /\ disabledAt opts k = true)
  /\ (r >=? 0) && disabledAt opts r = false.
Proof.
  funelim (skipDisabledUp opts i); simpl in *.
  - match goal with
    | IH : _ /\ _ /\ _ , Hc : andb _ _ = true |- _ =>
        destruct IH as (Hle & Hin & Hout);
        destruct (andb_prop _ _ Hc) as [Hge Hdis]; apply Z.geb_le in Hge
    end.
    split; [lia|]. split; [|assumption].
    intros k Hk. destruct (Z.eq_dec k newIndex) as [-> | Hne]; [auto|].
    apply Hin. lia.
  - split; [lia|]. split; [intros k Hk; lia | assumption].
Qed.

Lemma arrowDown_activeIndex p st :
  activeIndex (arrowDown p st) =
    let r := skipDisabledDown (options p) (activeIndex st + 1) in
    if r >=? lengthZ (options p) then activeIndex st else r.
Proof.
  unfold arrowDown. simpl.
  destruct (_ >=? _); reflexivity.
Qed.

Lemma arrowUp_activeIndex p st :
  activeIndex (arrowUp p st) =
    let r := skipDisabledUp (options p) (activeIndex st - 1) in
    if r <? 0 then activeIndex st else r.
Proof.
  unfold arrowUp. simpl.
  destruct (_ <? _); reflexivity.
Qed.

(** With keyboard navigation on, the key handler runs the updater of the
    key on the state it was given, two calls later. *)
Lemma handlePickerKeyDown_arrows p st :
  flag p "keyboardNavigation" = true ->
  handlePickerKeyDown p "ArrowDown" st
  = arrowDown p (call PreventDefault (callIf (has p onKeyDown) (CbOnKeyDown "ArrowDown") st))
  /\ handlePickerKeyDown p "ArrowUp" st
     = arrowUp p (call PreventDefault (callIf (has p onKeyDown) (CbOnKeyDown "ArrowUp") st)).
Proof.
  intros H. unfold handlePickerKeyDown. rewrite H. split; reflexivity.
Qed.

Lemma activeIndex_callIf b c st : activeIndex (callIf b c st) = activeIndex st.
Proof. destruct b; reflexivity. Qed.

(** The updaters of the two keys.  From an active index [prev] within
    bounds, the updater of ArrowDown moves to the nearest index after
    [prev] whose option is not disabled and stays at [prev] when there is
    none; the updater of ArrowUp does the same before [prev].  The new
    index is within bounds, and not disabled when it moved. *)
Lemma arrow_updaters_skip_disabled p st :
  0 <= activeIndex st < lengthZ (options p) ->
  let prev := activeIndex st in
  let down := activeIndex (arrowDown p st) in
  let up := activeIndex (arrowUp p st) in
  (* ArrowDown *)
  (forall j, prev < j < lengthZ (options p) ->
     disabledAt (options p) j = false ->
     (forall k, prev < k < j -> disabledAt (options p) k = true) ->
     down = j)
  /\ ((forall j, prev < j < lengthZ (options p) -> disabledAt (options p) j = true) ->
      down = prev)
  /\ 0 <= down < lengthZ (options p)
  /\ (down <> prev -> disabledAt (options p) down = false)
  (* ArrowUp *)
  /\ (forall j, 0 <= j < prev ->
        disabledAt (options p) j = false ->
        (forall k, j < k < prev -> disabledAt (options p) k = true) ->
        up = j)
  /\ ((forall j, 0 <= j < prev -> disabledAt (options p) j = true) ->
      up = prev)
  /\ 0 <= up < lengthZ (options p)
  /\ (up <> prev -> disabledAt (options p) up = false).
Proof.
  intros Hb prev down up. subst down up.
  rewrite arrowDown_activeIndex, arrowUp_activeIndex. fold prev. simpl.
  destruct (skipDisabledDown_spec (options p) (prev + 1)) as (Dle & Din & Dout).
  destruct (skipDisabledUp_spec (options p) (prev - 1)) as (Ule & Uin & Uout).
  simpl in *.
  set (d := skipDisabledDown (options p) (prev + 1)) in *.
  set (u := skipDisabledUp (options p) (prev - 1)) in *.
  set (n := lengthZ (options p)) in *.
  assert (Hd : d <= n).
  { destruct (Z.eq_dec d (prev + 1)); [lia|].
    destruct (Din (d - 1)); lia. }
  assert (Hu : -1 <= u).
  { destruct (Z.eq_dec u (prev - 1)); [lia|].
    destruct (Uin (u + 1)); lia. }
  assert (Hdfree : d < n -> disabledAt (options p) d = false).
  { intros Hlt. apply andb_false_iff in Dout as [Hc | Hc]; [|assumption].
    apply Z.ltb_ge in Hc. lia. }
  assert (Hufree : 0 <= u -> disabledAt (options p) u = false).
  { intros Hge. apply andb_false_iff in Uout as [Hc | Hc]; [|assumption].
    rewrite Z.geb_leb in Hc. apply Z.leb_gt in Hc. lia. }
  repeat split.
  - intros j Hj Hfree Hbefore.
    destruct (Z.geb_spec d n) as [Hge | Hlt].
    + destruct (Din j) as [_ Hdis]; [lia|]. congruence.
    + destruct (Z.lt_trichotomy d j) as [Hlt' | [Heq | Hgt]]; [|assumption|].
      * rewrite Hbefore in Hdfree by lia. discriminate Hdfree. lia.
      * destruct (Din j) as [_ Hdis]; [lia|]. congruence.
  - intros Hall. destruct (Z.geb_spec d n) as [Hge | Hlt]; [reflexivity|].
    rewrite Hall in Hdfree by lia. discriminate Hdfree. lia.
  - destruct (Z.geb_spec d n); lia.
  - destruct (Z.geb_spec d n); lia.
  - destruct (Z.geb_spec d n) as [Hge | Hlt]; [congruence | auto].
  - intros j Hj Hfree Hbefore.
    destruct (Z.ltb_spec u 0) as [Hneg | Hge].
    + destruct (Uin j) as [_ Hdis]; [lia|]. congruence.
    + destruct (Z.lt_trichotomy u j) as [Hlt' | [Heq | Hgt]]; [|assumption|].
      * destruct (Uin j) as [_ Hdis]; [lia|]. congruence.
      * rewrite Hbefore in Hufree by lia. discriminate Hufree. lia.
  - intros Hall. destruct (Z.ltb_spec u 0) as [Hneg | Hge]; [reflexivity|].
    rewrite Hall in Hufree by lia. discriminate Hufree. lia.
  - destruct (Z.ltb_spec u 0); lia.
  - destruct (Z.ltb_spec u 0); lia.
  - destruct (Z.ltb_spec u 0) as [Hneg | Hge]; [congruence | auto].
Qed.

(** With keyboard navigation on, the active index after the key is the
    one its updater computes from the active index before. *)
Lemma handlePickerKeyDown_arrow_index p st :
  flag p "keyboardNavigation" = true ->
  activeIndex (handlePickerKeyDown p "ArrowDown" st) = activeIndex (arrowDown p st)
  /\ activeIndex (handlePickerKeyDown p "ArrowUp" st) = activeIndex (arrowUp p st).
Proof.
  intros H. destruct (handlePickerKeyDown_arrows p st H) as [-> ->].
  rewrite !arrowDown_activeIndex, !arrowUp_activeIndex. simpl.
  rewrite !activeIndex_callIf. split; reflexivity.
Qed.

(** C2, as stated, fails when keyboard navigation is switched off: the
    key handler returns at its first line, and ArrowDown leaves the
    options [[A, B(disabled), C]] at index 0 although C, at index 2, is
    the nearest option after it that is not disabled. *)
Lemma arrow_keys_navigation_off_counterexample :
  ~ (forall p st,
       0 <= activeIndex st < lengthZ (options p) ->
       forall j, activeIndex st < j < lengthZ (options p) ->
         disabledAt (options p) j = false ->
         (forall k, activeIndex st < k < j -> disabledAt (options p) k = true) ->
         activeIndex (handlePickerKeyDown p "ArrowDown" st) = j).
Proof.
  intros H.
  specialize (H Samples.keysOffProps
                (setActiveIndex 0 (Samples.openState Samples.keysOffProps))).
  assert (Hgo : activeIndex
                  (handlePickerKeyDown Samples.keysOffProps "ArrowDown"
                     (setActiveIndex 0 (Samples.openState Samples.keysOffProps)))
                = 2).
  { apply H.
    - vm_compute. split; congruence.
    - vm_compute. split; reflexivity.
    - reflexivity.
    - intros k Hk. assert (k = 1) as -> by (simpl in Hk; lia). reflexivity. }
  vm_compute in Hgo. discriminate Hgo.
Qed.

(** C2, as amended.  With keyboard navigation on, from an active index
    [prev] within bounds, the key handler on ArrowDown moves the active
    index to the nearest index after [prev] whose option is not disabled
    and leaves it at [prev] when there is none; on ArrowUp it does the same
    before [prev].  The new index is within bounds, and not disabled when
    it moved. *)
Theorem arrow_keys_skip_disabled p st :
  flag p "keyboardNavigation" = true ->
  0 <= activeIndex st < lengthZ (options p) ->
  let prev := activeIndex st in
  let down := activeIndex (handlePickerKeyDown p "ArrowDown" st) in
  let up := activeIndex (handlePickerKeyDown p "ArrowUp" st) in
  (* ArrowDown *)
  (forall j, prev < j < lengthZ (options p) ->
     disabledAt (options p) j = false ->
     (forall k, prev < k < j -> disabledAt (options p) k = true) ->
     down = j)
  /\ ((forall j, prev < j < lengthZ (options p) -> disabledAt (options p) j = true) ->
      down = prev)
  /\ 0 <= down < lengthZ (options p)
  /\ (down <> prev -> disabledAt (options p) down = false)
  (* ArrowUp *)
  /\ (forall j, 0 <= j < prev ->
        disabledAt (options p) j = false ->
        (forall k, j < k < prev -> disabledAt (options p) k = true) ->
        up = j)
  /\ ((forall j, 0 <= j < prev -> disabledAt (options p) j = true) ->
      up = prev)
  /\ 0 <= up < lengthZ (options p)
  /\ (up <> prev -> disabledAt (options p) up = false).
Proof.
  intros Hon Hb prev down up. subst down up.
  destruct (handlePickerKeyDown_arrow_index p st Hon) as [-> ->].
  exact (arrow_updaters_skip_disabled p st Hb).
Qed.

(** Options [[A, B(disabled), C]], active index 0, keyboard navigation
    on by default: the key ArrowDown gives 2, and ArrowDown again leaves
    2. *)
Lemma arrow_keys_skip_disabled_witness :
  let p := Samples.abcProps in
  let st0 := setActiveIndex 0 (Samples.openState p) in
  let st1 := handlePickerKeyDown p "ArrowDown" st0 in
  flag p "keyboardNavigation" = true
  /\ 0 <= activeIndex st0 < lengthZ (options p)
  /\ activeIndex st1 = 2
  /\ activeIndex (handlePickerKeyDown p "ArrowDown" st1) = 2.
Proof.
  cbv zeta.
  set (p := Samples.abcProps).
  set (st0 := setActiveIndex 0 (Samples.openState p)).
  assert (Hon : flag p "keyboardNavigation" = true) by (vm_compute; reflexivity).
  assert (Hb : 0 <= activeIndex st0 < lengthZ (options p))
    by (vm_compute; split; congruence).
  assert (H1 : activeIndex (handlePickerKeyDown p "ArrowDown" st0) = 2).
  { apply (proj1 (arrow_keys_skip_disabled p st0 Hon Hb)).
    - vm_compute. split; reflexivity.
    - reflexivity.
    - intros k Hk. assert (k = 1) as -> by (simpl in Hk; lia). reflexivity. }
  split; [exact Hon|]. split; [exact Hb|]. split; [exact H1|].
  set (st1 := handlePickerKeyDown p "ArrowDown" st0) in *.
  assert (Hb1 : 0 <= activeIndex st1 < lengthZ (options p))
    by (rewrite H1; vm_compute; split; congruence).
  transitivity (activeIndex st1); [|exact H1].
  apply (proj1 (proj2 (arrow_keys_skip_disabled p st1 Hon Hb1))).
  intros j Hj. rewrite H1 in Hj. vm_compute in Hj. destruct Hj as [Hj1 Hj2].
  exfalso. change (2 < j) in Hj1. change (j < 3) in Hj2. lia.
Defined.

End ArrowKeys.

(* ===================================================================== *)
(** ** The item closest to the centre *)
(* ===================================================================== *)

Section ClosestItem.

Import Config Dom Wheel.
Open Scope Z_scope.

Implicit Types (p : WheelSelectProps) (st : State) (wheel : WheelEl).
Implicit Types (items seen : list (option ItemEl)) (acc : Z * option Q).

Lemma Qltb_lt a b : Qltb a b = true <-> (a < b)%Q.
Proof.
  unfold Qltb. rewrite negb_true_iff. split.
  - intros H. apply Qnot_le_lt. intros Hle.
    apply Qle_bool_iff in Hle. congruence.
  - intros H. destruct (Qle_bool b a) eqn:E; [|reflexivity].
    apply Qle_bool_iff in E. exfalso. exact (Qlt_not_le _ _ H E).
Qed.

Lemma Qltb_ge a b : Qltb a b = false <-> (b <= a)%Q.
Proof.
  unfold Qltb. rewrite negb_false_iff. apply Qle_bool_iff.
Qed.

Lemma nthZ_snoc {A} (l : list A) (x y : A) j :
  nthZ (l ++ [x]) j = Some y ->
  (j < lengthZ l /\ nthZ l j = Some y) \/ (j = lengthZ l /\ y = x).
Proof.
  intros H. apply nthZ_Some in H as [Hj H].
  apply lookup_snoc_Some in H as [[Hlt H] | [Heq H]].
  - left. split; [unfold lengthZ; lia|]. apply nthZ_Some. auto.
  - right. split; [unfold lengthZ; lia | auto].
Qed.

Lemma nthZ_snoc_last {A} (l : list A) (x : A) :
  nthZ (l ++ [x]) (lengthZ l) = Some x.
Proof.
  apply nthZ_Some. unfold lengthZ. split; [lia|].
  rewrite Nat2Z.id. apply lookup_snoc_Some. right. auto.
Qed.

Lemma nthZ_snoc_before {A} (l : list A) (x y : A) j :
  nthZ l j = Some y -> nthZ (l ++ [x]) j = Some y.
Proof.
  intros H. apply nthZ_Some in H as [Hj H]. apply nthZ_Some.
  split; [assumption|]. apply lookup_snoc_Some. left.
  split; [apply lookup_lt_Some in H; assumption | assumption].
Qed.

(** One visit keeps the invariant of the scan. *)
Lemma visitItem_best c seen acc item :
  BestSoFar c seen acc ->
  BestSoFar c (seen ++ [item]) (visitItem c acc item (lengthZ seen)).
Proof.
  intros HB. unfold visitItem. destruct acc as [i od].
  unfold BestSoFar in HB. cbn [fst snd] in HB.
  destruct item as [it|].
  - cbv zeta. set (dist := Qabs (centerOf (itemRect it) - c)).
    cbn [snd]. destruct od as [d|]; cbn [belowDistance].
    + destruct HB as (best & Hbest & Hd & Hmin & Hfirst).
      destruct (Qltb dist d) eqn:Hlt; unfold BestSoFar; cbn [fst snd].
      * apply Qltb_lt in Hlt.
        exists it. split; [apply nthZ_snoc_last|]. split; [reflexivity|]. split.
        -- intros j it' Hj. apply nthZ_snoc in Hj as [[_ Hj] | [_ Hj]].
           ++ apply Qlt_le_weak. eapply Qlt_le_trans; [exact Hlt|]. eauto.
           ++ inversion Hj. apply Qle_refl.
        -- intros j it' Hlast Hj. apply nthZ_snoc in Hj as [[_ Hj] | [Hj' _]]; [|lia].
           eapply Qlt_le_trans; [exact Hlt|]. eauto.
      * apply Qltb_ge in Hlt.
        exists best. split; [apply nthZ_snoc_before; assumption|].
        split; [assumption|]. split.
        -- intros j it' Hj. apply nthZ_snoc in Hj as [[_ Hj] | [_ Hj]]; [eauto|].
           inversion Hj. exact Hlt.
        -- intros j it' Hlast Hj. apply nthZ_snoc in Hj as [[_ Hj] | [Hj' _]]; [eauto|].
           apply nthZ_bounds in Hbest. lia.
    + unfold BestSoFar. cbn [fst snd].
      exists it. split; [apply nthZ_snoc_last|]. split; [reflexivity|]. split.
      * intros j it' Hj. apply nthZ_snoc in Hj as [[_ Hj] | [_ Hj]].
        -- apply nthZ_Some in Hj as [_ Hj].
           apply list_elem_of_lookup_2 in Hj.
           rewrite Forall_forall in HB. specialize (HB _ Hj). discriminate.
        -- inversion Hj. apply Qle_refl.
      * intros j it' Hlast Hj. apply nthZ_snoc in Hj as [[_ Hj] | [Hj' _]]; [|lia].
        apply nthZ_Some in Hj as [_ Hj].
        apply list_elem_of_lookup_2 in Hj.
        rewrite Forall_forall in HB. specialize (HB _ Hj). discriminate.
  - unfold BestSoFar. cbn [fst snd]. destruct od as [d|].
    + destruct HB as (best & Hbest & Hd & Hmin & Hfirst).
      exists best. split; [apply nthZ_snoc_before; assumption|].
      split; [assumption|]. split.
      * intros j it' Hj. apply nthZ_snoc in Hj as [[_ Hj] | [_ Hj]]; [eauto|].
        discriminate.
      * intros j it' Hlast Hj. apply nthZ_snoc in Hj as [[_ Hj] | [_ Hj]]; [eauto|].
        discriminate.
    + apply Forall_app. split; [assumption|]. constructor; [reflexivity | constructor].
Qed.

(** The whole scan keeps it. *)
Lemma forEachItem_best c items : forall seen acc,
  BestSoFar c seen acc ->
  BestSoFar c (seen ++ items) (forEachItem c items (lengthZ seen) acc).
Proof.
  induction items as [|item items IH]; intros seen acc HB; simpl.
  - rewrite app_nil_r. assumption.
  - replace (seen ++ item :: items) with ((seen ++ [item]) ++ items)
      by (rewrite <- app_assoc; reflexivity).
    replace (lengthZ seen + 1) with (lengthZ (seen ++ [item]))
      by (unfold lengthZ; rewrite length_app; simpl; lia).
    apply IH. apply visitItem_best. assumption.
Qed.

(** The index the scan ends on, when an item is on the page: that of a
    closest item, the first of them. *)
Lemma closestIndexOf_spec wheel items :
  (exists j it, renderedAt items j it) ->
  exists it,
    renderedAt items (closestIndexOf wheel items) it
    /\ (forall j it', renderedAt items j it' ->
          (distanceTo wheel it <= distanceTo wheel it')%Q)
    /\ (forall j it', j < closestIndexOf wheel items -> renderedAt items j it' ->
          (distanceTo wheel it < distanceTo wheel it')%Q).
Proof.
  intros (j0 & it0 & H0). unfold closestIndexOf, renderedAt, distanceTo in *.
  pose proof (forEachItem_best (centerOf (wheelRect wheel)) items [] (0, None)) as HB.
  assert (Hinit : BestSoFar (centerOf (wheelRect wheel))
                    (@nil (option ItemEl)) (0, None))
    by (unfold BestSoFar; cbn [snd]; constructor).
  specialize (HB Hinit). clear Hinit.
  change (lengthZ []) with 0 in HB. rewrite app_nil_l in HB.
  unfold BestSoFar in HB.
  destruct (forEachItem (centerOf (wheelRect wheel)) items 0 (0, None)) as [i [d|]];
    cbn [fst snd] in *.
  - destruct HB as (it & Hit & Hd & Hmin & Hfirst). subst d.
    exists it. auto.
  - apply nthZ_Some in H0 as [_ H0]. apply list_elem_of_lookup_2 in H0.
    rewrite Forall_forall in HB. specialize (HB _ H0). discriminate.
Qed.

(** The demo's plans, just opened and not yet scrolled: the first plan is
    the one at the centre. *)
Example calculateActiveFromScroll_unscrolled :
  activeIndex (calculateActiveFromScroll Samples.planProps
                 (Samples.openState Samples.planProps)) = 0.
Proof. vm_compute. reflexivity. Qed.

End ClosestItem.

(* ===================================================================== *)
(** ** The item closest to the centre, as computed *)
(* ===================================================================== *)

Section ClosestItemBinary64.

Import Wheel Binary64.
Import PrimFloat.
Open Scope Z_scope.

Implicit Types (p : WheelSelectProps) (st : State) (wheelRect rect : DOMRect).
Implicit Types (items seen : list (option DOMRect)) (acc : Z * float).

(** *** The order of binary64 numbers

    [<] and [<=] compare sign, exponent and mantissa in turn, [NaN]
    being below and above nothing. *)

Ltac order_cases :=
  unfold SpecFloat.SFltb, SpecFloat.SFleb, SpecFloat.SFcompare;
  repeat match goal with
         | x : SpecFloat.spec_float |- _ => destruct x
         | b : bool |- _ => destruct b
         end;
  cbn; try discriminate; try reflexivity;
  repeat match goal with
         | |- context [(?x ?= ?y)%Z] => destruct (Z.compare_spec x y)
         | |- context [PosDef.Pos.compare_cont Eq ?x ?y] =>
             change (PosDef.Pos.compare_cont Eq x y) with (Pos.compare x y);
             destruct (Pos.compare_spec x y)
         end;
  cbn; intros; try discriminate; try reflexivity; try lia.

Lemma SFltb_irrefl a : SpecFloat.SFltb a a = false.
Proof. order_cases. Qed.

Lemma SFltb_trans a b c :
  SpecFloat.SFltb a b = true -> SpecFloat.SFltb b c = true ->
  SpecFloat.SFltb a c = true.
Proof. order_cases. Qed.

Lemma SFltb_below a b c :
  SpecFloat.SFltb a b = true -> SpecFloat.SFltb c b = false ->
  SpecFloat.SFltb c (SpecFloat.S754_infinity false) = true ->
  SpecFloat.SFltb a c = true.
Proof. order_cases. Qed.

Lemma SFleb_of_not_ltb a b :
  SpecFloat.SFltb b a = false ->
  SpecFloat.SFltb a (SpecFloat.S754_infinity false) = true ->
  SpecFloat.SFltb b (SpecFloat.S754_infinity false) = true ->
  SpecFloat.SFleb a b = true.
Proof. order_cases. Qed.

Lemma Prim2SF_infinity :
  FloatOps.Prim2SF PrimFloat.infinity = SpecFloat.S754_infinity false.
Proof. reflexivity. Qed.

Lemma ltb_irrefl (x : float) : (x <? x)%float = false.
Proof. rewrite FloatAxioms.ltb_spec. apply SFltb_irrefl. Qed.

Lemma ltb_trans (x y z : float) :
  (x <? y)%float = true -> (y <? z)%float = true -> (x <? z)%float = true.
Proof. rewrite !FloatAxioms.ltb_spec. apply SFltb_trans. Qed.

(** Below [y], hence below whatever finite number is not below [y]. *)
Lemma ltb_below (x y z : float) :
  (x <? y)%float = true -> (z <? y)%float = false -> finite z ->
  (x <? z)%float = true.
Proof.
  unfold finite. rewrite !FloatAxioms.ltb_spec, Prim2SF_infinity.
  apply SFltb_below.
Qed.

Lemma leb_of_not_ltb (x y : float) :
  (y <? x)%float = false -> finite x -> finite y -> (x <=? y)%float = true.
Proof.
  unfold finite. rewrite !FloatAxioms.ltb_spec, FloatAxioms.leb_spec, Prim2SF_infinity.
  apply SFleb_of_not_ltb.
Qed.

(** *** The scan *)

(** One visit keeps the invariant of the scan. *)
Lemma visitItem_best64 c seen acc item :
  (forall rect, item = Some rect -> finite (PrimFloat.abs (centerOf rect - c))) ->
  (forall j rect, nthZ seen j = Some (Some rect) ->
     finite (PrimFloat.abs (centerOf rect - c))) ->
  BestSoFar c seen acc ->
  BestSoFar c (seen ++ [item]) (visitItem c acc item (lengthZ seen)).
Proof.
  intros Hfin Hseen HB. unfold visitItem. destruct acc as [i d].
  unfold BestSoFar in HB. cbn [fst snd] in HB.
  destruct item as [rect|].
  - cbv zeta. specialize (Hfin rect eq_refl).
    set (dist := PrimFloat.abs (centerOf rect - c)) in *. cbn [snd].
    destruct HB as [[Hd Hnone] | (best & Hbest & Hd & Hmin & Hfirst)].
    + subst d. rewrite Hfin. right. cbn [fst snd].
      exists rect. split; [apply nthZ_snoc_last|]. split; [reflexivity|]. split.
      * intros j rect' Hj. apply nthZ_snoc in Hj as [[_ Hj] | [_ Hj]].
        -- apply nthZ_Some in Hj as [_ Hj]. apply list_elem_of_lookup_2 in Hj.
           rewrite Forall_forall in Hnone. specialize (Hnone _ Hj). discriminate.
        -- inversion Hj. apply ltb_irrefl.
      * intros j rect' Hlast Hj. apply nthZ_snoc in Hj as [[_ Hj] | [Hj' _]]; [|lia].
        apply nthZ_Some in Hj as [_ Hj]. apply list_elem_of_lookup_2 in Hj.
        rewrite Forall_forall in Hnone. specialize (Hnone _ Hj). discriminate.
    + destruct (dist <? d)%float eqn:Hlt; right; cbn [fst snd].
      * exists rect. split; [apply nthZ_snoc_last|]. split; [reflexivity|]. split.
        -- intros j rect' Hj. apply nthZ_snoc in Hj as [[_ Hj] | [_ Hj]].
           ++ destruct (PrimFloat.abs (centerOf rect' - c) <? dist)%float eqn:Hc;
                [|reflexivity].
              specialize (Hmin j rect' Hj).
              rewrite (ltb_trans _ _ _ Hc Hlt) in Hmin. discriminate.
           ++ inversion Hj. apply ltb_irrefl.
        -- intros j rect' Hlast Hj. apply nthZ_snoc in Hj as [[_ Hj] | [Hj' _]]; [|lia].
           apply (ltb_below _ d); [exact Hlt | eauto | eauto].
      * exists best. split; [apply nthZ_snoc_before; assumption|].
        split; [assumption|]. split.
        -- intros j rect' Hj. apply nthZ_snoc in Hj as [[_ Hj] | [_ Hj]]; [eauto|].
           inversion Hj. exact Hlt.
        -- intros j rect' Hlast Hj. apply nthZ_snoc in Hj as [[_ Hj] | [Hj' _]]; [eauto|].
           apply nthZ_bounds in Hbest. lia.
  - destruct HB as [[Hd Hnone] | (best & Hbest & Hd & Hmin & Hfirst)].
    + left. split; [exact Hd|].
      apply Forall_app. split; [assumption|]. constructor; [reflexivity | constructor].
    + right. cbn [fst snd].
      exists best. split; [apply nthZ_snoc_before; assumption|].
      split; [assumption|]. split.
      * intros j rect' Hj. apply nthZ_snoc in Hj as [[_ Hj] | [_ Hj]]; [eauto|].
        discriminate.
      * intros j rect' Hlast Hj. apply nthZ_snoc in Hj as [[_ Hj] | [_ Hj]]; [eauto|].
        discriminate.
Qed.

(** The whole scan keeps it. *)
Lemma forEachItem_best64 c items : forall seen acc,
  (forall j rect, nthZ (seen ++ items) j = Some (Some rect) ->
     finite (PrimFloat.abs (centerOf rect - c))) ->
  BestSoFar c seen acc ->
  BestSoFar c (seen ++ items) (forEachItem c items (lengthZ seen) acc).
Proof.
  induction items as [|item items IH]; intros seen acc Hfin HB; simpl.
  - rewrite app_nil_r. assumption.
  - replace (seen ++ item :: items) with ((seen ++ [item]) ++ items) in *
      by (rewrite <- app_assoc; reflexivity).
    replace (lengthZ seen + 1) with (lengthZ (seen ++ [item]))
      by (unfold lengthZ; rewrite length_app; simpl; lia).
    assert (Hpre : forall j y, nthZ (seen ++ [item]) j = Some y ->
                     nthZ ((seen ++ [item]) ++ items) j = Some y).
    { intros j y Hj. apply nthZ_Some in Hj as [Hj0 Hj]. apply nthZ_Some.
      split; [assumption|]. apply lookup_app_l_Some. assumption. }
    apply IH; [assumption|]. apply visitItem_best64; [| |assumption].
    + intros rect ->. apply (Hfin (lengthZ seen)). apply Hpre. apply nthZ_snoc_last.
    + intros j rect Hj. apply (Hfin j). apply Hpre. apply nthZ_snoc_before. assumption.
Qed.

(** The index the scan ends on, when an item is on the page and the
    distances are finite: that of an item no other is closer than, as
    computed, and the first such. *)
Lemma closestIndexOf_spec64 wheelRect items :
  (exists j rect, renderedAt items j rect) ->
  (forall j rect, renderedAt items j rect -> finite (distanceTo wheelRect rect)) ->
  exists rect,
    renderedAt items (closestIndexOf wheelRect items) rect
    /\ (forall j rect', renderedAt items j rect' ->
          (distanceTo wheelRect rect <=? distanceTo wheelRect rect')%float = true)
    /\ (forall j rect', j < closestIndexOf wheelRect items ->
          renderedAt items j rect' ->
          (distanceTo wheelRect rect <? distanceTo wheelRect rect')%float = true).
Proof.
  intros (j0 & rect0 & H0) Hfin. unfold closestIndexOf, renderedAt, distanceTo in *.
  pose proof (forEachItem_best64 (centerOf wheelRect) items []
                (0, PrimFloat.infinity)) as HB.
  change (lengthZ []) with 0 in HB. rewrite app_nil_l in HB.
  specialize (HB Hfin). 
  assert (Hinit : BestSoFar (centerOf wheelRect) (@nil (option DOMRect))
                    (0, PrimFloat.infinity))
    by (left; split; [reflexivity | constructor]).
  specialize (HB Hinit). clear Hinit.
  destruct (forEachItem (centerOf wheelRect) items 0 (0, PrimFloat.infinity))
    as [i d]; cbn [fst snd] in *.
  destruct HB as [[_ Hnone] | (rect & Hrect & Hd & Hmin & Hfirst)].
  - apply nthZ_Some in H0 as [_ H0]. apply list_elem_of_lookup_2 in H0.
    rewrite Forall_forall in Hnone. specialize (Hnone _ H0). discriminate.
  - rewrite Hd in Hmin, Hfirst.
    exists rect. split; [exact Hrect|]. split; [|exact Hfirst].
    intros j rect' Hj. apply leb_of_not_ltb; eauto.
Qed.

(** C5, as stated, fails where rounding makes a tie.  On a page zoomed to
    items 56 and a twelfth high, the item below the centre is closer to
    it than the item above, by 2^-47; the two distances as computed are
    the same number, and the recomputation keeps the item above. *)
Lemma closest_item_rounding_counterexample :
  let items := [Some zoomedAbove; Some zoomedBelow] in
  let st' := calculateActiveFromScroll Samples.planProps (Some zoomedWheel) items
               (Samples.openState Samples.planProps) in
  activeIndex st' = 0
  /\ renderedAt items 1 zoomedBelow
  /\ (exactDistance zoomedWheel zoomedBelow < exactDistance zoomedWheel zoomedAbove)%Q
  /\ distanceTo zoomedWheel zoomedBelow = distanceTo zoomedWheel zoomedAbove.
Proof.
  cbv zeta. split; [vm_compute; reflexivity|]. split; [reflexivity|].
  split; vm_compute; reflexivity.
Qed.

(** C5, as amended.  With the wheel on the page, at least one item
    rendered and the computed distances finite, the recomputation sets the
    active index to the index of a rendered item whose distance to the
    wheel's centre, as computed in binary64 arithmetic, is the least, the
    lowest index among those of equal computed distance; and it calls the
    active-change notification (when the host gave one) with that index
    and its option, when [options] has an option at that index. *)
Theorem calculateActiveFromScroll_closest p st wheelRect items :
  (exists j rect, renderedAt items j rect) ->
  (forall j rect, renderedAt items j rect -> finite (distanceTo wheelRect rect)) ->
  let st' := calculateActiveFromScroll p (Some wheelRect) items st in
  let i := activeIndex st' in
  (exists rect,
     renderedAt items i rect
     /\ (forall j rect', renderedAt items j rect' ->
           (distanceTo wheelRect rect <=? distanceTo wheelRect rect')%float = true)
     /\ (forall j rect', j < i -> renderedAt items j rect' ->
           (distanceTo wheelRect rect <? distanceTo wheelRect rect')%float = true))
  /\ calls st' = calls st
                 ++ match nthZ (options p) i with
                    | Some o => if has p onActiveChange
                                then [CbOnActiveChange i o] else []
                    | None => []
                    end
  /\ isOpen st' = isOpen st.
Proof.
  intros Hsome Hfin st' i.
  assert (Hi : i = closestIndexOf wheelRect items).
  { subst i st'. unfold calculateActiveFromScroll.
    destruct (nthZ (options p) _); [|reflexivity].
    unfold callIf. destruct (has p onActiveChange); reflexivity. }
  split; [rewrite Hi; apply closestIndexOf_spec64; assumption|].
  subst st'. unfold calculateActiveFromScroll in *.
  fold i. rewrite <- Hi.
  destruct (nthZ (options p) i) as [o|]; simpl.
  - unfold callIf. destruct (has p onActiveChange); simpl.
    + split; reflexivity.
    + rewrite app_nil_r. split; reflexivity.
  - rewrite app_nil_r. split; reflexivity.
Qed.

(** The two zoomed items again: the recomputation keeps the item above,
    which no item is below as computed. *)
Lemma calculateActiveFromScroll_closest_witness :
  let items := [Some zoomedAbove; Some zoomedBelow] in
  let st := Samples.openState Samples.planProps in
  let st' := calculateActiveFromScroll Samples.planProps (Some zoomedWheel) items st in
  (exists j rect, renderedAt items j rect)
  /\ (forall j rect, renderedAt items j rect -> finite (distanceTo zoomedWheel rect))
  /\ (exists rect,
        renderedAt items (activeIndex st') rect
        /\ (forall j rect', renderedAt items j rect' ->
              (distanceTo zoomedWheel rect <=? distanceTo zoomedWheel rect')%float = true)
        /\ (forall j rect', j < activeIndex st' -> renderedAt items j rect' ->
              (distanceTo zoomedWheel rect <? distanceTo zoomedWheel rect')%float = true)).
Proof.
  cbv zeta.
  set (items := [Some zoomedAbove; Some zoomedBelow]).
  assert (Hr : exists j rect, renderedAt items j rect).
  { exists 0, zoomedAbove. reflexivity. }
  assert (Hf : forall j rect, renderedAt items j rect ->
                 finite (distanceTo zoomedWheel rect)).
  { intros j rect Hj. unfold renderedAt in Hj. apply nthZ_Some in Hj as [_ Hj].
    destruct (Z.to_nat j) as [|[|n]]; simpl in Hj.
    - inversion Hj. vm_compute. reflexivity.
    - inversion Hj. vm_compute. reflexivity.
    - discriminate. }
  split; [exact Hr|]. split; [exact Hf|].
  exact (proj1 (calculateActiveFromScroll_closest Samples.planProps
                  (Samples.openState Samples.planProps) zoomedWheel items Hr Hf)).
Defined.

End ClosestItemBinary64.

(* ===================================================================== *)
(** ** Centering, then measuring *)
(* ===================================================================== *)

Section CenterThenMeasure.

Import Config Dom Wheel.
Open Scope Z_scope.

Implicit Types (p : WheelSelectProps) (st : State) (wheel : WheelEl).
Implicit Types (items : list ItemEl).

Lemma calculateActiveFromScroll_activeIndex p st wheel :
  wheelRef st = Some wheel ->
  activeIndex (calculateActiveFromScroll p st) = closestIndexOf wheel (itemRefs st).
Proof.
  intros Hw. unfold calculateActiveFromScroll. rewrite Hw.
  destruct (nthZ (options p) _); [|reflexivity].
  unfold callIf. destruct (has p onActiveChange); reflexivity.
Qed.

Lemma nthZ_map {A B} (f : A -> B) (l : list A) i :
  nthZ (List.map f l) i = option_map f (nthZ l i).
Proof.
  unfold nthZ. destruct (i <? 0); [reflexivity|].
  change (List.map f l) with (f <$> l). rewrite list_lookup_fmap.
  destruct (l !! Z.to_nat i); reflexivity.
Qed.

Lemma Stacked_tail a items : Stacked (a :: items) -> Stacked items.
Proof. destruct items; [trivial | intros [_ H]; exact H]. Qed.

(** Below the first item of a stack: every later item starts at or after
    the first one's end. *)
Lemma Stacked_head : forall items a,
  Stacked (a :: items) ->
  Forall (fun it => (0 < itemClientHeight it)%Q) items ->
  forall m b, nthZ items m = Some b ->
    (itemOffsetTop a + itemClientHeight a <= itemOffsetTop b)%Q.
Proof.
  induction items as [|b0 rest IH]; intros a Hst Hpos m b Hb.
  - apply nthZ_bounds in Hb. unfold lengthZ in Hb. simpl in Hb. lia.
  - destruct Hst as [Hab Hst]. inversion Hpos as [|? ? Hb0 Hrest]; subst.
    destruct (Z.eq_dec m 0) as [-> | Hm].
    + rewrite nthZ_cons_0 in Hb. inversion Hb; subst. exact Hab.
    + pose proof (nthZ_bounds _ _ _ Hb) as Hbound.
      replace m with ((m - 1) + 1) in Hb by lia.
      rewrite nthZ_cons_succ in Hb by lia.
      pose proof (IH b0 Hst Hrest (m - 1) b Hb) as Hnext.
      lra.
Qed.

(** In a stack of items of positive height, an item ends before any later
    one starts. *)
Lemma Stacked_ordered : forall items,
  Stacked items ->
  Forall (fun it => (0 < itemClientHeight it)%Q) items ->
  forall j k a b, 0 <= j < k ->
    nthZ items j = Some a -> nthZ items k = Some b ->
    (itemOffsetTop a + itemClientHeight a <= itemOffsetTop b)%Q.
Proof.
  induction items as [|a0 rest IH]; intros Hst Hpos j k a b Hjk Ha Hb.
  - apply nthZ_bounds in Ha. unfold lengthZ in Ha. simpl in Ha. lia.
  - inversion Hpos as [|? ? Ha0 Hrest]; subst.
    replace k with ((k - 1) + 1) in Hb by lia.
    rewrite nthZ_cons_succ in Hb by lia.
    destruct (Z.eq_dec j 0) as [-> | Hj].
    + rewrite nthZ_cons_0 in Ha. inversion Ha; subst.
      exact (Stacked_head rest a Hst Hrest (k - 1) b Hb).
    + replace j with ((j - 1) + 1) in Ha by lia.
      rewrite nthZ_cons_succ in Ha by lia.
      apply (IH (Stacked_tail _ _ Hst) Hrest (j - 1) (k - 1)); [lia | assumption..].
Qed.

(** The state after the open effect and the next frame: the wheel scrolled
    to the target's centring position, the items laid out again. *)
Lemma runFrames_centers st wheel items i target :
  isOpen st = true ->
  initialScrollIndexRef st = Some i ->
  frames st = [] ->
  wheelRef st = Some wheel ->
  itemRefs st = List.map Some items ->
  nthZ items i = Some target ->
  let s := (itemOffsetTop target - wheelClientHeight wheel / 2
            + itemClientHeight target / 2)%Q in
  let st1 := runFrames (scrollOnOpenEffect st) in
  wheelRef st1 = Some (setScrollTop s wheel)
  /\ itemRefs st1 = List.map Some (List.map (placeItem wheel s) items)
  /\ initialScrollIndexRef st1 = None
  /\ frames st1 = [].
Proof.
  intros Hopen Hinit Hframes Hw Hitems Htarget s st1.
  subst st1. unfold scrollOnOpenEffect. rewrite Hopen, Hinit, Hframes.
  unfold runFrames. cbn [frames setFrames app fold_left].
  unfold centerOnFrame, itemAt.
  cbn [wheelRef itemRefs setFrames setInitialScrollIndex].
  rewrite Hw, Hitems, nthZ_map, Htarget. cbn [option_map].
  fold s. unfold assignScrollTop.
  cbn [wheelRef itemRefs setFrames setInitialScrollIndex].
  rewrite Hw, Hitems.
  cbn [wheelRef itemRefs setWheel initialScrollIndexRef frames
       setFrames setInitialScrollIndex].
  repeat split; try reflexivity.
  rewrite !List.map_map. reflexivity.
Qed.

(** C3.  The picker open on a page where the wheel and its items have no
    border, the items of positive height stacked one below the other, one
    per option: once the open effect and its frame have set the scroll
    position to [itemTop - wheelHeight / 2 + itemHeight / 2] for the
    target index [i], the recomputation gives [i] as the active index. *)
Theorem center_then_measure p st wheel items i :
  isOpen st = true ->
  initialScrollIndexRef st = Some i ->
  frames st = [] ->
  wheelRef st = Some wheel ->
  itemRefs st = List.map Some items ->
  lengthZ items = lengthZ (options p) ->
  0 <= i < lengthZ (options p) ->
  Borderless wheel items ->
  Stacked items ->
  let st1 := runFrames (scrollOnOpenEffect st) in
  (exists target wheel1,
     nthZ items i = Some target
     /\ wheelRef st1 = Some wheel1
     /\ wheelScrollTop wheel1
        = (itemOffsetTop target - wheelClientHeight wheel / 2
           + itemClientHeight target / 2)%Q)
  /\ activeIndex (calculateActiveFromScroll p st1) = i.
Proof.
  intros Hopen Hinit Hframes Hw Hitems Hlen Hi [Hwh Hall] Hst st1.
  destruct (nthZ_in_bounds items i ltac:(lia)) as [target Htarget].
  destruct (runFrames_centers st wheel items i target
              Hopen Hinit Hframes Hw Hitems Htarget) as (Hw1 & Hitems1 & _ & _).
  fold st1 in Hw1, Hitems1.
  set (s := (itemOffsetTop target - wheelClientHeight wheel / 2
             + itemClientHeight target / 2)%Q) in *.
  split.
  { exists target, (setScrollTop s wheel). auto. }
  rewrite (calculateActiveFromScroll_activeIndex p st1 _ Hw1), Hitems1.
  set (placed := List.map (placeItem wheel s) items).
  assert (Hpos : Forall (fun it => (0 < itemClientHeight it)%Q) items).
  { eapply Forall_impl; [exact Hall|]. intros it [_ H]. exact H. }
  assert (Hrend : forall j it', renderedAt (List.map Some placed) j it' ->
            exists x, nthZ items j = Some x /\ it' = placeItem wheel s x).
  { intros j it' Hj. unfold renderedAt, placed in Hj.
    rewrite !nthZ_map in Hj. destruct (nthZ items j) as [x|]; [|discriminate].
    exists x. split; [reflexivity|]. cbn [option_map] in Hj. congruence. }
  assert (Htr : renderedAt (List.map Some placed) i (placeItem wheel s target)).
  { unfold renderedAt, placed. rewrite !nthZ_map, Htarget. reflexivity. }
  destruct (closestIndexOf_spec (setScrollTop s wheel) (List.map Some placed))
    as (it & Hit & Hmin & _); [eauto|].
  set (r := closestIndexOf (setScrollTop s wheel) (List.map Some placed)) in *.
  destruct (Hrend r it Hit) as (x & Hx & ->).
  specialize (Hmin i _ Htr).
  assert (Htq : (height (itemRect target) == itemClientHeight target)%Q).
  { apply nthZ_Some in Htarget as [_ Hl]. apply list_elem_of_lookup_2 in Hl.
    rewrite Forall_forall in Hall. apply (Hall _ Hl). }
  assert (Hxq : (height (itemRect x) == itemClientHeight x)%Q).
  { apply nthZ_Some in Hx as [_ Hl]. apply list_elem_of_lookup_2 in Hl.
    rewrite Forall_forall in Hall. apply (Hall _ Hl). }
  assert (Hxpos : (0 < itemClientHeight x)%Q).
  { apply nthZ_Some in Hx as [_ Hl]. apply list_elem_of_lookup_2 in Hl.
    rewrite Forall_forall in Hpos. apply (Hpos _ Hl). }
  assert (Htpos : (0 < itemClientHeight target)%Q).
  { apply nthZ_Some in Htarget as [_ Hl]. apply list_elem_of_lookup_2 in Hl.
    rewrite Forall_forall in Hpos. apply (Hpos _ Hl). }
  unfold distanceTo, centerOf, placeItem, setScrollTop in Hmin.
  cbn [itemRect wheelRect top height] in Hmin.
  assert (Hzero : (Qabs (top (wheelRect wheel) + itemOffsetTop target - s
                         + height (itemRect target) / 2
                         - (top (wheelRect wheel) + height (wheelRect wheel) / 2))
                   <= 0)%Q).
  { apply Qabs_Qle_condition. subst s. halves. split; lra. }
  pose proof (Qle_trans _ _ _ Hmin Hzero) as Hr.
  apply Qabs_Qle_condition in Hr. destruct Hr as [Hr1 Hr2].
  subst s. halves.
  destruct (Z.lt_trichotomy r i) as [Hlt | [Heq | Hgt]]; [|exact Heq|].
  - pose proof (nthZ_bounds _ _ _ Hx) as Hrb.
    pose proof (Stacked_ordered items Hst Hpos r i x target ltac:(lia) Hx Htarget).
    exfalso. lra.
  - pose proof (nthZ_bounds _ _ _ Htarget) as Hib.
    pose proof (Stacked_ordered items Hst Hpos i r target x ltac:(lia) Htarget Hx).
    exfalso. lra.
Qed.

(** The demo's plans opened on "pro": the frame scrolls the wheel by 112
    and the recomputation finds index 2. *)
Example center_then_measure_plans :
  let st1 := runFrames (scrollOnOpenEffect (Samples.openState Samples.planProps)) in
  option_map wheelScrollTop (wheelRef st1) = Some (132 + 56 * 2 - 320 / 2 + 56 / 2)%Q
  /\ activeIndex (calculateActiveFromScroll Samples.planProps st1) = 2.
Proof. split; vm_compute; reflexivity. Qed.

Lemma center_then_measure_witness :
  let st := Samples.openState Samples.planProps in
  let items := List.map Samples.itemBox (seq 0 4) in
  isOpen st = true
  /\ initialScrollIndexRef st = Some 2
  /\ frames st = []
  /\ wheelRef st = Some Samples.wheelBox
  /\ itemRefs st = List.map Some items
  /\ Borderless Samples.wheelBox items
  /\ Stacked items
  /\ activeIndex (calculateActiveFromScroll Samples.planProps
                    (runFrames (scrollOnOpenEffect st))) = 2.
Proof.
  set (st := Samples.openState Samples.planProps).
  set (items := List.map Samples.itemBox (seq 0 4)).
  assert (H1 : isOpen st = true) by reflexivity.
  assert (H2 : initialScrollIndexRef st = Some 2) by reflexivity.
  assert (H3 : frames st = []) by reflexivity.
  assert (H4 : wheelRef st = Some Samples.wheelBox) by reflexivity.
  assert (H5 : itemRefs st = List.map Some items) by reflexivity.
  assert (H6 : Borderless Samples.wheelBox items).
  { split; [reflexivity|].
    repeat (constructor; [split; reflexivity|]). constructor. }
  assert (H7 : Stacked items).
  { repeat split; vm_compute; discriminate. }
  repeat (split; [assumption|]).
  exact (proj2 (center_then_measure Samples.planProps st Samples.wheelBox items 2
                  H1 H2 H3 H4 H5 eq_refl ltac:(vm_compute; split; [discriminate | reflexivity])
                  H6 H7)).
Defined.

End CenterThenMeasure.

(* ===================================================================== *)
(** ** The debounce timer *)
(* ===================================================================== *)

Section Debounce.

Import Config Dom Wheel.
Open Scope Z_scope.

Implicit Types (p : WheelSelectProps) (st : State) (x : Timer).

(** What the handlers that set no timer leave alone. *)
Lemma assignScrollTop_frame s st :
  timers (assignScrollTop s st) = timers st
  /\ scrollTimeoutRef (assignScrollTop s st) = scrollTimeoutRef st
  /\ activeIndex (assignScrollTop s st) = activeIndex st
  /\ calls (assignScrollTop s st) = calls st
  /\ wheelRef (assignScrollTop s st) = option_map (setScrollTop s) (wheelRef st).
Proof.
  unfold assignScrollTop. destruct (wheelRef st) eqn:Hw; cbn; rewrite ?Hw; auto.
Qed.

Lemma calculateActiveFromScroll_frame p st :
  let st' := calculateActiveFromScroll p st in
  timers st' = timers st
  /\ scrollTimeoutRef st' = scrollTimeoutRef st
  /\ wheelRef st' = wheelRef st
  /\ itemRefs st' = itemRefs st
  /\ isOpen st' = isOpen st.
Proof.
  unfold calculateActiveFromScroll. destruct (wheelRef st) eqn:Hw; cbn; [|auto].
  destruct (nthZ (options p) _); cbn; [|auto].
  unfold callIf. destruct (has p onActiveChange); cbn; auto.
Qed.

(** The recomputation reads the wheel, the items and the options only. *)
Lemma calculateActiveFromScroll_reads p st st0 :
  wheelRef st = wheelRef st0 ->
  itemRefs st = itemRefs st0 ->
  activeIndex (calculateActiveFromScroll p st) = (
    match wheelRef st0 with
    | Some _ => activeIndex (calculateActiveFromScroll p st0)
    | None => activeIndex st
    end).
Proof.
  intros Hw Hi. unfold calculateActiveFromScroll. rewrite Hw, Hi.
  destruct (wheelRef st0); [|reflexivity]. cbn.
  destruct (nthZ (options p) _); cbn; [|reflexivity].
  unfold callIf. destruct (has p onActiveChange); reflexivity.
Qed.

(** A scroll event: the timer the ref holds leaves the queue, a new one
    joins it, asked for [scrollDebounceMs] from now, and the ref holds it. *)
Lemma handleScroll_timers p st :
  let tm := timers st in
  let kept := match scrollTimeoutRef st with
              | Some id => List.filter (fun t => negb (Pos.eqb (timerId t) id)) (pending tm)
              | None => pending tm
              end in
  let x := mkTimer (nextId tm) (scrollDebounceMs p)
                   (now tm + Z.max 0 (scrollDebounceMs p)) in
  pending (timers (handleScroll p st)) = kept ++ [x]
  /\ scrollTimeoutRef (handleScroll p st) = Some (timerId x)
  /\ now (timers (handleScroll p st)) = now tm
  /\ fired (timers (handleScroll p st)) = fired tm
  /\ wheelRef (handleScroll p st) = wheelRef st
  /\ itemRefs (handleScroll p st) = itemRefs st
  /\ activeIndex (handleScroll p st) = activeIndex st
  /\ calls (handleScroll p st) = calls st.
Proof.
  unfold handleScroll. destruct (scrollTimeoutRef st) eqn:Href; cbn;
    rewrite ?Href; cbn; repeat split; reflexivity.
Qed.

(** No timer is due: time passes and nothing else happens. *)
Lemma advanceTo_idle p t st :
  nextDue t (pending (timers st)) = None ->
  advanceTo p t st = setTimers (setClock t (timers st)) st.
Proof.
  intros H. unfold advanceTo.
  destruct (length (pending (timers st))); cbn [runTimers]; [reflexivity|].
  rewrite H. reflexivity.
Qed.

Lemma filter_self_timer x :
  List.filter (fun t => negb (Pos.eqb (timerId t) (timerId x))) [x] = [].
Proof. cbn. rewrite Pos.eqb_refl. reflexivity. Qed.

(** The first scroll event of a burst, no timer pending before it. *)
Lemma scrollEvent_from_idle p gap s st :
  pending (timers st) = [] ->
  let st' := scrollEvent p gap s st in
  (exists x, Armed p st' x)
  /\ fired (timers st') = fired (timers st)
  /\ wheelRef st' = option_map (setScrollTop s) (wheelRef st).
Proof.
  intros Hidle st'. subst st'. unfold scrollEvent.
  rewrite advanceTo_idle by (rewrite Hidle; reflexivity).
  set (st1 := assignScrollTop s _).
  destruct (assignScrollTop_frame s
              (setTimers (setClock (now (timers st) + gap) (timers st)) st))
    as (Ht & Hr & _ & _ & Hw). fold st1 in Ht, Hr, Hw.
  destruct (handleScroll_timers p st1) as (Hp & Href & Hnow & Hf & Hw' & _).
  cbn zeta in *.
  assert (Hkept : pending (timers st1) = []) by (rewrite Ht; exact Hidle).
  rewrite Hkept in Hp.
  assert (Hp' : pending (timers (handleScroll p st1))
                = [mkTimer (nextId (timers st1)) (scrollDebounceMs p)
                     (now (timers st1) + Z.max 0 (scrollDebounceMs p))]).
  { rewrite Hp. destruct (scrollTimeoutRef st1); reflexivity. }
  split; [|split].
  - eexists. unfold Armed. rewrite Hp', Href, Hnow. repeat split; reflexivity.
  - rewrite Hf, Ht. reflexivity.
  - rewrite Hw', Hw. reflexivity.
Qed.

(** A later scroll event, sooner after the last than the debounce delay:
    the pending timer is replaced before it is due. *)
Lemma scrollEvent_rearms p gap s st x :
  Armed p st x ->
  0 <= gap < scrollDebounceMs p ->
  let st' := scrollEvent p gap s st in
  (exists x', Armed p st' x')
  /\ fired (timers st') = fired (timers st)
  /\ wheelRef st' = option_map (setScrollTop s) (wheelRef st).
Proof.
  intros (Hpend & Hrefx & Hreq & Hdl) Hgap st'. subst st'. unfold scrollEvent.
  rewrite advanceTo_idle.
  2:{ rewrite Hpend. cbn [nextDue].
      destruct (Z.leb_spec (deadline x) (now (timers st) + gap)); [lia | reflexivity]. }
  set (st1 := assignScrollTop s _).
  destruct (assignScrollTop_frame s
              (setTimers (setClock (now (timers st) + gap) (timers st)) st))
    as (Ht & Hr & _ & _ & Hw). fold st1 in Ht, Hr, Hw.
  destruct (handleScroll_timers p st1) as (Hp & Href & Hnow & Hf & Hw' & _).
  cbn zeta in *.
  assert (Hp' : pending (timers (handleScroll p st1))
                = [mkTimer (nextId (timers st1)) (scrollDebounceMs p)
                     (now (timers st1) + Z.max 0 (scrollDebounceMs p))]).
  { rewrite Hp, Hr. cbn [scrollTimeoutRef setTimers]. rewrite Hrefx, Ht.
    cbn [pending setClock timers setTimers]. rewrite Hpend, filter_self_timer.
    reflexivity. }
  split; [|split].
  - eexists. unfold Armed. rewrite Hp', Href, Hnow. repeat split; reflexivity.
  - rewrite Hf, Ht. reflexivity.
  - rewrite Hw', Hw. reflexivity.
Qed.

Lemma setScrollTop_twice s s' (w : option WheelEl) :
  option_map (setScrollTop s') (option_map (setScrollTop s) w)
  = option_map (setScrollTop s') w.
Proof. destruct w; reflexivity. Qed.

(** The rest of a burst: still one timer pending, none run, the wheel at
    the last position. *)
Lemma scrollEvents_rearm p : forall rest st x s,
  Armed p st x ->
  wheelRef st = option_map (setScrollTop s) (wheelRef st) ->
  Forall (fun e => 0 <= fst e < scrollDebounceMs p) rest ->
  let st' := scrollEvents p rest st in
  (exists x', Armed p st' x')
  /\ fired (timers st') = fired (timers st)
  /\ wheelRef st'
     = option_map (setScrollTop (snd (List.last rest (0, s)))) (wheelRef st).
Proof.
  induction rest as [|[gap s1] rest IH]; intros st x s HA Hws Hgaps; cbn zeta.
  - cbn. eauto.
  - inversion Hgaps as [|? ? Hgap Hrest]; subst. cbn [fst] in Hgap.
    cbn [scrollEvents].
    destruct (scrollEvent_rearms p gap s1 st x HA Hgap) as ((x1 & HA1) & Hf1 & Hw1).
    cbn zeta in *.
    assert (Hws1 : wheelRef (scrollEvent p gap s1 st)
                   = option_map (setScrollTop s1) (wheelRef (scrollEvent p gap s1 st))).
    { rewrite Hw1, setScrollTop_twice. reflexivity. }
    destruct (IH _ x1 s1 HA1 Hws1 Hrest) as (HA' & Hf' & Hw').
    split; [exact HA'|]. split; [congruence|].
    rewrite Hw', Hw1, setScrollTop_twice.
    destruct rest as [|e rest']; [reflexivity|].
    replace (List.last (e :: rest') (0, s1))
      with (List.last ((gap, s1) :: e :: rest') (0, s)); [reflexivity|].
    cbn [List.last]. clear. revert e. induction rest' as [|e' r IHr]; intros e.
    + reflexivity.
    + cbn [List.last] in *. apply IHr.
Qed.

(** When the pending timer comes due it runs, once: the recomputation
    happens at its deadline and the queue is empty after. *)
Lemma settle_armed p st x :
  Armed p st x ->
  let st' := settle p st in
  fired (timers st') = fired (timers st) ++ [(timerId x, deadline x)]
  /\ pending (timers st') = []
  /\ activeIndex st' = match wheelRef st with
                       | Some _ => activeIndex (calculateActiveFromScroll p st)
                       | None => activeIndex st
                       end
  /\ wheelRef st' = wheelRef st
  /\ isScrollingRef st' = false.
Proof.
  intros (Hpend & Hrefx & Hreq & Hdl) st'. subst st'.
  assert (Hlast : lastDeadline st = deadline x).
  { unfold lastDeadline. rewrite Hpend. cbn. lia. }
  unfold settle, advanceTo. rewrite Hlast, Hpend. cbn [length runTimers].
  rewrite Hpend. cbn [nextDue]. rewrite Z.leb_refl.
  set (st1 := setTimers (takeTimer x (timers st)) st).
  destruct (calculateActiveFromScroll_frame p (setIsScrolling false st1))
    as (Ht & Hr & Hw & Hi & _). cbn zeta in Ht, Hr, Hw, Hi.
  unfold scrollSettled.
  cbn [timers setTimers pending fired setClock wheelRef activeIndex isScrollingRef].
  rewrite Ht. cbn [timers setIsScrolling setTimers st1 takeTimer pending fired].
  rewrite Hpend, filter_self_timer.
  replace (Z.max (now (timers st)) (deadline x)) with (deadline x) by lia.
  split; [reflexivity|]. split; [reflexivity|]. split; [|split].
  - rewrite (calculateActiveFromScroll_reads p (setIsScrolling false st1) st);
      reflexivity.
  - rewrite Hw. reflexivity.
  - unfold calculateActiveFromScroll.
    cbn [wheelRef setIsScrolling st1 setTimers].
    destruct (wheelRef st); [|reflexivity]. cbn.
    destruct (nthZ (options p) _); [|reflexivity].
    unfold callIf. destruct (has p onActiveChange); reflexivity.
Qed.

Lemma last_position_default (rest : list (Z * Q)) gap0 s0 :
  snd (List.last rest (0, s0)) = lastPosition (gap0, s0) rest.
Proof.
  unfold lastPosition. destruct rest as [|e rest]; [reflexivity|].
  revert e. induction rest as [|e' r IH]; intros e; [reflexivity|].
  cbn [List.last] in *. apply IH.
Qed.

(** C6.  A burst of scroll events, no timer pending before it, each event
    after the first sooner after its predecessor than the debounce delay:
    every event takes the timer of the event before out of the queue and
    sets a new one, asked for [scrollDebounceMs]; after the burst one timer
    is pending, that of the last event, and none has run; left to settle,
    exactly one timer runs, that one, [scrollDebounceMs] after the last
    event, and the active index it computes is the one the recomputation
    gives on the page as the last event left it.  With no override the
    delay is 50. *)
Theorem scroll_burst_settles_once p st gap0 s0 rest :
  pending (timers st) = [] ->
  Forall (fun e => 0 <= fst e < scrollDebounceMs p) rest ->
  let st1 := scrollEvents p ((gap0, s0) :: rest) st in
  let st2 := settle p st1 in
  (exists x,
     Armed p st1 x
     /\ fired (timers st1) = fired (timers st)
     /\ wheelRef st1
        = option_map (setScrollTop (lastPosition (gap0, s0) rest)) (wheelRef st)
     /\ fired (timers st2)
        = fired (timers st)
          ++ [(timerId x, now (timers st1) + Z.max 0 (scrollDebounceMs p))]
     /\ pending (timers st2) = []
     /\ activeIndex st2 = match wheelRef st1 with
                          | Some _ => activeIndex (calculateActiveFromScroll p st1)
                          | None => activeIndex st1
                          end)
  /\ (forall st0 : State,
        let tm := timers st0 in
        let x := mkTimer (nextId tm) (scrollDebounceMs p)
                         (now tm + Z.max 0 (scrollDebounceMs p)) in
        pending (timers (handleScroll p st0))
        = match scrollTimeoutRef st0 with
          | Some id => List.filter (fun t => negb (Pos.eqb (timerId t) id)) (pending tm)
          | None => pending tm
          end ++ [x]
        /\ scrollTimeoutRef (handleScroll p st0) = Some (timerId x))
  /\ (behaviorProp p = None -> scrollDebounceMs p = 50).
Proof.
  intros Hidle Hgaps st1 st2.
  split; [|split].
  - subst st2 st1. cbn [scrollEvents].
    destruct (scrollEvent_from_idle p gap0 s0 st Hidle) as ((x0 & HA0) & Hf0 & Hw0).
    cbn zeta in *.
    assert (Hws : wheelRef (scrollEvent p gap0 s0 st)
                  = option_map (setScrollTop s0) (wheelRef (scrollEvent p gap0 s0 st))).
    { rewrite Hw0, setScrollTop_twice. reflexivity. }
    destruct (scrollEvents_rearm p rest _ x0 s0 HA0 Hws Hgaps)
      as ((x & HA) & Hf & Hw). cbn zeta in *.
    destruct (settle_armed p _ x HA) as (Hf2 & Hp2 & Ha2 & _). cbn zeta in *.
    exists x. split; [exact HA|]. split; [congruence|]. split.
    { rewrite Hw, Hw0, setScrollTop_twice, (last_position_default rest gap0 s0).
      reflexivity. }
    split.
    { rewrite Hf2, Hf, Hf0. destruct HA as (_ & _ & _ & ->). reflexivity. }
    split; assumption.
  - intros st0. destruct (handleScroll_timers p st0) as (Hp & Href & _).
    split; assumption.
  - intros Hnone. destruct p as [opts v d bp cbs]. cbn in Hnone. subst bp.
    apply (behavior_default opts v d cbs).
Qed.

(** Three scroll events 20 and 30 ms apart on the demo's plans, ending at
    position 112: one timer runs, the third, 50 ms after the last event,
    and the active index becomes 2. *)
Example scroll_burst_plans :
  let st := Samples.openState Samples.planProps in
  let st2 := settle Samples.planProps
               (scrollEvents Samples.planProps [(0, 10%Q); (20, 60%Q); (30, 112%Q)] st) in
  fired (timers st2) = [(3%positive, 100)]
  /\ pending (timers st2) = []
  /\ activeIndex st2 = 2.
Proof. repeat split; vm_compute; reflexivity. Qed.

Lemma scroll_burst_settles_once_witness :
  let p := Samples.planProps in
  let st := Samples.openState p in
  let rest := [(20, 60%Q); (30, 112%Q)] in
  let st1 := scrollEvents p ((0, 10%Q) :: rest) st in
  let st2 := settle p st1 in
  pending (timers st) = []
  /\ Forall (fun e => 0 <= fst e < scrollDebounceMs p) rest
  /\ exists x,
       Armed p st1 x
       /\ fired (timers st1) = fired (timers st)
       /\ wheelRef st1
          = option_map (setScrollTop (lastPosition (0, 10%Q) rest)) (wheelRef st)
       /\ fired (timers st2)
          = fired (timers st)
            ++ [(timerId x, now (timers st1) + Z.max 0 (scrollDebounceMs p))]
       /\ pending (timers st2) = []
       /\ activeIndex st2 = match wheelRef st1 with
                            | Some _ => activeIndex (calculateActiveFromScroll p st1)
                            | None => activeIndex st1
                            end.
Proof.
  cbv zeta.
  assert (H1 : pending (timers (Samples.openState Samples.planProps)) = [])
    by reflexivity.
  assert (H2 : Forall (fun e => 0 <= fst e < scrollDebounceMs Samples.planProps)
                 [(20, 60%Q); (30, 112%Q)]).
  { repeat constructor; vm_compute; discriminate. }
  split; [exact H1|]. split; [exact H2|].
  exact (proj1 (scroll_burst_settles_once Samples.planProps
                  (Samples.openState Samples.planProps) 0 10%Q
                  [(20, 60%Q); (30, 112%Q)] H1 H2)).
Defined.

(** What [closePicker] leaves alone: the timers among the rest. *)
Lemma closePicker_frame p st :
  activeIndex (closePicker p st) = activeIndex st
  /\ isOpen (closePicker p st) = false
  /\ timers (closePicker p st) = timers st
  /\ scrollTimeoutRef (closePicker p st) = scrollTimeoutRef st
  /\ wheelRef (closePicker p st) = wheelRef st.
Proof.
  unfold closePicker, callIf, focusTrigger. cbn [triggerRef setIsOpen].
  destruct (flag p "focusTriggerOnClose"), (triggerRef st), (has p onClose);
    repeat split; reflexivity.
Qed.

(** Timers that run while the wheel is off the page recompute nothing. *)
Lemma runTimers_unmounted p t : forall fuel st,
  wheelRef st = None ->
  let st' := runTimers fuel p t st in
  activeIndex st' = activeIndex st
  /\ calls st' = calls st
  /\ isOpen st' = isOpen st
  /\ wheelRef st' = None.
Proof.
  induction fuel as [|fuel IH]; intros st Hw; cbn zeta; cbn [runTimers];
    [repeat split; auto|].
  destruct (nextDue t (pending (timers st))) as [x|]; [|repeat split; auto].
  set (st1 := scrollSettled p _).
  assert (Hst1 : st1 = setIsScrolling false (setTimers (takeTimer x (timers st)) st)).
  { subst st1. unfold scrollSettled, calculateActiveFromScroll.
    cbn [wheelRef setIsScrolling setTimers]. rewrite Hw. reflexivity. }
  clearbody st1. subst st1.
  destruct (IH (setIsScrolling false (setTimers (takeTimer x (timers st)) st)) Hw)
    as (Ha & Hc & Ho & Hw').
  cbn zeta in *. rewrite Ha, Hc, Ho. repeat split; auto.
Qed.

(** C7, as amended.  Unmounting takes the pending debounce timer out of
    the queue (the timers pending being the one [scrollTimeoutRef] holds),
    so that no recomputation runs however long one waits after.  After
    [closePicker], once the picker has left the page, a timer that comes
    due recomputes nothing: the active index is the one before the close
    and no call is made beyond those of the close. *)
Theorem unmount_clears_debounce p st :
  OwnsTimers st ->
  (let st' := unmountCleanup st in
   pending (timers st') = []
   /\ forall t, advanceTo p t st' = setTimers (setClock t (timers st')) st'
                /\ fired (timers (advanceTo p t st')) = fired (timers st)
                /\ activeIndex (advanceTo p t st') = activeIndex st
                /\ calls (advanceTo p t st') = calls st)
  /\ (forall t,
        let st1 := unmountPicker (closePicker p st) in
        let st2 := advanceTo p t st1 in
        activeIndex st2 = activeIndex st
        /\ calls st2 = calls (closePicker p st)
        /\ isOpen st2 = false).
Proof.
  intros Hown. split.
  - cbn zeta.
    assert (Hp : pending (timers (unmountCleanup st)) = []).
    { unfold unmountCleanup, OwnsTimers in *.
      destruct (scrollTimeoutRef st) as [id|] eqn:Href.
      - cbn [timers setTimers clearTimeout pending].
        induction (pending (timers st)) as [|y l IHl]; [reflexivity|].
        inversion Hown as [|? ? Hy Hl]; subst.
        inversion Hy as [Hid]. cbn [List.filter].
        rewrite <- Hid, Pos.eqb_refl. cbn [negb]. apply IHl. assumption.
      - destruct (pending (timers st)) as [|y l]; [reflexivity|].
        inversion Hown as [|? ? Hy Hl]. discriminate Hy. }
    split; [exact Hp|]. intros t.
    assert (Hadv : advanceTo p t (unmountCleanup st)
                   = setTimers (setClock t (timers (unmountCleanup st)))
                               (unmountCleanup st)).
    { apply advanceTo_idle. rewrite Hp. reflexivity. }
    rewrite Hadv. split; [reflexivity|].
    unfold unmountCleanup. destruct (scrollTimeoutRef st); repeat split; reflexivity.
  - intros t st1 st2. subst st2. unfold advanceTo.
    destruct (runTimers_unmounted p t (length (pending (timers st1))) st1 eq_refl)
      as (Ha & Hc & Ho & _). cbn zeta in *.
    cbn [activeIndex calls isOpen setTimers]. rewrite Ha, Hc, Ho.
    subst st1. destruct (closePicker_frame p st) as (Hact & Hopen & _).
    cbn [activeIndex calls isOpen unmountPicker setWheel].
    rewrite Hact, Hopen. repeat split; reflexivity.
Qed.

Lemma unmount_clears_debounce_witness :
  let p := Samples.planProps in
  let st := scrollEvent p 0 112%Q (Samples.openState p) in
  OwnsTimers st
  /\ pending (timers st) <> []
  /\ pending (timers (unmountCleanup st)) = []
  /\ forall t, fired (timers (advanceTo p t (unmountCleanup st))) = fired (timers st).
Proof.
  cbv zeta.
  set (st := scrollEvent Samples.planProps 0 112%Q (Samples.openState Samples.planProps)).
  assert (H : OwnsTimers st) by (repeat constructor).
  split; [exact H|]. split; [discriminate|].
  pose proof (proj1 (unmount_clears_debounce Samples.planProps st H)) as [Hp Hadv].
  split; [exact Hp|]. intros t. exact (proj1 (proj2 (Hadv t))).
Defined.

(** C7, as stated, fails for [closePicker]: a scroll sets the timer, the
    picker is closed and leaves the page, and the timer is still pending;
    it runs 50 ms after the scroll. *)
Lemma closePicker_keeps_timer_counterexample :
  let p := Samples.planProps in
  let st := scrollEvent p 0 112%Q (Samples.openState p) in
  let st1 := unmountPicker (closePicker p st) in
  (exists x, Armed p st x)
  /\ isOpen st1 = false
  /\ pending (timers st1) = pending (timers st)
  /\ pending (timers st1) <> []
  /\ fired (timers st) = []
  /\ fired (timers (settle p st1)) = [(1%positive, 50)].
Proof.
  cbv zeta. split.
  - eexists. repeat split.
  - repeat split; try (vm_compute; reflexivity). discriminate.
Qed.

End Debounce.

(* ===================================================================== *)
(** ** The timer queue of a mounted widget *)
(* ===================================================================== *)

Section TimerQueue.

Import Config Dom Wheel.
Open Scope Z_scope.

Implicit Types (p : WheelSelectProps) (st : State) (x : Timer).

Lemma KeepsTimers_trans st st1 st2 :
  KeepsTimers st st1 -> KeepsTimers st1 st2 -> KeepsTimers st st2.
Proof. intros [H1 H2] [H3 H4]. split; congruence. Qed.

Lemma KeepsTimers_owns st st' : KeepsTimers st st' -> OwnsTimers st -> OwnsTimers st'.
Proof. intros [H1 H2]. unfold OwnsTimers. rewrite H1, H2. auto. Qed.

Lemma openPicker_keeps p st : KeepsTimers st (openPicker p st).
Proof. unfold openPicker, callIf. keeps. Qed.

Lemma closePicker_keeps p st : KeepsTimers st (closePicker p st).
Proof. destruct (closePicker_frame p st) as (_ & _ & H1 & H2 & _). split; assumption. Qed.

Lemma commitSelection_keeps p v st : KeepsTimers st (commitSelection p v st).
Proof. unfold commitSelection, callIf, focusTrigger. keeps. Qed.

Lemma commitAt_keeps p index st : KeepsTimers st (commitAt p index st).
Proof.
  unfold commitAt. destruct (nthZ (options p) index) as [o|]; [|split; reflexivity].
  destruct (isDisabled o); [split; reflexivity | apply commitSelection_keeps].
Qed.

Lemma scrollItemIntoView_keeps i st : KeepsTimers st (scrollItemIntoView i st).
Proof. unfold scrollItemIntoView. keeps. Qed.

Lemma arrowUp_keeps p st : KeepsTimers st (arrowUp p st).
Proof. unfold arrowUp, scrollItemIntoView. keeps. Qed.

Lemma arrowDown_keeps p st : KeepsTimers st (arrowDown p st).
Proof. unfold arrowDown, scrollItemIntoView. keeps. Qed.

Lemma jumpTo_keeps i st : KeepsTimers st (jumpTo i st).
Proof. unfold jumpTo, scrollItemIntoView, itemAt. keeps. Qed.

Lemma call_keeps c st : KeepsTimers st (call c st).
Proof. split; reflexivity. Qed.

Lemma callIf_keeps b c st : KeepsTimers st (callIf b c st).
Proof. destruct b; split; reflexivity. Qed.

Lemma handlePickerKeyDown_keeps p key st :
  KeepsTimers st (handlePickerKeyDown p key st).
Proof.
  unfold handlePickerKeyDown.
  destruct (negb (flag p "keyboardNavigation")); [split; reflexivity|].
  eapply KeepsTimers_trans; [apply (callIf_keeps (has p onKeyDown) (CbOnKeyDown key))|].
  set (st1 := callIf _ _ st).
  assert (Hpd : KeepsTimers st1 (call PreventDefault st1)) by apply call_keeps.
  repeat match goal with
         | |- context [if ?b then _ else _] => destruct b
         end;
    try (split; reflexivity);
    (eapply KeepsTimers_trans; [exact Hpd|]);
    auto using closePicker_keeps, arrowUp_keeps, arrowDown_keeps,
               commitAt_keeps, jumpTo_keeps.
Qed.

Lemma assignScrollTop_keeps s st : KeepsTimers st (assignScrollTop s st).
Proof. destruct (assignScrollTop_frame s st) as (H1 & H2 & _). split; assumption. Qed.

Lemma centerOnFrame_keeps i st : KeepsTimers st (centerOnFrame i st).
Proof.
  unfold centerOnFrame. destruct (wheelRef st); [|split; reflexivity].
  destruct (itemAt st i); [apply assignScrollTop_keeps | split; reflexivity].
Qed.

Lemma runFrames_keeps st : KeepsTimers st (runFrames st).
Proof.
  unfold runFrames.
  assert (H : forall l st1, KeepsTimers st st1 ->
            KeepsTimers st (fold_left (fun st i => centerOnFrame i st) l st1)).
  { induction l as [|i l IH]; intros st1 H1; cbn [fold_left]; [exact H1|].
    apply IH. eapply KeepsTimers_trans; [exact H1 | apply centerOnFrame_keeps]. }
  apply H. split; reflexivity.
Qed.

Lemma scrollSettled_keeps p st : KeepsTimers st (scrollSettled p st).
Proof.
  unfold scrollSettled.
  destruct (calculateActiveFromScroll_frame p (setIsScrolling false st))
    as (H1 & H2 & _). split; assumption.
Qed.

(** The timers the ref holds, taken out: none is left. *)
Lemma filter_owned id (l : list Timer) :
  Forall (fun x => Some id = Some (timerId x)) l ->
  List.filter (fun t => negb (Pos.eqb (timerId t) id)) l = [].
Proof.
  induction l as [|y l IH]; intros H; [reflexivity|].
  inversion H as [|? ? Hy Hl]; subst. inversion Hy as [Hid].
  cbn [List.filter]. rewrite <- Hid, Pos.eqb_refl. cbn [negb]. auto.
Qed.

Lemma OwnsTimers_no_ref st :
  OwnsTimers st -> scrollTimeoutRef st = None -> pending (timers st) = [].
Proof.
  unfold OwnsTimers. intros H Href. rewrite Href in H.
  destruct (pending (timers st)); [reflexivity|].
  inversion H as [|? ? Hy _]. discriminate Hy.
Qed.

Lemma handleItemClick_owns p index st :
  OwnsTimers st -> OwnsTimers (handleItemClick p index st).
Proof.
  intros H. unfold handleItemClick.
  eapply KeepsTimers_owns; [apply commitAt_keeps|].
  cbn [scrollTimeoutRef call timers].
  destruct (scrollTimeoutRef st) as [id|] eqn:Href.
  - unfold OwnsTimers in *. cbn. rewrite Href in H.
    rewrite (filter_owned id _ H). constructor.
  - pose proof (OwnsTimers_no_ref st H Href) as Hnil.
    unfold OwnsTimers. cbn. rewrite Hnil. constructor.
Qed.

Lemma handleScroll_owns p st : OwnsTimers st -> OwnsTimers (handleScroll p st).
Proof.
  intros H. destruct (handleScroll_timers p st) as (Hp & Href & _).
  cbn zeta in *. unfold OwnsTimers in *. rewrite Hp, Href.
  destruct (scrollTimeoutRef st) as [id|] eqn:Hr.
  - rewrite (filter_owned id _ H). repeat constructor.
  - assert (Hnil : pending (timers st) = []).
    { apply OwnsTimers_no_ref; [|exact Hr]. unfold OwnsTimers. rewrite Hr. exact H. }
    rewrite Hnil. repeat constructor.
Qed.

Lemma takeTimer_owns p x st :
  OwnsTimers st ->
  OwnsTimers (scrollSettled p (setTimers (takeTimer x (timers st)) st)).
Proof.
  intros H. eapply KeepsTimers_owns; [apply scrollSettled_keeps|].
  unfold OwnsTimers in *. cbn. apply Forall_forall. intros y Hy.
  apply list_elem_of_In, List.filter_In in Hy as [Hy _].
  rewrite Forall_forall in H. apply H. apply list_elem_of_In. exact Hy.
Qed.

Lemma runTimers_owns p t : forall fuel st,
  OwnsTimers st -> OwnsTimers (runTimers fuel p t st).
Proof.
  induction fuel as [|fuel IH]; intros st H; cbn [runTimers]; [exact H|].
  destruct (nextDue t (pending (timers st))) as [x|]; [|exact H].
  apply IH. apply takeTimer_owns. exact H.
Qed.

Lemma advanceTo_owns p t st : OwnsTimers st -> OwnsTimers (advanceTo p t st).
Proof.
  intros H. unfold advanceTo.
  exact (runTimers_owns p t _ st H).
Qed.

(** Every step keeps the queue to the one timer the ref holds. *)
Lemma OwnsTimers_step p st st' : Step p st st' -> OwnsTimers st -> OwnsTimers st'.
Proof.
  intros Hstep H. destruct Hstep.
  - eapply KeepsTimers_owns; [apply openPicker_keeps | exact H].
  - destruct m; cbn [handle].
    + eapply KeepsTimers_owns; [apply openPicker_keeps | exact H].
    + eapply KeepsTimers_owns; [apply closePicker_keeps | exact H].
    + destruct (isOpen st);
        (eapply KeepsTimers_owns; [|exact H]);
        [apply closePicker_keeps | apply openPicker_keeps].
    + eapply KeepsTimers_owns; [|exact H]. unfold focusTrigger. keeps.
    + eapply KeepsTimers_owns; [apply scrollItemIntoView_keeps | exact H].
  - eapply KeepsTimers_owns; [apply handlePickerKeyDown_keeps | exact H].
  - apply handleItemClick_owns. exact H.
  - eapply KeepsTimers_owns; [|exact H]. unfold handleBackdropClick.
    destruct (_ && _); [apply closePicker_keeps | split; reflexivity].
  - eapply KeepsTimers_owns; [apply call_keeps | exact H].
  - eapply KeepsTimers_owns; [|exact H]. unfold syncActiveIndex. keeps.
  - eapply KeepsTimers_owns; [|exact H]. unfold scrollOnOpenEffect. keeps.
  - eapply KeepsTimers_owns; [|exact H]. unfold focusOnOpenEffect. keeps.
  - eapply KeepsTimers_owns; [apply runFrames_keeps | exact H].
  - eapply KeepsTimers_owns; [|exact H]. split; reflexivity.
  - unfold scrollEvent. apply handleScroll_owns.
    eapply KeepsTimers_owns; [apply assignScrollTop_keeps|].
    apply advanceTo_owns. exact H.
  - apply advanceTo_owns. exact H.
Qed.

(** From a widget with no timer pending, whatever happens, the pending
    timers are the one [scrollTimeoutRef] holds. *)
Lemma OwnsTimers_reachable p st0 st :
  pending (timers st0) = [] -> Reachable p st0 st -> OwnsTimers st.
Proof.
  intros H0 Hr. induction Hr as [|st st' _ IH Hstep].
  - unfold OwnsTimers. rewrite H0. constructor.
  - exact (OwnsTimers_step p st st' Hstep IH).
Qed.

(** The timer the loop picks is in the queue and due. *)
Lemma nextDue_Some t : forall (l : list Timer) x,
  nextDue t l = Some x -> In x l /\ deadline x <= t.
Proof.
  induction l as [|y l IH]; intros x H; cbn [nextDue] in H; [discriminate|].
  destruct (nextDue t l) as [z|].
  - destruct ((deadline y <=? t) && earlier y z) eqn:E; inversion H; subst.
    + apply andb_prop in E as [E _]. apply Z.leb_le in E. split; [left; reflexivity | exact E].
    + destruct (IH x eq_refl) as [Hin Hd]. split; [right; exact Hin | exact Hd].
  - destruct (Z.leb_spec (deadline y) t); inversion H; subst.
    split; [left; reflexivity | assumption].
Qed.

(** No timer picked: none is due. *)
Lemma nextDue_None t : forall (l : list Timer),
  nextDue t l = None -> Forall (fun x => t < deadline x) l.
Proof.
  induction l as [|y l IH]; intros H; cbn [nextDue] in H; [constructor|].
  destruct (nextDue t l) as [z|].
  - destruct ((deadline y <=? t) && earlier y z); discriminate.
  - destruct (Z.leb_spec (deadline y) t); [discriminate|].
    constructor; [assumption | apply IH; reflexivity].
Qed.

Lemma filter_timer_shrinks x (l : list Timer) :
  In x l ->
  (length (List.filter (fun t => negb (Pos.eqb (timerId t) (timerId x))) l)
   < length l)%nat.
Proof.
  induction l as [|y l IH]; intros Hin; [destruct Hin|].
  cbn [List.filter length].
  destruct Hin as [-> | Hin].
  - rewrite Pos.eqb_refl. cbn [negb].
    pose proof (List.filter_length_le
                  (fun t => negb (Pos.eqb (timerId t) (timerId x))) l). lia.
  - specialize (IH Hin).
    destruct (negb (Pos.eqb (timerId y) (timerId x))); cbn [length]; lia.
Qed.

(** The loop of [advanceTo] has turns enough: when it ends, no pending
    timer is due. *)
Lemma runTimers_exhausts p t : forall fuel st,
  (length (pending (timers st)) <= fuel)%nat ->
  nextDue t (pending (timers (runTimers fuel p t st))) = None.
Proof.
  induction fuel as [|fuel IH]; intros st Hlen; cbn [runTimers].
  - destruct (pending (timers st)); [reflexivity | cbn in Hlen; lia].
  - destruct (nextDue t (pending (timers st))) as [x|] eqn:Hdue; [|exact Hdue].
    apply IH.
    destruct (scrollSettled_keeps p (setTimers (takeTimer x (timers st)) st))
      as [Ht _]. rewrite Ht. cbn [timers setTimers takeTimer pending].
    destruct (nextDue_Some t _ x Hdue) as [Hin _].
    pose proof (filter_timer_shrinks x _ Hin). lia.
Qed.

Lemma advanceTo_runs_all_due p t st :
  Forall (fun x => t < deadline x) (pending (timers (advanceTo p t st))).
Proof.
  unfold advanceTo. cbn [timers setTimers setClock pending].
  apply nextDue_None. apply runTimers_exhausts. lia.
Qed.

End TimerQueue.

(* ===================================================================== *)
(** ** The handlers on the demo's plans *)
(* ===================================================================== *)

Section Walkthrough.

Import Config Dom Wheel.
Open Scope Z_scope.

(** A click on "Starter": both change handlers are called, the native
    select follows, and the picker closes and gives the focus back. *)
Example click_commits_starter :
  let st := Samples.openState Samples.planProps in
  let st' := handleItemClick Samples.planProps 1 st in
  calls st' = calls st
              ++ [ PreventDefault; StopPropagation;
                   PropOnChange "starter";
                   CbOnChange "starter" (Samples.opt "starter" "Starter");
                   FocusTrigger; CbOnClose ]
  /\ selectRef st' = Some "starter"
  /\ isOpen st' = false.
Proof. repeat split; vm_compute; reflexivity. Qed.

(** A click on the disabled "Enterprise" stops the event and nothing
    more; the picker stays open. *)
Example click_on_disabled_enterprise :
  let st := Samples.openState Samples.planProps in
  let st' := handleItemClick Samples.planProps 3 st in
  calls st' = calls st ++ [PreventDefault; StopPropagation]
  /\ selectRef st' = selectRef st
  /\ isOpen st' = true.
Proof. repeat split; vm_compute; reflexivity. Qed.

(** Enter on the active "Pro" commits it; End goes to "Pro" too, the last
    plan that is not disabled, and Home to "Free". *)
Example keys_on_plans :
  let st := Samples.openState Samples.planProps in
  PropOnChange "pro" ∈ calls (handlePickerKeyDown Samples.planProps "Enter" st)
  /\ activeIndex (handlePickerKeyDown Samples.planProps "End" st) = 2
  /\ activeIndex (handlePickerKeyDown Samples.planProps "Home" st) = 0
  /\ activeIndex (handlePickerKeyDown Samples.planProps "ArrowDown" st) = 2
  /\ activeIndex (handlePickerKeyDown Samples.planProps "ArrowUp" st) = 1
  /\ isOpen (handlePickerKeyDown Samples.planProps "Escape" st) = false.
Proof.
  split; [vm_compute; repeat constructor|].
  repeat split; vm_compute; reflexivity.
Qed.

(** With keyboard navigation switched off the key handler does nothing. *)
Example keys_switched_off :
  let p := mkProps Samples.planOptions "pro" false
             (Some {[ "keyboardNavigation" := JBool false ]}) None in
  handlePickerKeyDown p "ArrowUp" (Samples.openState p) = Samples.openState p.
Proof. vm_compute. reflexivity. Qed.

End Walkthrough.

(* ===================================================================== *)
(** ** What the handlers call *)
(* ===================================================================== *)

Section Calls.

Import Config Dom Wheel.
Open Scope Z_scope.

Implicit Types (p : WheelSelectProps) (st : State) (P : Call -> Prop).

Lemma Extends_refl P st : Extends P st st.
Proof. exists []. split; [symmetry; apply app_nil_r | constructor]. Qed.

Lemma Extends_same P st st' : calls st' = calls st -> Extends P st st'.
Proof. intros H. exists []. rewrite H. split; [symmetry; apply app_nil_r | constructor]. Qed.

Lemma Extends_trans P st st1 st2 :
  Extends P st st1 -> Extends P st1 st2 -> Extends P st st2.
Proof.
  intros (n1 & H1 & F1) (n2 & H2 & F2). exists (n1 ++ n2).
  rewrite H2, H1, app_assoc. split; [reflexivity | apply Forall_app; auto].
Qed.

Lemma Extends_impl P (Q : Call -> Prop) st st' :
  (forall c, P c -> Q c) -> Extends P st st' -> Extends Q st st'.
Proof.
  intros H (n & Hn & F). exists n. split; [assumption|].
  eapply Forall_impl; eauto.
Qed.

Lemma Extends_call P c st : P c -> Extends P st (call c st).
Proof. intros H. exists [c]. split; [reflexivity | repeat constructor; assumption]. Qed.

Lemma Extends_callIf P b c st : P c -> Extends P st (callIf b c st).
Proof. intros H. destruct b; [apply Extends_call; assumption | apply Extends_refl]. Qed.

Lemma focusTrigger_calls P st : P FocusTrigger -> Extends P st (focusTrigger st).
Proof.
  intros H. unfold focusTrigger.
  destruct (triggerRef st); [apply Extends_call; assumption | apply Extends_refl].
Qed.

Lemma scrollItemIntoView_calls i st : Extends NoCommit st (scrollItemIntoView i st).
Proof.
  unfold scrollItemIntoView.
  destruct (itemAt st i); [apply Extends_call; exact I | apply Extends_refl].
Qed.

Lemma openPicker_calls p st : Extends NoCommit st (openPicker p st).
Proof.
  unfold openPicker. destruct (disabled p); [apply Extends_refl|].
  eapply Extends_trans; [|apply Extends_callIf; exact I].
  apply Extends_same. destruct (triggerRef st); reflexivity.
Qed.

Lemma closePicker_calls p st : Extends NoCommit st (closePicker p st).
Proof.
  unfold closePicker.
  eapply Extends_trans; [|apply Extends_callIf; exact I].
  destruct (flag p "focusTriggerOnClose").
  - eapply Extends_trans; [|apply focusTrigger_calls; exact I].
    apply Extends_same. reflexivity.
  - apply Extends_same. reflexivity.
Qed.

Lemma arrowUp_calls p st : Extends NoCommit st (arrowUp p st).
Proof.
  unfold arrowUp. destruct (_ <? 0); [apply Extends_same; reflexivity|].
  eapply Extends_trans; [apply scrollItemIntoView_calls|].
  apply Extends_same. reflexivity.
Qed.

Lemma arrowDown_calls p st : Extends NoCommit st (arrowDown p st).
Proof.
  unfold arrowDown. destruct (_ >=? _); [apply Extends_same; reflexivity|].
  eapply Extends_trans; [apply scrollItemIntoView_calls|].
  apply Extends_same. reflexivity.
Qed.

Lemma jumpTo_calls i st : Extends NoCommit st (jumpTo i st).
Proof.
  unfold jumpTo. destruct (i =? -1); [apply Extends_refl|].
  eapply Extends_trans; [|apply scrollItemIntoView_calls].
  apply Extends_same. reflexivity.
Qed.

Lemma NoCommit_safe p c : NoCommit c -> SafeCall p c.
Proof. destruct c; cbn; tauto. Qed.

Lemma find_enabled p v o :
  find (hasValue v) (options p) = Some o -> isDisabled o = false -> EnabledValue p v.
Proof.
  intros Hf Hd. apply List.find_some in Hf as [Hin Hv].
  exists o. split; [apply list_elem_of_In; exact Hin|].
  split; [apply String.eqb_eq; exact Hv | exact Hd].
Qed.

Lemma commitSelection_calls p v st : Extends (SafeCall p) st (commitSelection p v st).
Proof.
  unfold commitSelection.
  destruct (find (hasValue v) (options p)) as [o|] eqn:Hf; [|apply Extends_refl].
  destruct (isDisabled o) eqn:Hd; [apply Extends_refl|].
  pose proof (find_enabled p v o Hf Hd) as He.
  set (st1 := call (PropOnChange v) st).
  set (st2 := callIf (has p onChange) (CbOnChange v o) st1).
  set (st3 := match selectRef st2 with
              | Some _ => setSelectValue v st2
              | None => st2
              end).
  assert (H3 : Extends (SafeCall p) st st3).
  { assert (H1 : Extends (SafeCall p) st st1) by (apply Extends_call; exact He).
    assert (H2 : Extends (SafeCall p) st1 st2) by (apply Extends_callIf; exact He).
    assert (H23 : Extends (SafeCall p) st2 st3).
    { apply Extends_same. subst st3. destruct (selectRef st2); reflexivity. }
    exact (Extends_trans _ _ _ _ H1 (Extends_trans _ _ _ _ H2 H23)). }
  destruct (flag p "closeOnSelect"); [|exact H3].
  eapply Extends_trans; [exact H3|].
  eapply Extends_trans; [|apply Extends_callIf; exact I].
  destruct (flag p "focusTriggerOnClose").
  - eapply Extends_trans; [|apply focusTrigger_calls; exact I].
    apply Extends_same. reflexivity.
  - apply Extends_same. reflexivity.
Qed.

Lemma commitAt_calls p index st : Extends (SafeCall p) st (commitAt p index st).
Proof.
  unfold commitAt. destruct (nthZ (options p) index) as [o|]; [|apply Extends_refl].
  destruct (isDisabled o); [apply Extends_refl | apply commitSelection_calls].
Qed.

Lemma handlePickerKeyDown_calls p key st :
  Extends (SafeCall p) st (handlePickerKeyDown p key st)
  /\ (key <> "Enter" -> key <> " " ->
      Extends NoCommit st (handlePickerKeyDown p key st)).
Proof.
  unfold handlePickerKeyDown.
  destruct (negb (flag p "keyboardNavigation"));
    [split; intros; apply Extends_refl|].
  set (st1 := callIf (has p onKeyDown) (CbOnKeyDown key) st).
  assert (H1 : Extends NoCommit st st1) by (apply Extends_callIf; exact I).
  assert (Hpd : Extends NoCommit st (call PreventDefault st1)).
  { eapply Extends_trans; [exact H1 | apply Extends_call; exact I]. }
  assert (Hweak : forall st', Extends NoCommit st st' -> Extends (SafeCall p) st st').
  { intros st'. apply Extends_impl. apply NoCommit_safe. }
  destruct (String.eqb key "Escape").
  { assert (H : Extends NoCommit st
                  (if flag p "closeOnEscape"
                   then closePicker p (call PreventDefault st1) else st1)).
    { destruct (flag p "closeOnEscape"); [|exact H1].
      eapply Extends_trans; [exact Hpd | apply closePicker_calls]. }
    split; auto. }
  destruct (String.eqb key "ArrowUp").
  { assert (H : Extends NoCommit st (arrowUp p (call PreventDefault st1)))
      by (eapply Extends_trans; [exact Hpd | apply arrowUp_calls]).
    split; auto. }
  destruct (String.eqb key "ArrowDown").
  { assert (H : Extends NoCommit st (arrowDown p (call PreventDefault st1)))
      by (eapply Extends_trans; [exact Hpd | apply arrowDown_calls]).
    split; auto. }
  destruct (String.eqb key "Enter") eqn:Eenter.
  { apply String.eqb_eq in Eenter. cbn [orb]. split.
    - eapply Extends_trans; [apply Hweak; exact Hpd | apply commitAt_calls].
    - intros Hne. congruence. }
  destruct (String.eqb key " ") eqn:Espace.
  { apply String.eqb_eq in Espace. cbn [orb]. split.
    - eapply Extends_trans; [apply Hweak; exact Hpd | apply commitAt_calls].
    - intros _ Hne. congruence. }
  cbn [orb].
  destruct (String.eqb key "Home").
  { assert (H : Extends NoCommit st
                  (jumpTo (findIndex (fun o => negb (isDisabled o)) (options p))
                          (call PreventDefault st1)))
      by (eapply Extends_trans; [exact Hpd | apply jumpTo_calls]).
    split; auto. }
  destruct (String.eqb key "End").
  { assert (H : Extends NoCommit st
                  (jumpTo (findLastIndex (fun o => negb (isDisabled o)) (options p))
                          (call PreventDefault st1)))
      by (eapply Extends_trans; [exact Hpd | apply jumpTo_calls]).
    split; auto. }
  split; auto.
Qed.

Lemma handleItemClick_calls p index st :
  Extends (SafeCall p) st (handleItemClick p index st).
Proof.
  unfold handleItemClick.
  eapply Extends_trans; [|apply commitAt_calls].
  set (st1 := call PreventDefault st).
  set (st2 := call StopPropagation st1).
  assert (H1 : Extends (SafeCall p) st st1) by (apply Extends_call; exact I).
  assert (H2 : Extends (SafeCall p) st1 st2) by (apply Extends_call; exact I).
  eapply Extends_trans; [exact (Extends_trans _ _ _ _ H1 H2)|].
  apply Extends_same. destruct (scrollTimeoutRef st2); reflexivity.
Qed.

Lemma handleBackdropClick_calls p b st :
  Extends NoCommit st (handleBackdropClick p b st).
Proof.
  unfold handleBackdropClick.
  destruct (_ && _); [apply closePicker_calls | apply Extends_refl].
Qed.

Lemma handle_calls p m st : Extends NoCommit st (handle p m st).
Proof.
  destruct m; cbn [handle].
  - apply openPicker_calls.
  - apply closePicker_calls.
  - destruct (isOpen st); [apply closePicker_calls | apply openPicker_calls].
  - apply focusTrigger_calls. exact I.
  - apply scrollItemIntoView_calls.
Qed.

Lemma calculateActiveFromScroll_calls p st :
  Extends NoCommit st (calculateActiveFromScroll p st).
Proof.
  unfold calculateActiveFromScroll. destruct (wheelRef st); [|apply Extends_refl].
  destruct (nthZ (options p) _) as [o|].
  - eapply Extends_trans; [|apply Extends_callIf; exact I].
    apply Extends_same. reflexivity.
  - apply Extends_same. reflexivity.
Qed.

Lemma runTimers_calls p t : forall fuel st, Extends NoCommit st (runTimers fuel p t st).
Proof.
  induction fuel as [|fuel IH]; intros st; cbn [runTimers]; [apply Extends_refl|].
  destruct (nextDue t (pending (timers st))) as [x|]; [|apply Extends_refl].
  eapply Extends_trans; [|apply IH].
  unfold scrollSettled.
  eapply Extends_trans; [|apply calculateActiveFromScroll_calls].
  apply Extends_same. reflexivity.
Qed.

Lemma advanceTo_calls p t st : Extends NoCommit st (advanceTo p t st).
Proof.
  unfold advanceTo.
  eapply Extends_trans; [apply runTimers_calls|].
  apply Extends_same. reflexivity.
Qed.

Lemma assignScrollTop_calls s st : Extends NoCommit st (assignScrollTop s st).
Proof.
  apply Extends_same. destruct (assignScrollTop_frame s st) as (_ & _ & _ & H & _).
  exact H.
Qed.

Lemma runFrames_calls st : Extends NoCommit st (runFrames st).
Proof.
  unfold runFrames.
  assert (H : forall l st1, Extends NoCommit st st1 ->
            Extends NoCommit st (fold_left (fun st i => centerOnFrame i st) l st1)).
  { induction l as [|i l IH]; intros st1 H1; cbn [fold_left]; [exact H1|].
    apply IH. eapply Extends_trans; [exact H1|].
    unfold centerOnFrame. destruct (wheelRef st1); [|apply Extends_refl].
    destruct (itemAt st1 i); [apply assignScrollTop_calls | apply Extends_refl]. }
  apply H. apply Extends_same. reflexivity.
Qed.

Lemma scrollEvent_calls p gap s st : Extends NoCommit st (scrollEvent p gap s st).
Proof.
  unfold scrollEvent.
  eapply Extends_trans; [apply advanceTo_calls|].
  eapply Extends_trans; [apply assignScrollTop_calls|].
  apply Extends_same.
  destruct (handleScroll_timers p
              (assignScrollTop s (advanceTo p (now (timers st) + gap) st)))
    as (_ & _ & _ & _ & _ & _ & _ & H). exact H.
Qed.

(** X1.  Whatever happens to the widget, it calls [onChange] and the
    change notification only with the value of an option that is not
    disabled; the one exception is the native select's own change event,
    whose value is passed on as it comes. *)
Theorem step_commits_enabled_only p st st' :
  Step p st st' ->
  exists new,
    calls st' = calls st ++ new
    /\ Forall (fun c => SafeCall p c
                        \/ exists v, c = PropOnChange v
                                     /\ st' = handleNativeChange v st) new.
Proof.
  intros Hstep.
  assert (Hsafe : Extends (SafeCall p) st st' ->
            exists new, calls st' = calls st ++ new
              /\ Forall (fun c => SafeCall p c
                          \/ exists v, c = PropOnChange v
                                       /\ st' = handleNativeChange v st) new).
  { intros (new & Hn & F). exists new. split; [exact Hn|].
    eapply Forall_impl; [exact F|]. intros c Hc. left. exact Hc. }
  assert (Hno : Extends NoCommit st st' ->
            exists new, calls st' = calls st ++ new
              /\ Forall (fun c => SafeCall p c
                          \/ exists v, c = PropOnChange v
                                       /\ st' = handleNativeChange v st) new).
  { intros H. apply Hsafe. eapply Extends_impl; [apply NoCommit_safe | exact H]. }
  destruct Hstep.
  - apply Hno. apply openPicker_calls.
  - apply Hno. apply handle_calls.
  - apply Hsafe. apply handlePickerKeyDown_calls.
  - apply Hsafe. apply handleItemClick_calls.
  - apply Hno. apply handleBackdropClick_calls.
  - exists [PropOnChange v]. split; [reflexivity|].
    constructor; [|constructor]. right. exists v. split; reflexivity.
  - apply Hno. apply Extends_same. unfold syncActiveIndex.
    destruct (_ =? -1); reflexivity.
  - apply Hno. apply Extends_same. unfold scrollOnOpenEffect.
    destruct (isOpen st); [|reflexivity].
    destruct (initialScrollIndexRef st); reflexivity.
  - apply Hno. unfold focusOnOpenEffect.
    destruct (isOpen st); [|apply Extends_refl].
    destruct (wheelRef st); [apply Extends_call; exact I | apply Extends_refl].
  - apply Hno. apply runFrames_calls.
  - apply Hno. apply Extends_same. reflexivity.
  - apply Hno. apply scrollEvent_calls.
  - apply Hno. apply advanceTo_calls.
Qed.

Lemma step_commits_enabled_only_witness :
  let p := Samples.planProps in
  let st := Samples.openState p in
  Step p st (handleItemClick p 1 st)
  /\ exists new,
       calls (handleItemClick p 1 st) = calls st ++ new
       /\ Forall (fun c => SafeCall p c
                           \/ exists v, c = PropOnChange v
                                        /\ handleItemClick p 1 st
                                           = handleNativeChange v st) new.
Proof.
  cbv zeta.
  assert (H : Step Samples.planProps (Samples.openState Samples.planProps)
                (handleItemClick Samples.planProps 1
                   (Samples.openState Samples.planProps)))
    by constructor.
  split; [exact H|].
  exact (step_commits_enabled_only _ _ _ H).
Defined.

End Calls.

(* ===================================================================== *)
(** ** Committing, closing, and the other keys *)
(* ===================================================================== *)

Section KeysAndCommit.

Import Config Dom Wheel.
Open Scope Z_scope.

Implicit Types (p : WheelSelectProps) (st : State).

(** X2.  The value of an option that is found and not disabled is
    committed in this order: [onChange] with the value, once; the change
    notification with the value and the option; the value written to the
    native select; and, when [closeOnSelect] is on, the close: the focus
    back to the trigger when [focusTriggerOnClose] is on, then the close
    notification.  With [closeOnSelect] off the picker stays as it was.
    The active index and the debounce timer are left alone. *)
Theorem commitSelection_commits p v o st :
  find (hasValue v) (options p) = Some o ->
  isDisabled o = false ->
  let st' := commitSelection p v st in
  calls st' = calls st
              ++ [PropOnChange v]
              ++ (if has p onChange then [CbOnChange v o] else [])
              ++ (if flag p "closeOnSelect"
                  then (if flag p "focusTriggerOnClose"
                        then match triggerRef st with
                             | Some _ => [FocusTrigger]
                             | None => []
                             end
                        else [])
                       ++ (if has p onClose then [CbOnClose] else [])
                  else [])
  /\ selectRef st' = match selectRef st with Some _ => Some v | None => None end
  /\ isOpen st' = (if flag p "closeOnSelect" then false else isOpen st)
  /\ activeIndex st' = activeIndex st
  /\ timers st' = timers st
  /\ scrollTimeoutRef st' = scrollTimeoutRef st.
Proof.
  intros Hf Hd st'. subst st'. unfold commitSelection. rewrite Hf, Hd.
  unfold callIf, focusTrigger.
  destruct (has p onChange), (selectRef st) eqn:Hs, (flag p "closeOnSelect"),
    (flag p "focusTriggerOnClose"), (triggerRef st) eqn:Ht, (has p onClose);
    repeat (progress (cbn; rewrite ?Hs, ?Ht)); rewrite <- ?app_assoc; cbn;
    repeat split; reflexivity.
Qed.

Lemma commitSelection_commits_witness :
  let p := Samples.planProps in
  let st := Samples.openState p in
  find (hasValue "starter") (options p) = Some (Samples.opt "starter" "Starter")
  /\ isDisabled (Samples.opt "starter" "Starter") = false
  /\ isOpen (commitSelection p "starter" st) = false
  /\ selectRef (commitSelection p "starter" st) = Some "starter"
  /\ activeIndex (commitSelection p "starter" st) = activeIndex st.
Proof.
  cbv zeta.
  pose proof (commitSelection_commits Samples.planProps "starter"
                (Samples.opt "starter" "Starter")
                (Samples.openState Samples.planProps) eq_refl eq_refl)
    as (_ & Hs & Ho & Ha & _).
  repeat split; assumption.
Defined.

Lemma commitSelection_activeIndex p v st :
  activeIndex (commitSelection p v st) = activeIndex st.
Proof.
  unfold commitSelection, callIf, focusTrigger. call_cases; reflexivity.
Qed.

Lemma commitAt_activeIndex p i st : activeIndex (commitAt p i st) = activeIndex st.
Proof.
  unfold commitAt. destruct (nthZ (options p) i) as [o|]; [|reflexivity].
  destruct (isDisabled o); [reflexivity | apply commitSelection_activeIndex].
Qed.

Lemma jumpTo_activeIndex i st :
  activeIndex (jumpTo i st) = if i =? -1 then activeIndex st else i.
Proof.
  unfold jumpTo, scrollItemIntoView. destruct (i =? -1); [reflexivity|].
  destruct (itemAt _ i); reflexivity.
Qed.

(** What [findLastIndexFrom] returns, the scan starting at index [k]. *)
Lemma findLastIndexFrom_spec {A} (f : A -> bool) : forall (l : list A) k,
  0 <= k ->
  let r := findLastIndexFrom f l k in
  (r = -1 /\ forall x, x ∈ l -> f x = false)
  \/ (k <= r < k + lengthZ l
      /\ (exists x, nthZ l (r - k) = Some x /\ f x = true)
      /\ forall j y, r - k < j -> nthZ l j = Some y -> f y = false).
Proof.
  induction l as [|x l IH]; intros k Hk; cbn zeta; cbn [findLastIndexFrom].
  - left. split; [reflexivity|]. intros x Hx. inversion Hx.
  - destruct (IH (k + 1) ltac:(lia)) as [[Hr Hall] | (Hr & (y & Hy & Hfy) & Hafter)];
      cbn zeta in *.
    + rewrite Hr. cbn. destruct (f x) eqn:Hfx.
      * right. unfold lengthZ. cbn [length]. split; [lia|]. split.
        -- exists x. rewrite Z.sub_diag. split; [reflexivity | exact Hfx].
        -- intros j z Hj Hz. rewrite Z.sub_diag in Hj.
           replace j with ((j - 1) + 1) in Hz by lia.
           rewrite nthZ_cons_succ in Hz by lia.
           apply nthZ_Some in Hz as [_ Hz]. apply list_elem_of_lookup_2 in Hz. auto.
      * left. split; [reflexivity|]. intros z Hz.
        apply elem_of_cons in Hz as [-> | Hz]; auto.
    + destruct (Z.eqb_spec (findLastIndexFrom f l (k + 1)) (-1)) as [E | _]; [lia|].
      right. unfold lengthZ in *. cbn [length]. split; [lia|]. split.
      * exists y. split; [|exact Hfy].
        replace (findLastIndexFrom f l (k + 1) - k)
          with ((findLastIndexFrom f l (k + 1) - (k + 1)) + 1) by lia.
        rewrite nthZ_cons_succ by lia. exact Hy.
      * intros j z Hj Hz.
        replace j with ((j - 1) + 1) in Hz by lia.
        rewrite nthZ_cons_succ in Hz by lia.
        apply (Hafter (j - 1)); [lia | exact Hz].
Qed.

Lemma findLastIndex_spec {A} (f : A -> bool) (l : list A) :
  let r := findLastIndex f l in
  (r = -1 /\ forall x, x ∈ l -> f x = false)
  \/ (0 <= r < lengthZ l
      /\ (exists x, nthZ l r = Some x /\ f x = true)
      /\ forall j y, r < j -> nthZ l j = Some y -> f y = false).
Proof.
  pose proof (findLastIndexFrom_spec f l 0 ltac:(lia)) as H. cbn zeta in H.
  unfold findLastIndex. rewrite Z.sub_0_r in H.
  destruct H as [H | (H1 & H2 & H3)]; [left; exact H | right].
  split; [lia|]. split; [exact H2|].
  intros j y Hj. apply H3. lia.
Qed.

(** X3.  Whatever the key, the key handler takes an active index that
    is within the bounds of the options to one that is within them. *)
Theorem keys_keep_active_index_in_bounds p key st :
  0 <= activeIndex st < lengthZ (options p) ->
  0 <= activeIndex (handlePickerKeyDown p key st) < lengthZ (options p).
Proof.
  intros Hb. unfold handlePickerKeyDown.
  destruct (negb (flag p "keyboardNavigation")); [exact Hb|].
  set (st1 := callIf (has p onKeyDown) (CbOnKeyDown key) st).
  assert (H1 : activeIndex st1 = activeIndex st) by apply activeIndex_callIf.
  assert (Hpd : activeIndex (call PreventDefault st1) = activeIndex st) by exact H1.
  destruct (String.eqb key "Escape").
  { destruct (flag p "closeOnEscape"); [|rewrite H1; exact Hb].
    destruct (closePicker_frame p (call PreventDefault st1)) as (-> & _).
    rewrite Hpd. exact Hb. }
  destruct (String.eqb key "ArrowUp").
  { rewrite arrowUp_activeIndex. cbn zeta. rewrite Hpd.
    destruct (skipDisabledUp_spec (options p) (activeIndex st - 1)) as (Hle & _).
    cbn zeta in Hle.
    destruct (Z.ltb_spec (skipDisabledUp (options p) (activeIndex st - 1)) 0); lia. }
  destruct (String.eqb key "ArrowDown").
  { rewrite arrowDown_activeIndex. cbn zeta. rewrite Hpd.
    destruct (skipDisabledDown_spec (options p) (activeIndex st + 1)) as (Hle & _).
    cbn zeta in Hle.
    destruct (Z.geb_spec (skipDisabledDown (options p) (activeIndex st + 1))
                (lengthZ (options p))); lia. }
  destruct (String.eqb key "Enter" || String.eqb key " ").
  { rewrite commitAt_activeIndex, Hpd. exact Hb. }
  destruct (String.eqb key "Home").
  { rewrite jumpTo_activeIndex, Hpd.
    destruct (findIndex_spec (fun o => negb (isDisabled o)) (options p))
      as [[-> _] | (Hr & _)]; [exact Hb|].
    destruct (Z.eqb_spec (findIndex (fun o => negb (isDisabled o)) (options p)) (-1));
      [exact Hb | exact Hr]. }
  destruct (String.eqb key "End").
  { rewrite jumpTo_activeIndex, Hpd.
    destruct (findLastIndex_spec (fun o => negb (isDisabled o)) (options p))
      as [[-> _] | (Hr & _)]; [exact Hb|].
    destruct (Z.eqb_spec (findLastIndex (fun o => negb (isDisabled o)) (options p)) (-1));
      [exact Hb | exact Hr]. }
  rewrite H1. exact Hb.
Qed.

Lemma keys_keep_active_index_in_bounds_witness :
  let p := Samples.planProps in
  let st := Samples.openState p in
  0 <= activeIndex st < lengthZ (options p)
  /\ 0 <= activeIndex (handlePickerKeyDown p "End" st) < lengthZ (options p).
Proof.
  cbv zeta.
  assert (H : 0 <= activeIndex (Samples.openState Samples.planProps)
              < lengthZ (options Samples.planProps))
    by (vm_compute; split; [discriminate | reflexivity]).
  split; [exact H|].
  exact (keys_keep_active_index_in_bounds Samples.planProps "End" _ H).
Defined.

Lemma disabledAt_of_negb opts j :
  (forall y, nthZ opts j = Some y -> negb (isDisabled y) = false) ->
  0 <= j < lengthZ opts ->
  disabledAt opts j = true.
Proof.
  intros H Hj. unfold disabledAt.
  destruct (nthZ_in_bounds opts j Hj) as [y Hy]. rewrite Hy.
  specialize (H y Hy). apply negb_false_iff in H. exact H.
Qed.

(** X4.  With keyboard navigation on, Home makes the first option that
    is not disabled the active one and End the last one; when every option
    is disabled (or there is none) both leave the active index alone. *)
Theorem home_end_jump p st :
  flag p "keyboardNavigation" = true ->
  let home := activeIndex (handlePickerKeyDown p "Home" st) in
  let last := activeIndex (handlePickerKeyDown p "End" st) in
  ((forall o, o ∈ options p -> isDisabled o = true) ->
   home = activeIndex st /\ last = activeIndex st)
  /\ ((exists o, o ∈ options p /\ isDisabled o = false) ->
      (0 <= home < lengthZ (options p)
       /\ disabledAt (options p) home = false
       /\ forall j, 0 <= j < home -> disabledAt (options p) j = true)
      /\ (0 <= last < lengthZ (options p)
          /\ disabledAt (options p) last = false
          /\ forall j, last < j < lengthZ (options p) ->
               disabledAt (options p) j = true)).
Proof.
  intros Hkb home last.
  assert (Hhome : home = let i := findIndex (fun o => negb (isDisabled o)) (options p) in
                         if i =? -1 then activeIndex st else i).
  { subst home. unfold handlePickerKeyDown. rewrite Hkb. cbn.
    rewrite jumpTo_activeIndex. cbn. rewrite activeIndex_callIf. reflexivity. }
  assert (Hlast : last = let i := findLastIndex (fun o => negb (isDisabled o)) (options p) in
                         if i =? -1 then activeIndex st else i).
  { subst last. unfold handlePickerKeyDown. rewrite Hkb. cbn.
    rewrite jumpTo_activeIndex. cbn. rewrite activeIndex_callIf. reflexivity. }
  cbn zeta in *. rewrite Hhome, Hlast. clear Hhome Hlast home last.
  destruct (findIndex_spec (fun o => negb (isDisabled o)) (options p))
    as [[Hi Hall] | (Hi & (x & Hx & Hfx) & Hbefore)];
  destruct (findLastIndex_spec (fun o => negb (isDisabled o)) (options p))
    as [[Hl Hall'] | (Hl & (y & Hy & Hfy) & Hafter)]; cbn zeta in *.
  - rewrite Hi, Hl. cbn. split; [auto|].
    intros (o & Ho & Hd). specialize (Hall o Ho). rewrite Hd in Hall. discriminate.
  - exfalso. apply nthZ_Some in Hy as [_ Hy]. apply list_elem_of_lookup_2 in Hy.
    rewrite (Hall y Hy) in Hfy. discriminate.
  - exfalso. apply nthZ_Some in Hx as [_ Hx]. apply list_elem_of_lookup_2 in Hx.
    rewrite (Hall' x Hx) in Hfx. discriminate.
  - destruct (Z.eqb_spec (findIndex (fun o => negb (isDisabled o)) (options p)) (-1));
      [lia|].
    destruct (Z.eqb_spec (findLastIndex (fun o => negb (isDisabled o)) (options p)) (-1));
      [lia|].
    split.
    + intros Hall. exfalso.
      apply nthZ_Some in Hx as [_ Hx]. apply list_elem_of_lookup_2 in Hx.
      rewrite (Hall x Hx) in Hfx. discriminate.
    + intros _. split.
      * split; [exact Hi|]. split.
        -- unfold disabledAt. rewrite Hx. apply negb_true_iff. exact Hfx.
        -- intros j Hj. apply disabledAt_of_negb; [|lia].
           intros z Hz. apply (Hbefore j z Hj Hz).
      * split; [exact Hl|]. split.
        -- unfold disabledAt. rewrite Hy. apply negb_true_iff. exact Hfy.
        -- intros j Hj. apply disabledAt_of_negb; [|lia].
           intros z Hz. apply (Hafter j z ltac:(lia) Hz).
Qed.

Lemma home_end_jump_witness :
  let p := Samples.planProps in
  let st := Samples.openState p in
  flag p "keyboardNavigation" = true
  /\ (exists o, o ∈ options p /\ isDisabled o = false)
  /\ disabledAt (options p) (activeIndex (handlePickerKeyDown p "End" st)) = false
  /\ disabledAt (options p) (activeIndex (handlePickerKeyDown p "Home" st)) = false.
Proof.
  cbv zeta.
  assert (H1 : flag Samples.planProps "keyboardNavigation" = true) by reflexivity.
  assert (H2 : exists o, o ∈ options Samples.planProps /\ isDisabled o = false).
  { exists (Samples.opt "free" "Free"). split; [left | reflexivity]. }
  split; [exact H1|]. split; [exact H2|].
  destruct (proj2 (home_end_jump Samples.planProps
                     (Samples.openState Samples.planProps) H1) H2)
    as ((_ & Hh & _) & (_ & Hl & _)).
  split; [exact Hl | exact Hh].
Defined.

End KeysAndCommit.

(* ===================================================================== *)
(** ** Closing, toggling, and the timer across the widget's life *)
(* ===================================================================== *)

Section ClosingAndTimers.

Import Config Dom Wheel.
Open Scope Z_scope.

Implicit Types (p : WheelSelectProps) (st : State).

Lemma handlePickerKeyDown_escape p st :
  flag p "keyboardNavigation" = true ->
  handlePickerKeyDown p "Escape" st
  = let st1 := callIf (has p onKeyDown) (CbOnKeyDown "Escape") st in
    if flag p "closeOnEscape" then closePicker p (call PreventDefault st1) else st1.
Proof. intros H. unfold handlePickerKeyDown. rewrite H. reflexivity. Qed.

Lemma isOpen_callIf b c st : isOpen (callIf b c st) = isOpen st.
Proof. destruct b; reflexivity. Qed.

(** X5.  Closing never commits.  Every key but Enter and Space, a click
    on the backdrop and every method of the handle make no call to
    [onChange] or to the change notification.  With keyboard navigation
    on, Escape closes the picker when [closeOnEscape] is on and leaves it
    as it is otherwise; with keyboard navigation off no key changes
    anything, Escape included.  A click closes the picker when it is on
    the backdrop itself and [closeOnOutsideClick] is on, and a click that
    reaches the backdrop from inside the panel does not. *)
Theorem closing_never_commits p st :
  (forall key, key <> "Enter" -> key <> " " ->
     Extends NoCommit st (handlePickerKeyDown p key st))
  /\ (forall onBackdrop, Extends NoCommit st (handleBackdropClick p onBackdrop st))
  /\ (forall m, Extends NoCommit st (handle p m st))
  /\ (flag p "keyboardNavigation" = true ->
      isOpen (handlePickerKeyDown p "Escape" st)
      = if flag p "closeOnEscape" then false else isOpen st)
  /\ (flag p "keyboardNavigation" = false ->
      forall key, handlePickerKeyDown p key st = st)
  /\ isOpen (handleBackdropClick p true st)
     = (if flag p "closeOnOutsideClick" then false else isOpen st)
  /\ handleBackdropClick p false st = st.
Proof.
  split; [intros key; apply handlePickerKeyDown_calls|].
  split; [intros b; apply handleBackdropClick_calls|].
  split; [intros m; apply handle_calls|].
  split; [|split; [|split]].
  - intros Hkb. rewrite (handlePickerKeyDown_escape p st Hkb). cbn zeta.
    destruct (flag p "closeOnEscape").
    + destruct (closePicker_frame p
                  (call PreventDefault
                     (callIf (has p onKeyDown) (CbOnKeyDown "Escape") st)))
        as (_ & H & _). exact H.
    + apply isOpen_callIf.
  - intros Hkb key. unfold handlePickerKeyDown. rewrite Hkb. reflexivity.
  - unfold handleBackdropClick. rewrite andb_true_r.
    destruct (flag p "closeOnOutsideClick"); [|reflexivity].
    destruct (closePicker_frame p st) as (_ & H & _). exact H.
  - unfold handleBackdropClick. rewrite andb_false_r. reflexivity.
Qed.

(** X6.  [toggle()] on a widget that is not disabled turns the open flag
    over, and twice brings it back; on a disabled widget it leaves the
    picker closed: open, it is closed, and closed, it is not opened. *)
Theorem toggle_flips p st :
  (disabled p = false ->
   isOpen (handle p HToggle st) = negb (isOpen st)
   /\ isOpen (handle p HToggle (handle p HToggle st)) = isOpen st)
  /\ (disabled p = true -> isOpen (handle p HToggle st) = false).
Proof.
  assert (Hclose : forall s, isOpen (closePicker p s) = false).
  { intros s. destruct (closePicker_frame p s) as (_ & H & _). exact H. }
  assert (Hopen : disabled p = false -> forall s, isOpen (openPicker p s) = true).
  { intros Hd s. unfold openPicker. rewrite Hd. unfold callIf.
    destruct (has p onOpen), (triggerRef s); reflexivity. }
  split.
  - intros Hd. cbn [handle].
    destruct (isOpen st) eqn:Ho.
    + rewrite Hclose. split; [reflexivity|]. apply Hopen. exact Hd.
    + rewrite (Hopen Hd). split; [reflexivity|]. apply Hclose.
  - intros Hd. cbn [handle]. destruct (isOpen st) eqn:Ho; [apply Hclose|].
    unfold openPicker. rewrite Hd. exact Ho.
Qed.

(** After a click on an item no timer is pending and the ref is empty. *)
Lemma handleItemClick_clears p index st :
  OwnsTimers st ->
  pending (timers (handleItemClick p index st)) = []
  /\ scrollTimeoutRef (handleItemClick p index st) = None.
Proof.
  intros Hown.
  set (st1 := call StopPropagation (call PreventDefault st)).
  set (st2 := match scrollTimeoutRef st1 with
              | Some id =>
                  setScrollTimeout None (setTimers (clearTimeout id (timers st1)) st1)
              | None => st1
              end).
  assert (H2 : pending (timers st2) = [] /\ scrollTimeoutRef st2 = None).
  { subst st2 st1. cbn [scrollTimeoutRef call timers].
    destruct (scrollTimeoutRef st) as [id|] eqn:Href.
    - cbn. unfold OwnsTimers in Hown. rewrite Href in Hown.
      rewrite (filter_owned id _ Hown). split; reflexivity.
    - cbn. rewrite Href. split; [|reflexivity].
      exact (OwnsTimers_no_ref st Hown Href). }
  assert (Hst' : handleItemClick p index st = commitAt p index st2) by reflexivity.
  destruct (commitAt_keeps p index st2) as [Ht Hr].
  rewrite Hst', Ht, Hr. exact H2.
Qed.

(** X7.  A click on an item, whichever it is and whether or not it
    commits, takes the pending debounce timer out of the queue and empties
    the timer ref; however long one waits after it, no recomputation runs. *)
Theorem item_click_cancels_debounce p index st :
  OwnsTimers st ->
  let st' := handleItemClick p index st in
  pending (timers st') = []
  /\ scrollTimeoutRef st' = None
  /\ forall t, advanceTo p t st' = setTimers (setClock t (timers st')) st'.
Proof.
  intros Hown st'. destruct (handleItemClick_clears p index st Hown) as [Hp Hr].
  split; [exact Hp|]. split; [exact Hr|].
  intros t. apply advanceTo_idle. subst st'. rewrite Hp. reflexivity.
Qed.

Lemma item_click_cancels_debounce_witness :
  let p := Samples.planProps in
  let st := scrollEvent p 0 112%Q (Samples.openState p) in
  OwnsTimers st
  /\ pending (timers st) <> []
  /\ pending (timers (handleItemClick p 3 st)) = []
  /\ scrollTimeoutRef (handleItemClick p 3 st) = None.
Proof.
  cbv zeta.
  set (st := scrollEvent Samples.planProps 0 112%Q (Samples.openState Samples.planProps)).
  assert (H : OwnsTimers st) by (repeat constructor).
  split; [exact H|]. split; [discriminate|].
  destruct (item_click_cancels_debounce Samples.planProps 3 st H) as (H1 & H2 & _).
  split; assumption.
Defined.

(** Where a step can touch the timers. *)
Lemma step_keeps_or_timer p st st' :
  Step p st st' ->
  KeepsTimers st st'
  \/ (exists i, st' = handleItemClick p i st)
  \/ (exists gap s, st' = scrollEvent p gap s st)
  \/ (exists t, st' = advanceTo p t st).
Proof.
  intros Hstep. destruct Hstep.
  - left. apply openPicker_keeps.
  - left. destruct m; cbn [handle].
    + apply openPicker_keeps.
    + apply closePicker_keeps.
    + destruct (isOpen st); [apply closePicker_keeps | apply openPicker_keeps].
    + unfold focusTrigger. keeps.
    + apply scrollItemIntoView_keeps.
  - left. apply handlePickerKeyDown_keeps.
  - right. left. eauto.
  - left. unfold handleBackdropClick.
    destruct (_ && _); [apply closePicker_keeps | split; reflexivity].
  - left. apply call_keeps.
  - left. unfold syncActiveIndex. keeps.
  - left. unfold scrollOnOpenEffect. keeps.
  - left. unfold focusOnOpenEffect. keeps.
  - left. apply runFrames_keeps.
  - left. split; reflexivity.
  - right. right. left. eauto.
  - right. right. right. eauto.
Qed.

Lemma runTimers_length p t : forall fuel st,
  (length (pending (timers (runTimers fuel p t st))) <= length (pending (timers st)))%nat.
Proof.
  induction fuel as [|fuel IH]; intros st; cbn [runTimers]; [lia|].
  destruct (nextDue t (pending (timers st))) as [x|]; [|lia].
  etransitivity; [apply IH|].
  destruct (scrollSettled_keeps p (setTimers (takeTimer x (timers st)) st)) as [Ht _].
  rewrite Ht. cbn [timers setTimers takeTimer pending].
  apply List.filter_length_le.
Qed.

Lemma OneTimer_step p st st' : Step p st st' -> OneTimer st -> OneTimer st'.
Proof.
  intros Hstep [Hown Hlen]. split; [exact (OwnsTimers_step p st st' Hstep Hown)|].
  destruct (step_keeps_or_timer p st st' Hstep)
    as [[Ht _] | [(i & ->) | [(gap & s & ->) | (t & ->)]]].
  - rewrite Ht. exact Hlen.
  - destruct (handleItemClick_clears p i st Hown) as (Hp & _).
    rewrite Hp. cbn. lia.
  - unfold scrollEvent.
    set (st1 := assignScrollTop s (advanceTo p (now (timers st) + gap) st)).
    assert (Hown1 : OwnsTimers st1).
    { eapply KeepsTimers_owns; [apply assignScrollTop_keeps|].
      apply advanceTo_owns. exact Hown. }
    destruct (handleScroll_timers p st1) as (Hp & _). cbn zeta in Hp. rewrite Hp.
    destruct (scrollTimeoutRef st1) as [id|] eqn:Href.
    + unfold OwnsTimers in Hown1. rewrite Href in Hown1.
      rewrite (filter_owned id _ Hown1). cbn. lia.
    + rewrite (OwnsTimers_no_ref st1 Hown1 Href). cbn. lia.
  - unfold advanceTo. cbn [timers setTimers setClock pending].
    etransitivity; [apply runTimers_length | exact Hlen].
Qed.

(** X8.  From a widget with no timer pending, whatever happens, at most
    one debounce timer is pending at any time, and it is the one
    [scrollTimeoutRef] holds. *)
Theorem one_timer_reachable p st0 st :
  pending (timers st0) = [] ->
  Reachable p st0 st ->
  OneTimer st.
Proof.
  intros H0 Hr. induction Hr as [|st st' _ IH Hstep].
  - split; [unfold OwnsTimers; rewrite H0; constructor | rewrite H0; cbn; lia].
  - exact (OneTimer_step p st st' Hstep IH).
Qed.

Lemma one_timer_reachable_witness :
  let p := Samples.planProps in
  let st0 := Samples.closedState p in
  let st := scrollEvent p 20 60%Q (scrollEvent p 0 10%Q (triggerClick p st0)) in
  pending (timers st0) = []
  /\ Reachable p st0 st
  /\ OneTimer st.
Proof.
  cbv zeta.
  assert (H0 : pending (timers (Samples.closedState Samples.planProps)) = [])
    by reflexivity.
  assert (Hr : Reachable Samples.planProps (Samples.closedState Samples.planProps)
                 (scrollEvent Samples.planProps 20 60%Q
                    (scrollEvent Samples.planProps 0 10%Q
                       (triggerClick Samples.planProps
                          (Samples.closedState Samples.planProps))))).
  { eapply ReachedStep; [eapply ReachedStep; [eapply ReachedStep;
      [apply ReachedStart | apply StepTrigger] | apply StepScroll] | apply StepScroll]. }
  split; [exact H0|]. split; [exact Hr|].
  exact (one_timer_reachable _ _ _ H0 Hr).
Defined.

End ClosingAndTimers.

(* ===================================================================== *)
(** ** The active index and the trigger rectangle across the widget's life *)
(* ===================================================================== *)

Section ActiveIndexAndRect.

Import Config Dom Wheel.
Open Scope Z_scope.

Implicit Types (p : WheelSelectProps) (st : State).

Lemma findIndex_ge {A} (f : A -> bool) (l : list A) : -1 <= findIndex f l.
Proof.
  destruct (findIndex_spec f l) as [[H _] | (H & _)]; cbn zeta in *; lia.
Qed.

Lemma targetIndexOf_nonneg p : 0 <= targetIndexOf p.
Proof.
  unfold targetIndexOf.
  pose proof (findIndex_ge (hasValue (value p)) (options p)).
  destruct (Z.eqb_spec (findIndex (hasValue (value p)) (options p)) (-1)); lia.
Qed.

(** The scan never ends on a negative index. *)
Lemma forEachItem_index_nonneg c : forall items k acc,
  0 <= k -> 0 <= fst acc -> 0 <= fst (forEachItem c items k acc).
Proof.
  induction items as [|item items IH]; intros k acc Hk Hacc; cbn [forEachItem];
    [exact Hacc|].
  apply IH; [lia|]. unfold visitItem. destruct item as [it|]; [|exact Hacc].
  cbv zeta. destruct (belowDistance _ _); [exact Hk | exact Hacc].
Qed.

Lemma calculateActiveFromScroll_nonneg p st :
  0 <= activeIndex st -> 0 <= activeIndex (calculateActiveFromScroll p st).
Proof.
  intros H. destruct (wheelRef st) as [w|] eqn:Hw.
  - rewrite (calculateActiveFromScroll_activeIndex p st w Hw).
    unfold closestIndexOf. apply forEachItem_index_nonneg; cbn; lia.
  - unfold calculateActiveFromScroll. rewrite Hw. exact H.
Qed.

Lemma runTimers_nonneg p t : forall fuel st,
  0 <= activeIndex st -> 0 <= activeIndex (runTimers fuel p t st).
Proof.
  induction fuel as [|fuel IH]; intros st H; cbn [runTimers]; [exact H|].
  destruct (nextDue t (pending (timers st))) as [x|]; [|exact H].
  apply IH. unfold scrollSettled. apply calculateActiveFromScroll_nonneg. exact H.
Qed.

Lemma advanceTo_nonneg p t st :
  0 <= activeIndex st -> 0 <= activeIndex (advanceTo p t st).
Proof. intros H. unfold advanceTo. exact (runTimers_nonneg p t _ st H). Qed.

Lemma runFrames_activeIndex st : activeIndex (runFrames st) = activeIndex st.
Proof.
  unfold runFrames.
  assert (H : forall l st1, activeIndex st1 = activeIndex st ->
            activeIndex (fold_left (fun st i => centerOnFrame i st) l st1)
            = activeIndex st).
  { induction l as [|i l IH]; intros st1 H1; cbn [fold_left]; [exact H1|].
    apply IH. rewrite <- H1. unfold centerOnFrame.
    destruct (wheelRef st1); [|reflexivity].
    destruct (itemAt st1 i); [|reflexivity].
    destruct (assignScrollTop_frame
                (itemOffsetTop i0 - wheelClientHeight w / 2 + itemClientHeight i0 / 2)
                st1) as (_ & _ & Ha & _). exact Ha. }
  apply H. reflexivity.
Qed.

Lemma handlePickerKeyDown_nonneg p key st :
  0 <= activeIndex st -> 0 <= activeIndex (handlePickerKeyDown p key st).
Proof.
  intros Hb. unfold handlePickerKeyDown.
  destruct (negb (flag p "keyboardNavigation")); [exact Hb|].
  set (st1 := callIf (has p onKeyDown) (CbOnKeyDown key) st).
  assert (H1 : activeIndex st1 = activeIndex st) by apply activeIndex_callIf.
  assert (Hpd : activeIndex (call PreventDefault st1) = activeIndex st) by exact H1.
  destruct (String.eqb key "Escape").
  { destruct (flag p "closeOnEscape"); [|rewrite H1; exact Hb].
    destruct (closePicker_frame p (call PreventDefault st1)) as (-> & _).
    rewrite Hpd. exact Hb. }
  destruct (String.eqb key "ArrowUp").
  { rewrite arrowUp_activeIndex. cbn zeta. rewrite Hpd.
    destruct (Z.ltb_spec (skipDisabledUp (options p) (activeIndex st - 1)) 0); lia. }
  destruct (String.eqb key "ArrowDown").
  { rewrite arrowDown_activeIndex. cbn zeta. rewrite Hpd.
    destruct (skipDisabledDown_spec (options p) (activeIndex st + 1)) as (Hle & _).
    cbn zeta in Hle.
    destruct (Z.geb_spec (skipDisabledDown (options p) (activeIndex st + 1))
                (lengthZ (options p))); lia. }
  destruct (String.eqb key "Enter" || String.eqb key " ").
  { rewrite commitAt_activeIndex, Hpd. exact Hb. }
  destruct (String.eqb key "Home").
  { rewrite jumpTo_activeIndex, Hpd.
    pose proof (findIndex_ge (fun o => negb (isDisabled o)) (options p)).
    destruct (Z.eqb_spec (findIndex (fun o => negb (isDisabled o)) (options p)) (-1));
      lia. }
  destruct (String.eqb key "End").
  { rewrite jumpTo_activeIndex, Hpd.
    destruct (findLastIndex_spec (fun o => negb (isDisabled o)) (options p))
      as [[-> _] | (Hr & _)]; [exact Hb|].
    destruct (Z.eqb_spec (findLastIndex (fun o => negb (isDisabled o)) (options p)) (-1));
      lia. }
  rewrite H1. exact Hb.
Qed.

Lemma openPicker_nonneg p st :
  0 <= activeIndex st -> 0 <= activeIndex (openPicker p st).
Proof.
  intros H. unfold openPicker. destruct (disabled p); [exact H|].
  fold (targetIndexOf p). rewrite activeIndex_callIf. cbn.
  apply targetIndexOf_nonneg.
Qed.

Lemma activeIndex_step_nonneg p st st' :
  Step p st st' -> 0 <= activeIndex st -> 0 <= activeIndex st'.
Proof.
  intros Hstep H. destruct Hstep.
  - apply openPicker_nonneg. exact H.
  - destruct m; cbn [handle].
    + apply openPicker_nonneg. exact H.
    + destruct (closePicker_frame p st) as (-> & _). exact H.
    + destruct (isOpen st); [|apply openPicker_nonneg; exact H].
      destruct (closePicker_frame p st) as (-> & _). exact H.
    + unfold focusTrigger. destruct (triggerRef st); exact H.
    + unfold scrollToIndex, scrollItemIntoView. destruct (itemAt st index); exact H.
  - apply handlePickerKeyDown_nonneg. exact H.
  - unfold handleItemClick. rewrite commitAt_activeIndex.
    destruct (scrollTimeoutRef _); exact H.
  - unfold handleBackdropClick. destruct (_ && _); [|exact H].
    destruct (closePicker_frame p st) as (-> & _). exact H.
  - exact H.
  - unfold syncActiveIndex.
    pose proof (findIndex_ge (hasValue (value p)) (options p)).
    destruct (Z.eqb_spec (findIndex (hasValue (value p)) (options p)) (-1));
      [exact H | cbn; lia].
  - unfold scrollOnOpenEffect. destruct (isOpen st); [|exact H].
    destruct (initialScrollIndexRef st); exact H.
  - unfold focusOnOpenEffect. destruct (isOpen st); [|exact H].
    destruct (wheelRef st); exact H.
  - rewrite runFrames_activeIndex. exact H.
  - exact H.
  - unfold scrollEvent.
    destruct (handleScroll_timers p
                (assignScrollTop s (advanceTo p (now (timers st) + gap) st)))
      as (_ & _ & _ & _ & _ & _ & -> & _).
    destruct (assignScrollTop_frame s (advanceTo p (now (timers st) + gap) st))
      as (_ & _ & -> & _).
    apply advanceTo_nonneg. exact H.
  - apply advanceTo_nonneg. exact H.
Qed.

(** X9.  The active index is never negative: it is not at mount
    ([Math.max(0, ..)]), and from a state where it is not, nothing that
    happens to the widget makes it so. *)
Theorem active_index_never_negative p st0 st :
  0 <= activeIndex st0 ->
  Reachable p st0 st ->
  0 <= activeIndex st /\ 0 <= initialActiveIndex p.
Proof.
  intros H0 Hr. split; [|unfold initialActiveIndex; lia].
  induction Hr as [|st st' _ IH Hstep]; [exact H0|].
  exact (activeIndex_step_nonneg p st st' Hstep IH).
Qed.

Lemma active_index_never_negative_witness :
  let p := Samples.abcProps in
  let st0 := Samples.closedState p in
  let st := handlePickerKeyDown p "ArrowUp" (triggerClick p st0) in
  0 <= activeIndex st0
  /\ Reachable p st0 st
  /\ 0 <= activeIndex st.
Proof.
  cbv zeta.
  assert (H0 : 0 <= activeIndex (Samples.closedState Samples.abcProps))
    by (vm_compute; discriminate).
  assert (Hr : Reachable Samples.abcProps (Samples.closedState Samples.abcProps)
                 (handlePickerKeyDown Samples.abcProps "ArrowUp"
                    (triggerClick Samples.abcProps
                       (Samples.closedState Samples.abcProps)))).
  { eapply ReachedStep; [eapply ReachedStep;
      [apply ReachedStart | apply StepTrigger] | apply StepKey]. }
  split; [exact H0|]. split; [exact Hr|].
  exact (proj1 (active_index_never_negative _ _ _ H0 Hr)).
Defined.

(** The scan over items none of which is on the page keeps what it had. *)
Lemma forEachItem_none c : forall items k acc,
  Forall (fun x => x = None) items -> forEachItem c items k acc = acc.
Proof.
  induction items as [|item items IH]; intros k acc H; cbn [forEachItem];
    [reflexivity|].
  inversion H as [|? ? Hi Hrest]; subst. cbn [visitItem]. apply IH. exact Hrest.
Qed.

(** X10.  With the wheel on the page and no item rendered (the item refs
    empty or all null), the recomputation falls back to index 0 and, when
    there is a first option, notifies the active change with it. *)
Theorem recompute_without_items p st w :
  wheelRef st = Some w ->
  Forall (fun x => x = None) (itemRefs st) ->
  let st' := calculateActiveFromScroll p st in
  activeIndex st' = 0
  /\ calls st' = calls st
                 ++ match nthZ (options p) 0 with
                    | Some o => if has p onActiveChange
                                then [CbOnActiveChange 0 o] else []
                    | None => []
                    end.
Proof.
  intros Hw Hnone st'. subst st'.
  assert (Hc : closestIndexOf w (itemRefs st) = 0).
  { unfold closestIndexOf. rewrite forEachItem_none by exact Hnone. reflexivity. }
  split.
  - rewrite (calculateActiveFromScroll_activeIndex p st w Hw). exact Hc.
  - unfold calculateActiveFromScroll. rewrite Hw, Hc.
    destruct (nthZ (options p) 0) as [o|]; cbn.
    + unfold callIf. destruct (has p onActiveChange); cbn;
        [reflexivity | symmetry; apply app_nil_r].
    + symmetry. apply app_nil_r.
Qed.

Lemma recompute_without_items_witness :
  let p := Samples.planProps in
  let st := setActiveIndex 2 (setWheel (Some Samples.wheelBox) [None; None]
                                (Samples.openState p)) in
  wheelRef st = Some Samples.wheelBox
  /\ Forall (fun x => x = None) (itemRefs st)
  /\ activeIndex st = 2
  /\ activeIndex (calculateActiveFromScroll p st) = 0.
Proof.
  cbv zeta.
  set (st := setActiveIndex 2 (setWheel (Some Samples.wheelBox) [None; None]
                                 (Samples.openState Samples.planProps))).
  assert (Hw : wheelRef st = Some Samples.wheelBox) by reflexivity.
  assert (Hn : Forall (fun x : option ItemEl => x = None) (itemRefs st))
    by (repeat constructor).
  split; [exact Hw|]. split; [exact Hn|]. split; [reflexivity|].
  exact (proj1 (recompute_without_items Samples.planProps st Samples.wheelBox Hw Hn)).
Defined.

End ActiveIndexAndRect.

(* ===================================================================== *)
(** ** Opening: the frame, the rectangle, the index *)
(* ===================================================================== *)

Section Opening.

Import Config Dom Wheel.
Open Scope Z_scope.

Implicit Types (p : WheelSelectProps) (st : State).

Lemma setFrames_nil_id st : frames st = [] -> setFrames [] st = st.
Proof. destruct st. cbn. intros ->. reflexivity. Qed.

Lemma centerOnFrame_frames i st : frames (centerOnFrame i st) = frames st.
Proof.
  unfold centerOnFrame, assignScrollTop.
  destruct (wheelRef st); [|reflexivity]. destruct (itemAt st i); reflexivity.
Qed.

Lemma runFrames_frames st : frames (runFrames st) = [].
Proof.
  unfold runFrames.
  assert (H : forall l st1, frames st1 = [] ->
            frames (fold_left (fun st i => centerOnFrame i st) l st1) = []).
  { induction l as [|i l IH]; intros st1 H1; cbn [fold_left]; [exact H1|].
    apply IH. rewrite centerOnFrame_frames. exact H1. }
  apply H. reflexivity.
Qed.

(** X11.  The open effect is one-shot.  Run after [openPicker] on a
    widget that is not disabled, it hands the target index to one animation
    frame and empties the ref; run again, it changes nothing; on a closed
    picker it does nothing.  The frame runs the callbacks it was given and
    keeps none; a callback that finds no wheel, or no item at its index,
    leaves the state as it is. *)
Theorem open_effect_one_shot p st :
  scrollOnOpenEffect (scrollOnOpenEffect st) = scrollOnOpenEffect st
  /\ (disabled p = false ->
      frames (scrollOnOpenEffect (openPicker p st)) = frames st ++ [targetIndexOf p]
      /\ initialScrollIndexRef (scrollOnOpenEffect (openPicker p st)) = None)
  /\ (isOpen st = false -> scrollOnOpenEffect st = st)
  /\ frames (runFrames st) = []
  /\ runFrames (runFrames st) = runFrames st
  /\ (forall i, wheelRef st = None \/ itemAt st i = None -> centerOnFrame i st = st).
Proof.
  split; [|split; [|split; [|split; [|split]]]].
  - unfold scrollOnOpenEffect. destruct (isOpen st) eqn:Ho; [|rewrite Ho; reflexivity].
    destruct (initialScrollIndexRef st) eqn:Hi; cbn; rewrite Ho; cbn;
      [reflexivity | rewrite Hi; reflexivity].
  - intros Hd. unfold openPicker. rewrite Hd. fold (targetIndexOf p).
    unfold scrollOnOpenEffect, callIf.
    destruct (has p onOpen), (triggerRef st); cbn; split; reflexivity.
  - intros Ho. unfold scrollOnOpenEffect. rewrite Ho. reflexivity.
  - apply runFrames_frames.
  - unfold runFrames at 1. rewrite runFrames_frames. cbn [fold_left].
    apply setFrames_nil_id. apply runFrames_frames.
  - intros i [Hw | Hi]; unfold centerOnFrame.
    + rewrite Hw. reflexivity.
    + rewrite Hi. destruct (wheelRef st); reflexivity.
Qed.

(** The trigger rectangle through the handlers that do not open. *)
Lemma closePicker_rect p st : triggerRect (closePicker p st) = triggerRect st.
Proof. unfold closePicker, callIf, focusTrigger. call_cases; reflexivity. Qed.

Lemma commitAt_rect p i st : triggerRect (commitAt p i st) = triggerRect st.
Proof.
  unfold commitAt, commitSelection, callIf, focusTrigger. call_cases; reflexivity.
Qed.

Lemma scrollItemIntoView_rect i st :
  triggerRect (scrollItemIntoView i st) = triggerRect st.
Proof. unfold scrollItemIntoView. call_cases; reflexivity. Qed.

Lemma handlePickerKeyDown_rect p key st :
  triggerRect (handlePickerKeyDown p key st) = triggerRect st.
Proof.
  unfold handlePickerKeyDown.
  destruct (negb (flag p "keyboardNavigation")); [reflexivity|].
  set (st1 := callIf (has p onKeyDown) (CbOnKeyDown key) st).
  assert (H1 : triggerRect st1 = triggerRect st)
    by (subst st1; destruct (has p onKeyDown); reflexivity).
  assert (Hpd : triggerRect (call PreventDefault st1) = triggerRect st) by exact H1.
  destruct (String.eqb key "Escape").
  { destruct (flag p "closeOnEscape"); [|exact H1].
    rewrite closePicker_rect. exact Hpd. }
  destruct (String.eqb key "ArrowUp").
  { unfold arrowUp. destruct (_ <? 0); cbn [triggerRect setActiveIndex];
      rewrite ?scrollItemIntoView_rect; exact Hpd. }
  destruct (String.eqb key "ArrowDown").
  { unfold arrowDown. destruct (_ >=? _); cbn [triggerRect setActiveIndex];
      rewrite ?scrollItemIntoView_rect; exact Hpd. }
  destruct (String.eqb key "Enter" || String.eqb key " ").
  { rewrite commitAt_rect. exact Hpd. }
  destruct (String.eqb key "Home").
  { unfold jumpTo. destruct (_ =? -1); [exact Hpd|].
    rewrite scrollItemIntoView_rect. exact Hpd. }
  destruct (String.eqb key "End").
  { unfold jumpTo. destruct (_ =? -1); [exact Hpd|].
    rewrite scrollItemIntoView_rect. exact Hpd. }
  exact H1.
Qed.

Lemma assignScrollTop_rect s st : triggerRect (assignScrollTop s st) = triggerRect st.
Proof. unfold assignScrollTop. destruct (wheelRef st); reflexivity. Qed.

Lemma runFrames_rect st : triggerRect (runFrames st) = triggerRect st.
Proof.
  unfold runFrames.
  assert (H : forall l st1, triggerRect st1 = triggerRect st ->
            triggerRect (fold_left (fun st i => centerOnFrame i st) l st1)
            = triggerRect st).
  { induction l as [|i l IH]; intros st1 H1; cbn [fold_left]; [exact H1|].
    apply IH. rewrite <- H1. unfold centerOnFrame.
    destruct (wheelRef st1); [|reflexivity].
    destruct (itemAt st1 i); [apply assignScrollTop_rect | reflexivity]. }
  apply H. reflexivity.
Qed.

Lemma calculateActiveFromScroll_rect p st :
  triggerRect (calculateActiveFromScroll p st) = triggerRect st.
Proof. unfold calculateActiveFromScroll, callIf. call_cases; reflexivity. Qed.

Lemma runTimers_rect p t : forall fuel st,
  triggerRect (runTimers fuel p t st) = triggerRect st.
Proof.
  induction fuel as [|fuel IH]; intros st; cbn [runTimers]; [reflexivity|].
  destruct (nextDue t (pending (timers st))) as [x|]; [|reflexivity].
  rewrite IH. unfold scrollSettled. rewrite calculateActiveFromScroll_rect.
  reflexivity.
Qed.

Lemma advanceTo_rect p t st : triggerRect (advanceTo p t st) = triggerRect st.
Proof. unfold advanceTo. cbn [triggerRect setTimers]. apply runTimers_rect. Qed.

Lemma handleScroll_rect p st : triggerRect (handleScroll p st) = triggerRect st.
Proof. unfold handleScroll. destruct (scrollTimeoutRef _); reflexivity. Qed.

Lemma openPicker_rect p st :
  triggerRect (openPicker p st)
  = if disabled p then triggerRect st
    else match triggerRef st with Some r => Some r | None => triggerRect st end.
Proof.
  unfold openPicker, callIf.
  destruct (disabled p); [reflexivity|].
  destruct (has p onOpen), (triggerRef st); reflexivity.
Qed.

(** X12.  The trigger rectangle is a snapshot taken at opening.  Of all
    that can happen to the widget, only an opening on a widget that is not
    disabled and whose trigger element is there measures it anew; any other
    step leaves the rectangle as it was.  So the picker is rendered after
    an opening exactly when the trigger element is there or a rectangle was
    measured before: opened with neither, the open flag is set and nothing
    is rendered. *)
Theorem trigger_rect_snapshot p st :
  (forall st', Step p st st' ->
     triggerRect st' = triggerRect st
     \/ (disabled p = false
         /\ isOpen st' = true
         /\ exists r, triggerRef st = Some r /\ triggerRect st' = Some r))
  /\ (disabled p = false ->
      isOpen (openPicker p st) = true
      /\ pickerRendered (openPicker p st)
         = match triggerRef st, triggerRect st with
           | None, None => false
           | _, _ => true
           end).
Proof.
  assert (Hopen : forall s,
            triggerRect (openPicker p s) = triggerRect s
            \/ (disabled p = false
                /\ isOpen (openPicker p s) = true
                /\ exists r, triggerRef s = Some r
                             /\ triggerRect (openPicker p s) = Some r)).
  { intros s. rewrite openPicker_rect. destruct (disabled p) eqn:Hd; [left; reflexivity|].
    destruct (triggerRef s) as [r|] eqn:Hr; [|left; reflexivity].
    right. split; [reflexivity|]. split; [|eauto].
    unfold openPicker, callIf. rewrite Hd, Hr. destruct (has p onOpen); reflexivity. }
  split.
  - intros st' Hstep. destruct Hstep.
    + apply Hopen.
    + destruct m; cbn [handle].
      * apply Hopen.
      * left. apply closePicker_rect.
      * destruct (isOpen st); [left; apply closePicker_rect | apply Hopen].
      * left. unfold focusTrigger. destruct (triggerRef st); reflexivity.
      * left. apply scrollItemIntoView_rect.
    + left. apply handlePickerKeyDown_rect.
    + left. unfold handleItemClick. rewrite commitAt_rect.
      destruct (scrollTimeoutRef _); reflexivity.
    + left. unfold handleBackdropClick.
      destruct (_ && _); [apply closePicker_rect | reflexivity].
    + left. reflexivity.
    + left. unfold syncActiveIndex. destruct (_ =? -1); reflexivity.
    + left. unfold scrollOnOpenEffect. destruct (isOpen st); [|reflexivity].
      destruct (initialScrollIndexRef st); reflexivity.
    + left. unfold focusOnOpenEffect. destruct (isOpen st); [|reflexivity].
      destruct (wheelRef st); reflexivity.
    + left. apply runFrames_rect.
    + left. reflexivity.
    + left. unfold scrollEvent.
      rewrite handleScroll_rect, assignScrollTop_rect. apply advanceTo_rect.
    + left. apply advanceTo_rect.
  - intros Hd.
    assert (Ho : isOpen (openPicker p st) = true).
    { unfold openPicker, callIf. rewrite Hd.
      destruct (has p onOpen), (triggerRef st); reflexivity. }
    split; [exact Ho|].
    unfold pickerRendered. rewrite Ho, openPicker_rect, Hd.
    destruct (triggerRef st), (triggerRect st); reflexivity.
Qed.

(** X13.  The active index at mount, [Math.max(0, idx)], is the index an
    opening aims at, [idx !== -1 ? idx : 0]; it is an index of the options
    when there are options.  The effect on a change of value moves the
    active index to that index when the value is the value of an option
    and leaves it where it is when it is not, where an opening would put
    it at 0. *)
Theorem initial_index_is_target p st :
  initialActiveIndex p = targetIndexOf p
  /\ (options p <> [] -> 0 <= initialActiveIndex p < lengthZ (options p))
  /\ ((exists o, o ∈ options p /\ Opt.value o = value p) ->
      activeIndex (syncActiveIndex p st) = targetIndexOf p)
  /\ ((forall o, o ∈ options p -> Opt.value o <> value p) ->
      syncActiveIndex p st = st /\ targetIndexOf p = 0).
Proof.
  unfold initialActiveIndex, targetIndexOf, syncActiveIndex.
  destruct (findIndex_spec (hasValue (value p)) (options p))
    as [[Hi Hall] | (Hi & (x & Hx & Hfx) & _)]; cbn zeta in *.
  - rewrite Hi. cbn. split; [reflexivity|]. split; [|split].
    + intros Hne. destruct (options p) as [|o l]; [congruence|].
      unfold lengthZ. cbn [length]. lia.
    + intros (o & Ho & Hv). specialize (Hall o Ho). unfold hasValue in Hall.
      apply String.eqb_neq in Hall. contradiction.
    + intros _. split; reflexivity.
  - destruct (Z.eqb_spec (findIndex (hasValue (value p)) (options p)) (-1)); [lia|].
    split; [lia|]. split; [intros _; lia|]. split; [intros _; reflexivity|].
    intros Hall. exfalso.
    apply nthZ_Some in Hx as [_ Hx]. apply list_elem_of_lookup_2 in Hx.
    apply (Hall x Hx). apply String.eqb_eq. exact Hfx.
Qed.

End Opening.

(* ===================================================================== *)
(** ** More on the configuration *)
(* ===================================================================== *)

Section ConfigurationAlgebra.

Import Config Dom Wheel.

Implicit Types (target : JsVal) (source result : gmap string JsVal).
Implicit Types (key : string).

(** A field nests less deep than its object. *)
Lemma depth_field (m : gmap string JsVal) key v :
  m !! key = Some v -> (depth v < depth (JObj m))%nat.
Proof.
  intros H. cbn [depth]. apply Nat.lt_succ_r. revert key v H.
  apply (map_fold_weak_ind
           (fun r (m : gmap string JsVal) =>
              forall key v, m !! key = Some v -> (depth v <= r)%nat)).
  - intros key v H. rewrite lookup_empty in H. discriminate.
  - intros i x m0 r Hi IH key v H.
    destruct (decide (i = key)) as [-> | Hne].
    + rewrite lookup_insert_eq in H. inversion H; subst. lia.
    + rewrite lookup_insert_ne in H by assumption. specialize (IH key v H). lia.
Qed.

Lemma mergeDeep_twice : forall n source,
  (depth (JObj source) <= n)%nat ->
  forall target result,
    mergeDeep target source = Returns result ->
    mergeDeep (JObj result) source = Returns result.
Proof.
  induction n as [|n IH]; intros source Hd target result H.
  - cbn [depth] in Hd. lia.
  - apply mergeDeep_lookup. intros key.
    pose proof (proj1 (mergeDeep_lookup _ _ _) H key) as Hk.
    destruct (source !! key) as [v|] eqn:Hs; [|reflexivity].
    destruct v as [| | | | | |m]; try exact Hk; try reflexivity.
    destruct Hk as (Hne & tv & r & _ & Hm & Hres). split; [exact Hne|].
    exists (JObj r), r. cbn [readField]. rewrite Hres.
    split; [reflexivity|]. split; [|reflexivity].
    apply (IH m) with (target := tv); [|exact Hm].
    pose proof (depth_field source key (JObj m) Hs). lia.
Qed.

(** X14.  Among the merges that return: merging the same override onto
    the result changes nothing; merging an empty override gives the
    defaults back; no key of the defaults is lost; and a key is missing
    from the result only when the defaults do not have it and the override
    gives it no value. *)
Theorem mergeDeep_algebra :
  (forall target source result,
     mergeDeep target source = Returns result ->
     mergeDeep (JObj result) source = Returns result)
  /\ (forall target, mergeDeep target ∅ = Returns (spread target))
  /\ (forall target source result key,
        mergeDeep target source = Returns result ->
        is_Some (spread target !! key) -> is_Some (result !! key))
  /\ (forall target source result key,
        mergeDeep target source = Returns result ->
        (result !! key = None
         <-> spread target !! key = None
             /\ (source !! key = None \/ source !! key = Some JUndefined))).
Proof.
  split; [intros target source result; eapply mergeDeep_twice; reflexivity|].
  split; [exact mergeDeep_empty|].
  split.
  - intros target source result key H Ht.
    pose proof (proj1 (mergeDeep_lookup _ _ _) H key) as Hk.
    destruct (source !! key) as [[| | | | | |m]|];
      try (rewrite Hk; exact Ht);
      try (destruct Hk as [_ Hk]; rewrite Hk; eauto).
    destruct Hk as (_ & tv & r & _ & _ & Hk). rewrite Hk. eauto.
  - intros target source result key H.
    pose proof (proj1 (mergeDeep_lookup _ _ _) H key) as Hk.
    destruct (source !! key) as [[| | | | | |m]|] eqn:Hs;
      try (rewrite Hk; split; [intros Hn; split; [exact Hn | auto]
                              | intros [Hn _]; exact Hn]);
      try (destruct Hk as [_ Hk]; rewrite Hk; split;
             [discriminate | intros [_ [Hn | Hn]]; discriminate Hn]).
    destruct Hk as (_ & tv & r & _ & _ & Hk). rewrite Hk. split;
      [discriminate | intros [_ [Hn | Hn]]; discriminate Hn].
Qed.

(** X15.  The spacer is what centring needs.  On a wheel as high as the
    sizing says, whose items are as high as the sizing says, an item that
    starts [k] below the spacer is centred by the scroll position [k]: 0
    for the first item.  In the merged sizing a size given as a number is
    used as given; a size given as a string, whatever the string, falls
    back to 320 for the wheel and to 56 for an option, so that two strings
    give the spacer of the defaults, 132. *)
Theorem spacer_centres sizing i k st w it :
  wheelRef st = Some w ->
  itemAt st i = Some it ->
  (wheelClientHeight w == inject_Z (numberOr (sizing !! "wheelHeight") 320))%Q ->
  (itemClientHeight it == inject_Z (numberOr (sizing !! "optionHeight") 56))%Q ->
  (itemOffsetTop it == spacerHeight sizing + k)%Q ->
  (exists w', wheelRef (centerOnFrame i st) = Some w'
              /\ (wheelScrollTop w' == k)%Q)
  /\ (forall override merged n,
        mergeDeep (JObj defaultSizing) override = Returns merged ->
        override !! "wheelHeight" = Some (JNum n) ->
        numberOr (merged !! "wheelHeight") 320 = n)
  /\ (forall override merged n,
        mergeDeep (JObj defaultSizing) override = Returns merged ->
        override !! "optionHeight" = Some (JNum n) ->
        numberOr (merged !! "optionHeight") 56 = n)
  /\ (forall override merged s,
        mergeDeep (JObj defaultSizing) override = Returns merged ->
        override !! "wheelHeight" = Some (JStr s) ->
        numberOr (merged !! "wheelHeight") 320 = 320)
  /\ (forall override merged s,
        mergeDeep (JObj defaultSizing) override = Returns merged ->
        override !! "optionHeight" = Some (JStr s) ->
        numberOr (merged !! "optionHeight") 56 = 56)
  /\ (forall override merged s1 s2,
        mergeDeep (JObj defaultSizing) override = Returns merged ->
        override !! "wheelHeight" = Some (JStr s1) ->
        override !! "optionHeight" = Some (JStr s2) ->
        (spacerHeight merged == 132)%Q)
  /\ (exists merged,
        mergeDeep (JObj defaultSizing)
          {[ "wheelHeight" := JStr "50vh"; "optionHeight" := JStr "3rem" ]}
        = Returns merged
        /\ (spacerHeight merged == 132)%Q).
Proof.
  intros Hw Hi Hwh Hih Hoff.
  assert (Hfield : forall override merged key v,
            mergeDeep (JObj defaultSizing) override = Returns merged ->
            override !! key = Some v ->
            isPlainObject v = false -> v <> JUndefined ->
            merged !! key = Some v).
  { intros override merged key v Hm Ho Hp Hu.
    pose proof (proj1 (mergeDeep_lookup _ _ _) Hm key) as Hk. rewrite Ho in Hk.
    destruct v; try discriminate Hp; try contradiction; exact (proj2 Hk). }
  split; [|split; [|split; [|split; [|split; [|split]]]]].
  - unfold centerOnFrame. rewrite Hw, Hi. unfold assignScrollTop. rewrite Hw.
    eexists. split; [reflexivity|]. cbn [wheelScrollTop setScrollTop].
    unfold spacerHeight in Hoff. cbv zeta in Hoff. halves. lra.
  - intros override merged n Hm Ho.
    rewrite (Hfield _ _ _ _ Hm Ho); [reflexivity | reflexivity | discriminate].
  - intros override merged n Hm Ho.
    rewrite (Hfield _ _ _ _ Hm Ho); [reflexivity | reflexivity | discriminate].
  - intros override merged s Hm Ho.
    rewrite (Hfield _ _ _ _ Hm Ho); [reflexivity | reflexivity | discriminate].
  - intros override merged s Hm Ho.
    rewrite (Hfield _ _ _ _ Hm Ho); [reflexivity | reflexivity | discriminate].
  - intros override merged s1 s2 Hm H1 H2. unfold spacerHeight.
    rewrite (Hfield _ _ _ _ Hm H1), (Hfield _ _ _ _ Hm H2);
      [reflexivity | reflexivity | discriminate | reflexivity | discriminate].
  - eexists. split; [vm_compute; reflexivity|]. vm_compute. reflexivity.
Qed.

Lemma spacer_centres_witness :
  let st := Samples.openState Samples.planProps in
  wheelRef st = Some Samples.wheelBox
  /\ itemAt st 2 = Some (Samples.itemBox 2)
  /\ (exists w', wheelRef (centerOnFrame 2 st) = Some w'
                 /\ (wheelScrollTop w' == 112)%Q).
Proof.
  cbv zeta.
  assert (Hw : wheelRef (Samples.openState Samples.planProps) = Some Samples.wheelBox)
    by reflexivity.
  assert (Hi : itemAt (Samples.openState Samples.planProps) 2 = Some (Samples.itemBox 2))
    by reflexivity.
  split; [exact Hw|]. split; [exact Hi|].
  exact (proj1 (spacer_centres defaultSizing 2 112%Q
                  (Samples.openState Samples.planProps) Samples.wheelBox
                  (Samples.itemBox 2) Hw Hi
                  ltac:(reflexivity) ltac:(reflexivity) ltac:(reflexivity))).
Defined.

(** X16.  The trigger and the native select agree.  When an option has
    the external value, the trigger shows the label of the first such
    option and the native select holds one [<option>] per option, in
    order, none more; when none has it, the trigger shows the placeholder
    and the native select starts with one more [<option>], of empty value,
    that shows the placeholder too. *)
Theorem label_and_native_select_agree p placeholder :
  (forall o, selectedOption p = Some o ->
     Opt.value o = value p
     /\ o ∈ options p
     /\ displayLabel p placeholder = Opt.label o
     /\ nativeOptions p placeholder
        = List.map (fun o => mkNative (Opt.value o) (Opt.label o) (isDisabled o))
                   (options p))
  /\ ((forall o, o ∈ options p -> Opt.value o <> value p) ->
      displayLabel p placeholder = placeholder
      /\ nativeOptions p placeholder
         = mkNative "" placeholder false
           :: List.map (fun o => mkNative (Opt.value o) (Opt.label o) (isDisabled o))
                       (options p))
  /\ (selectedOption p = None <-> forall o, o ∈ options p -> Opt.value o <> value p).
Proof.
  assert (Hnone : selectedOption p = None
                  <-> forall o, o ∈ options p -> Opt.value o <> value p).
  { unfold selectedOption. rewrite find_None_iff. unfold hasValue.
    split; intros H o Ho; specialize (H o Ho); apply String.eqb_neq; exact H. }
  split; [|split; [|exact Hnone]].
  - intros o Ho. unfold displayLabel, nativeOptions. rewrite Ho.
    unfold selectedOption, find in Ho. apply List.find_some in Ho as [Hin Hv].
    split; [apply String.eqb_eq; exact Hv|].
    split; [apply list_elem_of_In; exact Hin|]. split; reflexivity.
  - intros Hall. apply Hnone in Hall. unfold displayLabel, nativeOptions.
    rewrite Hall. split; reflexivity.
Qed.

End ConfigurationAlgebra.

(* ===================================================================== *)
(** ** The legacy component's keys *)
(* ===================================================================== *)

Section LegacyKeys.

Import Config Dom Wheel.
Open Scope Z_scope.

Implicit Types (p : Legacy.BaseSelectCompatProps) (st : State).

Lemma legacy_arrowUp_activeIndex st :
  activeIndex (Legacy.arrowUp st) = Z.max 0 (activeIndex st - 1).
Proof. unfold Legacy.arrowUp, scrollItemIntoView. destruct (itemAt _ _); reflexivity. Qed.

Lemma legacy_arrowDown_activeIndex p st :
  activeIndex (Legacy.arrowDown p st)
  = Z.min (lengthZ (Legacy.options p) - 1) (activeIndex st + 1).
Proof. unfold Legacy.arrowDown, scrollItemIntoView. destruct (itemAt _ _); reflexivity. Qed.

(** X17.  The legacy arrow keys clamp.  On a list that is not empty,
    from an active index within bounds, ArrowUp and ArrowDown move by one
    and stop at the first and at the last option.  On an empty list
    ArrowDown puts the active index at -1, where Enter then finds no
    option and calls nothing but [preventDefault]. *)
Theorem legacy_arrows_clamp p st :
  (0 <= activeIndex st < lengthZ (Legacy.options p) ->
   let prev := activeIndex st in
   let up := activeIndex (Legacy.handlePickerKeyDown p "ArrowUp" st) in
   let down := activeIndex (Legacy.handlePickerKeyDown p "ArrowDown" st) in
   0 <= up < lengthZ (Legacy.options p)
   /\ 0 <= down < lengthZ (Legacy.options p)
   /\ (if prev =? 0 then up = 0 else up = prev - 1)
   /\ (if prev =? lengthZ (Legacy.options p) - 1 then down = prev else down = prev + 1))
  /\ (Legacy.options p = [] -> 0 <= activeIndex st ->
      let st' := Legacy.handlePickerKeyDown p "ArrowDown" st in
      activeIndex st' = -1
      /\ Legacy.handlePickerKeyDown p "Enter" st' = call PreventDefault st').
Proof.
  assert (Hup : activeIndex (Legacy.handlePickerKeyDown p "ArrowUp" st)
                = Z.max 0 (activeIndex st - 1)).
  { unfold Legacy.handlePickerKeyDown. cbn. apply legacy_arrowUp_activeIndex. }
  assert (Hdown : activeIndex (Legacy.handlePickerKeyDown p "ArrowDown" st)
                  = Z.min (lengthZ (Legacy.options p) - 1) (activeIndex st + 1)).
  { unfold Legacy.handlePickerKeyDown. cbn. apply legacy_arrowDown_activeIndex. }
  split.
  - intros Hb. cbn zeta. rewrite Hup, Hdown.
    destruct (Z.eqb_spec (activeIndex st) 0),
             (Z.eqb_spec (activeIndex st) (lengthZ (Legacy.options p) - 1)); lia.
  - intros Hnil H0. cbn zeta.
    assert (Ha : activeIndex (Legacy.handlePickerKeyDown p "ArrowDown" st) = -1).
    { rewrite Hdown, Hnil. unfold lengthZ. cbn [length]. lia. }
    split; [exact Ha|].
    generalize dependent (Legacy.handlePickerKeyDown p "ArrowDown" st).
    intros st' _ Ha. unfold Legacy.handlePickerKeyDown. cbn.
    unfold Legacy.handleItemSelect. rewrite Ha, Hnil. reflexivity.
Qed.

(** X18.  The legacy keys commit the value of an option and nothing
    else: every [onChange] they make carries the value of an option of the
    list.  The legacy commit itself looks at no option: whatever the value,
    it calls [onChange] with it and closes the picker. *)
Theorem legacy_keys_commit_options p key st :
  Extends (fun c => forall v, c = PropOnChange v ->
                      exists o, o ∈ Legacy.options p /\ Legacy.value o = v)
          st (Legacy.handlePickerKeyDown p key st)
  /\ (forall v, isOpen (Legacy.commitSelection v st) = false
                /\ PropOnChange v ∈ calls (Legacy.commitSelection v st)).
Proof.
  set (P := fun c => forall v, c = PropOnChange v ->
                     exists o, o ∈ Legacy.options p /\ Legacy.value o = v).
  assert (Hother : forall c, NoCommit c -> P c).
  { intros c Hc v ->. destruct Hc. }
  assert (Hpd : Extends P st (call PreventDefault st))
    by (apply Extends_call, Hother; exact I).
  assert (Hfocus : forall s, Extends P s (focusTrigger s))
    by (intros s; apply focusTrigger_calls, Hother; exact I).
  split.
  - unfold Legacy.handlePickerKeyDown.
    destruct (String.eqb key "Escape").
    { eapply Extends_trans; [exact Hpd|]. unfold Legacy.closePicker.
      eapply Extends_trans; [|apply Hfocus]. apply Extends_same. reflexivity. }
    destruct (String.eqb key "ArrowUp").
    { eapply Extends_trans; [exact Hpd|]. unfold Legacy.arrowUp.
      eapply Extends_trans;
        [eapply Extends_impl; [exact Hother | apply scrollItemIntoView_calls]|].
      apply Extends_same. reflexivity. }
    destruct (String.eqb key "ArrowDown").
    { eapply Extends_trans; [exact Hpd|]. unfold Legacy.arrowDown.
      eapply Extends_trans;
        [eapply Extends_impl; [exact Hother | apply scrollItemIntoView_calls]|].
      apply Extends_same. reflexivity. }
    destruct (String.eqb key "Enter"); [|apply Extends_refl].
    eapply Extends_trans; [exact Hpd|]. unfold Legacy.handleItemSelect.
    destruct (nthZ (Legacy.options p) (activeIndex st)) as [o|] eqn:Ho;
      [|apply Extends_refl].
    unfold Legacy.commitSelection.
    eapply Extends_trans; [|apply Hfocus].
    set (s0 := call PreventDefault st).
    assert (H1 : Extends P s0 (call (PropOnChange (Legacy.value o)) s0)).
    { apply Extends_call. intros v Hv. inversion Hv; subst. exists o.
      split; [|reflexivity].
      apply nthZ_Some in Ho as [_ Ho]. eapply list_elem_of_lookup_2. exact Ho. }
    eapply Extends_trans; [exact H1|]. apply Extends_same.
    destruct (selectRef (call (PropOnChange (Legacy.value o)) s0)); reflexivity.
  - intros v. unfold Legacy.commitSelection, focusTrigger.
    destruct (selectRef st) eqn:Hs, (triggerRef st) eqn:Ht;
      repeat (progress (cbn; rewrite ?Hs, ?Ht)); split; try reflexivity;
      rewrite ?elem_of_app; rewrite ?list_elem_of_singleton; auto.
Qed.

End LegacyKeys.

(* ===================================================================== *)
(** ** ArrowDown, then ArrowUp *)
(* ===================================================================== *)

Section ArrowRoundTrip.

Import Config Dom Wheel.
Open Scope Z_scope.

Implicit Types (p : WheelSelectProps) (st : State).

(** X19.  ArrowUp undoes ArrowDown.  From an active index within bounds
    whose option is not disabled, with an option that is not disabled
    somewhere after it, ArrowDown moves away and ArrowUp brings the active
    index back.  (From a disabled option, which the scroll can make
    active, ArrowUp goes further up instead.) *)
Theorem arrowDown_then_arrowUp p st :
  0 <= activeIndex st < lengthZ (options p) ->
  disabledAt (options p) (activeIndex st) = false ->
  (exists j, activeIndex st < j < lengthZ (options p)
             /\ disabledAt (options p) j = false) ->
  activeIndex st < activeIndex (arrowDown p st)
  /\ activeIndex (arrowUp p (arrowDown p st)) = activeIndex st.
Proof.
  intros Hb Hen (j & Hj & Hjen).
  set (prev := activeIndex st) in *.
  destruct (skipDisabledDown_spec (options p) (prev + 1)) as (Dle & Din & Dout).
  cbn zeta in *.
  set (d := skipDisabledDown (options p) (prev + 1)) in *.
  assert (Hd : d < lengthZ (options p)).
  { destruct (Z.lt_ge_cases d (lengthZ (options p))) as [H | H]; [exact H|].
    destruct (Din j ltac:(lia)) as [_ Hdis]. congruence. }
  assert (Hdfree : disabledAt (options p) d = false).
  { apply andb_false_iff in Dout as [Hc | Hc]; [|exact Hc].
    apply Z.ltb_ge in Hc. lia. }
  assert (Ha1 : activeIndex (arrowDown p st) = d).
  { rewrite arrowDown_activeIndex. cbn zeta. fold prev. fold d.
    destruct (Z.geb_spec d (lengthZ (options p))); [lia | reflexivity]. }
  split; [rewrite Ha1; lia|].
  rewrite arrowUp_activeIndex. cbn zeta. rewrite Ha1.
  destruct (skipDisabledUp_spec (options p) (d - 1)) as (Ule & Uin & Uout).
  cbn zeta in *.
  set (u := skipDisabledUp (options p) (d - 1)) in *.
  assert (Hu1 : prev <= u).
  { destruct (Z.le_gt_cases prev u) as [H | H]; [exact H|].
    destruct (Uin prev ltac:(lia)) as [_ Hdis]. congruence. }
  assert (Hu2 : u <= prev).
  { destruct (Z.le_gt_cases u prev) as [H | H]; [exact H|].
    destruct (Din u ltac:(lia)) as [_ Hdis].
    apply andb_false_iff in Uout as [Hc | Hc]; [|congruence].
    rewrite Z.geb_leb in Hc. apply Z.leb_gt in Hc. lia. }
  destruct (Z.ltb_spec u 0); lia.
Qed.

Lemma arrowDown_then_arrowUp_witness :
  let p := Samples.abcProps in
  let st := setActiveIndex 0 (Samples.openState p) in
  0 <= activeIndex st < lengthZ (options p)
  /\ disabledAt (options p) (activeIndex st) = false
  /\ activeIndex (arrowUp p (arrowDown p st)) = activeIndex st.
Proof.
  cbv zeta.
  set (st := setActiveIndex 0 (Samples.openState Samples.abcProps)).
  assert (Hb : 0 <= activeIndex st < lengthZ (options Samples.abcProps))
    by (vm_compute; split; [discriminate | reflexivity]).
  assert (He : disabledAt (options Samples.abcProps) (activeIndex st) = false)
    by reflexivity.
  assert (Hj : exists j, activeIndex st < j < lengthZ (options Samples.abcProps)
                         /\ disabledAt (options Samples.abcProps) j = false).
  { exists 2. split; [vm_compute; split; reflexivity | reflexivity]. }
  split; [exact Hb|]. split; [exact He|].
  exact (proj2 (arrowDown_then_arrowUp Samples.abcProps st Hb He Hj)).
Defined.

End ArrowRoundTrip.
